(** * LZMA2 decoder (liblzma/lzma/lzma2_decoder.c): chunk framing state machine
    and properties decoder, embedded as Rocq functions.

    Conventions of the embedding.
    - [size_t] and [uint32_t] values are numbers of type [N]; every
      operation that can wrap in C is written with its wrap-around
      ([size_add], [size_sub], [u32]).  [size_t] is taken to be 64 bits wide.
    - The input buffer [in] is a [list byte]; [*in_pos] and [in_size] index
      it and are natural numbers ([*in_pos] never wraps: it is only
      incremented below [in_size]).
    - A C function that mutates [*coder], [*dict] and [*in_pos] returns the
      new values next to its [lzma_ret].
    - The LZMA decoder behind [coder->lzma] (a struct of function pointers),
      [dict_reset] and [lzma_lzma_lclppb_decode] live in other files of
      liblzma; they are parameters of the development.  [lzma_dict] and
      [dict_write] (lz_decoder.h) are written down from the description of
      the raw-copy phase in the specification.
    - The file has two parts: the definitions, then the lemmas and the
      theorems about them. *)

From Stdlib Require Import NArith ZArith List Bool Arith Lia.
From Stdlib Require Import Strings.Byte.
Import ListNotations.

Set Implicit Arguments.

(** ** Machine arithmetic *)

Definition SIZE_BITS : N := 64.
Definition SIZE_MOD : N := 2 ^ SIZE_BITS.
Definition UINT32_MAX : N := 4294967295.

(** [(uint32_t) x] *)
Definition u32 (x : N) : N := x mod 2 ^ 32.

(** [a + b] on [size_t] *)
Definition size_add (a b : N) : N := (a + b) mod SIZE_MOD.

(** [a - b] on [size_t] *)
Definition size_sub (a b : N) : N :=
  Z.to_N ((Z.of_N a - Z.of_N b) mod Z.of_N SIZE_MOD).

Arguments u32 : simpl never.
Arguments size_add : simpl never.
Arguments size_sub : simpl never.

(** The value of a [uint8_t]. *)
Definition byte_val (b : byte) : N := Byte.to_N b.

(** [in[pos]] *)
Definition in_at (in_ : list byte) (pos : nat) : N :=
  byte_val (nth pos in_ x00).

(** ** Return codes and options *)

Inductive lzma_ret : Type :=
  | LZMA_OK
  | LZMA_STREAM_END
  | LZMA_DATA_ERROR
  | LZMA_OPTIONS_ERROR
  | LZMA_MEM_ERROR
  | LZMA_PROG_ERROR.

Definition lzma_ret_eqb (a b : lzma_ret) : bool :=
  match a, b with
  | LZMA_OK, LZMA_OK
  | LZMA_STREAM_END, LZMA_STREAM_END
  | LZMA_DATA_ERROR, LZMA_DATA_ERROR
  | LZMA_OPTIONS_ERROR, LZMA_OPTIONS_ERROR
  | LZMA_MEM_ERROR, LZMA_MEM_ERROR
  | LZMA_PROG_ERROR, LZMA_PROG_ERROR => true
  | _, _ => false
  end.

(** [lzma_options_lzma]: the three fields written by
    [lzma_lzma2_props_decode], and the literal context/position bits that
    [lzma_lzma_lclppb_decode] fills in. *)
Record lzma_options_lzma : Type := mk_options {
  dictionary_size : N;                      (* uint32_t *)
  preset_dictionary : option (list byte);   (* NULL is None *)
  preset_dictionary_size : N;
  lc : N;
  lp : N;
  pb : N
}.

(** ** The dictionary *)

(** Modelled from the spec: [lzma_dict] (lz_decoder.h).  The dictionary is
    the "shared sliding-window buffer of previously produced output", a
    "single-writer append-style structure" whose "write position is
    advanced" by the writer and whose capacity is bounded (a blocked writer
    needs "more output capacity").  [dict_buf] holds the bytes written so
    far, oldest first; the write position is its length; [dict_limit] is
    the position beyond which nothing can be written. *)
Record lzma_dict : Type := mk_dict {
  dict_buf : list byte;
  dict_limit : nat
}.

Definition dict_pos (d : lzma_dict) : nat := length (dict_buf d).

(** Modelled from the spec: [dict_write] (lz_decoder.h).  It "copies bytes
    directly from input into the dictionary's sliding window (bounded by
    both available input and [compressed_remaining]), decrementing
    [compressed_remaining] by bytes copied"; the room left in the window
    bounds the copy as well.  Returns the new [*dict], [*in_pos] and
    [*left]. *)
Definition dict_write (d : lzma_dict) (in_ : list byte) (in_pos in_size : nat)
    (left : N) : lzma_dict * nat * N :=
  let n := Nat.min (in_size - in_pos)
             (Nat.min (N.to_nat left) (dict_limit d - dict_pos d)) in
  (mk_dict (dict_buf d ++ firstn n (skipn in_pos in_)) (dict_limit d),
   in_pos + n,
   (left - N.of_nat n)%N).

(** ** The coder *)

Inductive sequence_t : Type :=
  | SEQ_CONTROL
  | SEQ_UNCOMPRESSED_1
  | SEQ_UNCOMPRESSED_2
  | SEQ_COMPRESSED_0
  | SEQ_COMPRESSED_1
  | SEQ_PROPERTIES
  | SEQ_LZMA
  | SEQ_COPY.

Definition is_SEQ_LZMA (s : sequence_t) : bool :=
  match s with SEQ_LZMA => true | _ => false end.

(** [lzma_lz_decoder]: the function pointers of the wrapped LZMA decoder,
    over its private state [coder->lzma.coder] of type [lz]. *)
Record lzma_lz_decoder (lz : Type) : Type := mk_lz_decoder {
  (* code(coder, dict, in, in_pos, in_size) *)
  lz_code : lz -> lzma_dict -> list byte -> nat -> nat ->
            lzma_ret * lz * lzma_dict * nat;
  (* reset(coder, options) *)
  lz_reset : lz -> lzma_options_lzma -> lz;
  (* set_uncompressed(coder, uncompressed_size) *)
  lz_set_uncompressed : lz -> N -> lz
}.

(** [struct lzma_coder_s] *)
Record lzma_coder (lz : Type) : Type := mk_coder {
  sequence : sequence_t;
  next_sequence : sequence_t;
  lzma : lz;
  uncompressed_size : N;
  compressed_size : N;
  need_properties : bool;
  need_dictionary_reset : bool;
  options : lzma_options_lzma
}.

Section Setters.
Variable lz : Type.
Implicit Type c : lzma_coder lz.

Definition set_sequence (s : sequence_t) c : lzma_coder lz :=
  mk_coder s (next_sequence c) (lzma c) (uncompressed_size c)
    (compressed_size c) (need_properties c) (need_dictionary_reset c)
    (options c).

Definition set_next_sequence (s : sequence_t) c : lzma_coder lz :=
  mk_coder (sequence c) s (lzma c) (uncompressed_size c)
    (compressed_size c) (need_properties c) (need_dictionary_reset c)
    (options c).

Definition set_lzma (l : lz) c : lzma_coder lz :=
  mk_coder (sequence c) (next_sequence c) l (uncompressed_size c)
    (compressed_size c) (need_properties c) (need_dictionary_reset c)
    (options c).

Definition set_uncompressed_size (n : N) c : lzma_coder lz :=
  mk_coder (sequence c) (next_sequence c) (lzma c) n
    (compressed_size c) (need_properties c) (need_dictionary_reset c)
    (options c).

Definition set_compressed_size (n : N) c : lzma_coder lz :=
  mk_coder (sequence c) (next_sequence c) (lzma c) (uncompressed_size c)
    n (need_properties c) (need_dictionary_reset c) (options c).

Definition set_need_properties (b : bool) c : lzma_coder lz :=
  mk_coder (sequence c) (next_sequence c) (lzma c) (uncompressed_size c)
    (compressed_size c) b (need_dictionary_reset c) (options c).

Definition set_need_dictionary_reset (b : bool) c : lzma_coder lz :=
  mk_coder (sequence c) (next_sequence c) (lzma c) (uncompressed_size c)
    (compressed_size c) (need_properties c) b (options c).

Definition set_options (o : lzma_options_lzma) c : lzma_coder lz :=
  mk_coder (sequence c) (next_sequence c) (lzma c) (uncompressed_size c)
    (compressed_size c) (need_properties c) (need_dictionary_reset c) o.
End Setters.

(** What one pass through the body of the [while] loop does next: [break]
    out of the [switch] and test the loop condition again, or [return]. *)
Inductive flow : Type :=
  | Break
  | Return (r : lzma_ret).

(** ** [lzma2_decode] *)

Section Lzma2Decode.
Variable lz : Type.
Variable L : lzma_lz_decoder lz.
(** [dict_reset] of lz_decoder.h. *)
Variable dict_reset : lzma_dict -> lzma_dict.
(** [lzma_lzma_lclppb_decode(&options, byte)]: returns [true] on failure,
    next to the options as it leaves them. *)
Variable lzma_lzma_lclppb_decode :
  lzma_options_lzma -> N -> bool * lzma_options_lzma.

Abbreviation coder_t := (lzma_coder lz).
Abbreviation result := (lzma_ret * coder_t * lzma_dict * nat)%type.

Open Scope N_scope.

(** [case 2:] of the reset switch of a compressed chunk (lines 88-94);
    [case 3:] falls through to it. *)
Definition control_lzma_case2 (c : coder_t) (d : lzma_dict) (in_pos : nat)
    : flow * coder_t * lzma_dict * nat :=
  if need_dictionary_reset c then (Return LZMA_DATA_ERROR, c, d, in_pos)
  else (Break,
        set_next_sequence SEQ_PROPERTIES (set_need_properties false c),
        d, in_pos).

(** [case 2:] of the switch of an uncompressed chunk (lines 127-135);
    [case 1:] falls through to it. *)
Definition control_copy_case2 (c : coder_t) (d : lzma_dict) (in_pos : nat)
    : flow * coder_t * lzma_dict * nat :=
  if need_dictionary_reset c then (Return LZMA_DATA_ERROR, c, d, in_pos)
  else (Break,
        set_next_sequence SEQ_COPY (set_sequence SEQ_COMPRESSED_0 c),
        d, in_pos).

(** [case SEQ_CONTROL:] (lines 73-142). *)
Definition seq_control (c : coder_t) (d : lzma_dict) (in_ : list byte)
    (in_pos : nat) : flow * coder_t * lzma_dict * nat :=
  let b := in_at in_ in_pos in
  if negb (N.land b 0x80 =? 0) then
    let c := set_uncompressed_size (u32 (N.shiftl (N.land b 0x1F) 16)) c in
    let c := set_sequence SEQ_UNCOMPRESSED_1 c in
    let in_pos := S in_pos in
    match N.land (N.shiftr b 5) 3 with
    | 3 =>
        let d := dict_reset d in
        let c := set_need_dictionary_reset false c in
        control_lzma_case2 c d in_pos
    | 2 => control_lzma_case2 c d in_pos
    | 1 =>
        if need_properties c then (Return LZMA_DATA_ERROR, c, d, in_pos)
        else
          let c := set_lzma (lz_reset L (lzma c) (options c)) c in
          (Break, set_next_sequence SEQ_LZMA c, d, in_pos)
    | 0 =>
        if need_properties c then (Return LZMA_DATA_ERROR, c, d, in_pos)
        else (Break, set_next_sequence SEQ_LZMA c, d, in_pos)
    | _ => (Break, c, d, in_pos)
    end
  else
    let in_pos := S in_pos in
    match b with
    | 0 => (Return LZMA_STREAM_END, c, d, in_pos)
    | 1 =>
        let d := dict_reset d in
        let c := set_need_dictionary_reset false c in
        control_copy_case2 c d in_pos
    | 2 => control_copy_case2 c d in_pos
    | _ => (Return LZMA_DATA_ERROR, c, d, in_pos)
    end.

(** [case SEQ_LZMA:] (lines 175-203). *)
Definition seq_lzma (c : coder_t) (d : lzma_dict) (in_ : list byte)
    (in_pos in_size : nat) : flow * coder_t * lzma_dict * nat :=
  let in_start := in_pos in
  let '(ret, l, d, in_pos) := lz_code L (lzma c) d in_ in_pos in_size in
  let c := set_lzma l c in
  let in_used := size_sub (N.of_nat in_pos) (N.of_nat in_start) in
  if compressed_size c <? in_used then (Return LZMA_DATA_ERROR, c, d, in_pos)
  else
    let c := set_compressed_size (compressed_size c - in_used) c in
    if negb (lzma_ret_eqb ret LZMA_STREAM_END) then (Return ret, c, d, in_pos)
    else if negb (compressed_size c =? 0) then
      (Return LZMA_DATA_ERROR, c, d, in_pos)
    else (Break, set_sequence SEQ_CONTROL c, d, in_pos).

(** [case SEQ_COPY:] (lines 205-214). *)
Definition seq_copy (c : coder_t) (d : lzma_dict) (in_ : list byte)
    (in_pos in_size : nat) : flow * coder_t * lzma_dict * nat :=
  let '(d, in_pos, left_) :=
    dict_write d in_ in_pos in_size (compressed_size c) in
  let c := set_compressed_size left_ c in
  if negb (compressed_size c =? 0) then (Return LZMA_OK, c, d, in_pos)
  else (Break, set_sequence SEQ_CONTROL c, d, in_pos).

(** The body of the [while] loop: [switch (coder->sequence)].  The
    [default:] label (lines 216-218) is not reachable: [sequence_t] has
    no other value. *)
Definition lzma2_iter (c : coder_t) (d : lzma_dict) (in_ : list byte)
    (in_pos in_size : nat) : flow * coder_t * lzma_dict * nat :=
  match sequence c with
  | SEQ_CONTROL => seq_control c d in_ in_pos
  | SEQ_UNCOMPRESSED_1 =>
      let c := set_uncompressed_size
                 (size_add (uncompressed_size c)
                    (u32 (N.shiftl (in_at in_ in_pos) 8))) c in
      (Break, set_sequence SEQ_UNCOMPRESSED_2 c, d, S in_pos)
  | SEQ_UNCOMPRESSED_2 =>
      let c := set_uncompressed_size
                 (size_add (uncompressed_size c) (in_at in_ in_pos + 1)) c in
      let c := set_sequence SEQ_COMPRESSED_0 c in
      let c := set_lzma
                 (lz_set_uncompressed L (lzma c) (uncompressed_size c)) c in
      (Break, c, d, S in_pos)
  | SEQ_COMPRESSED_0 =>
      let c := set_compressed_size (u32 (N.shiftl (in_at in_ in_pos) 8)) c in
      (Break, set_sequence SEQ_COMPRESSED_1 c, d, S in_pos)
  | SEQ_COMPRESSED_1 =>
      let c := set_compressed_size
                 (size_add (compressed_size c) (in_at in_ in_pos + 1)) c in
      (Break, set_sequence (next_sequence c) c, d, S in_pos)
  | SEQ_PROPERTIES =>
      let '(failed, o) :=
        lzma_lzma_lclppb_decode (options c) (in_at in_ in_pos) in
      let c := set_options o c in
      if failed then (Return LZMA_DATA_ERROR, c, d, S in_pos)
      else
        let c := set_lzma (lz_reset L (lzma c) (options c)) c in
        (Break, set_sequence SEQ_LZMA c, d, S in_pos)
  | SEQ_LZMA => seq_lzma c d in_ in_pos in_size
  | SEQ_COPY => seq_copy c d in_ in_pos in_size
  end.

(** The loop condition (line 71). *)
Definition loop_cond (c : coder_t) (in_pos in_size : nat) : bool :=
  (in_pos <? in_size)%nat || is_SEQ_LZMA (sequence c).

(** The [while] loop, unfolded at most [fuel] times; [None] when [fuel]
    passes were not enough to leave it. *)
Fixpoint lzma2_decode_loop (fuel : nat) (c : coder_t) (d : lzma_dict)
    (in_ : list byte) (in_pos in_size : nat) : option result :=
  match fuel with
  | O => None
  | S fuel =>
      if loop_cond c in_pos in_size then
        match lzma2_iter c d in_ in_pos in_size with
        | (Return r, c, d, in_pos) => Some (r, c, d, in_pos)
        | (Break, c, d, in_pos) =>
            lzma2_decode_loop fuel c d in_ in_pos in_size
        end
      else Some (LZMA_OK, c, d, in_pos)
  end.

(** Every pass but [SEQ_LZMA] and [SEQ_COPY] consumes a byte, and those
    two are followed by [SEQ_CONTROL]: this many passes are enough
    ([lzma2_decode_total] below). *)
Definition lzma2_fuel (in_pos in_size : nat) : nat :=
  (2 * (in_size - in_pos) + 2)%nat.

Definition lzma2_decode (c : coder_t) (d : lzma_dict) (in_ : list byte)
    (in_pos in_size : nat) : option result :=
  lzma2_decode_loop (lzma2_fuel in_pos in_size) c d in_ in_pos in_size.

(** [lzma2_decode] returns [res]: some number of passes leaves the loop
    with it. *)
Definition decodes (c : coder_t) (d : lzma_dict) (in_ : list byte)
    (in_pos in_size : nat) (res : result) : Prop :=
  exists fuel, lzma2_decode_loop fuel c d in_ in_pos in_size = Some res.

(** The part of [lzma2_decoder_init] that sets up [*lz->coder] (lines
    252-254); [c0] is the memory as [lzma_alloc] or the previous session
    left it. *)
Definition lzma2_decoder_init (c0 : coder_t) : coder_t :=
  set_need_dictionary_reset true
    (set_need_properties true (set_sequence SEQ_CONTROL c0)).

(** ** Feeding a stream in pieces *)

(** The caller's side of resumption: each piece is handed to
    [lzma2_decode] as a fresh buffer, and the next piece follows when the
    call returned [LZMA_OK] with the piece used up.  [base] counts the bytes
    of the pieces before; the position of the result is relative to the
    start of the whole stream. *)
Fixpoint lzma2_feed (c : coder_t) (d : lzma_dict)
    (pieces : list (list byte)) (base : nat)
    : option result :=
  match pieces with
  | [] => Some (LZMA_OK, c, d, base)
  | p :: rest =>
      match lzma2_decode c d p 0 (length p) with
      | None => None
      | Some (r, c', d', pos) =>
          if lzma_ret_eqb r LZMA_OK && (pos =? length p)%nat then
            lzma2_feed c' d' rest (base + length p)%nat
          else Some (r, c', d', (base + pos)%nat)
      end
  end.

(** ** Notions used in the statements *)

Implicit Types (c : lzma_coder lz) (d : lzma_dict).

(** The measure that every pass of the loop decreases. *)
Definition loop_measure c (pos size : nat) : nat :=
  (2 * (size - pos) +
   match sequence c with SEQ_LZMA | SEQ_COPY => 1 | _ => 0 end)%nat.

(** The LZMA decoder never moves [*in_pos] backwards. *)
Definition lz_advances : Prop :=
  forall l d in_ pos size,
    (pos <= snd (lz_code L l d in_ pos size))%nat.

(** The passes that read one header byte. *)
Definition header_phase (s : sequence_t) : bool :=
  match s with SEQ_LZMA | SEQ_COPY => false | _ => true end.

(** The coder [c] with new [sequence], LZMA decoder and size counters. *)
Definition header_state (s : sequence_t) (l : lz) (u cs : N) c
    : lzma_coder lz :=
  mk_coder s (next_sequence c) l u cs (need_properties c)
    (need_dictionary_reset c) (options c).

(** The result of a call, with its position counted from [n] bytes
    earlier. *)
Definition shift_pos (n : nat)
    (res : lzma_ret * lzma_coder lz * lzma_dict * nat)
    : lzma_ret * lzma_coder lz * lzma_dict * nat :=
  let '(r, c, d, p) := res in (r, c, d, (n + p)%nat).

(** The pass that starts in [c] at [in[pos]] is a [SEQ_PROPERTIES] pass
    whose [lzma_lzma_lclppb_decode] succeeds. *)
Definition props_decoded_in_pass c (in_ : list byte) (pos : nat) : bool :=
  match sequence c with
  | SEQ_PROPERTIES =>
      negb (fst (lzma_lzma_lclppb_decode (options c) (in_at in_ pos)))
  | _ => false
  end.

(** Some pass of the loop decodes a properties byte successfully; follows
    the passes of [lzma2_decode_loop]. *)
Fixpoint props_decoded_in_loop (fuel : nat) c d (in_ : list byte)
    (pos size : nat) : bool :=
  match fuel with
  | O => false
  | S fuel =>
      if loop_cond c pos size then
        match lzma2_iter c d in_ pos size with
        | (Return _, _, _, _) => props_decoded_in_pass c in_ pos
        | (Break, c', d', pos') =>
            props_decoded_in_pass c in_ pos
            || props_decoded_in_loop fuel c' d' in_ pos' size
        end
      else false
  end.

Definition props_decoded_in_call c d (in_ : list byte) (pos size : nat)
    : bool :=
  props_decoded_in_loop (lzma2_fuel pos size) c d in_ pos size.

(** [reachable g c]: [c] is the coder after [lzma2_decoder_init] and any
    number of calls of [lzma2_decode], on any buffers and with the
    dictionary in any state; [g] tells whether one of the calls decoded a
    properties byte successfully. *)
Inductive reachable : bool -> lzma_coder lz -> Prop :=
  | reach_init c0 : reachable false (lzma2_decoder_init c0)
  | reach_call g c d in_ pos size r c' d' pos' :
      reachable g c ->
      lzma2_decode c d in_ pos size = Some (r, c', d', pos') ->
      reachable (g || props_decoded_in_call c d in_ pos size) c'.

(** The header of a chunk that carries a properties byte is being read:
    the byte is the next thing to be decoded after the size fields. *)
Definition properties_pending c : bool :=
  match next_sequence c, sequence c with
  | SEQ_PROPERTIES,
    (SEQ_UNCOMPRESSED_1 | SEQ_UNCOMPRESSED_2 | SEQ_COMPRESSED_0
     | SEQ_COMPRESSED_1 | SEQ_PROPERTIES) => true
  | _, _ => false
  end.

Definition need_properties_inv (g : bool) c : Prop :=
  need_properties c || g || properties_pending c = true.

(** ** Further notions: bounds, error-free sessions, uncompressed streams *)

(** The LZMA decoder never moves [*in_pos] past [in_size]. *)
Definition lz_in_bounds : Prop :=
  forall l d in_ pos size,
    (pos <= size)%nat -> (snd (lz_code L l d in_ pos size) <= size)%nat.

(** [reachable_ok g c]: as [reachable], for a session in which no call
    has returned [LZMA_DATA_ERROR]. *)
Inductive reachable_ok : bool -> lzma_coder lz -> Prop :=
  | reach_ok_init c0 : reachable_ok false (lzma2_decoder_init c0)
  | reach_ok_call g c d in_ pos size r c' d' pos' :
      reachable_ok g c ->
      lzma2_decode c d in_ pos size = Some (r, c', d', pos') ->
      r <> LZMA_DATA_ERROR ->
      reachable_ok (g || props_decoded_in_call c d in_ pos size) c'.

(** The header of a compressed chunk has been accepted: the properties
    byte is still to come, or properties have been decoded before. *)
Definition lzma_header_inv (g : bool) c : Prop :=
  need_properties c = false /\
  (next_sequence c = SEQ_PROPERTIES \/
   (next_sequence c = SEQ_LZMA /\ g = true)).

Definition uncompressed_size_ok c : Prop :=
  (1 <= uncompressed_size c <= 2097152)%N.

(** What holds of the coder in each phase of an error-free session. *)
Definition chunk_inv (g : bool) c : Prop :=
  need_properties_inv g c /\
  (need_properties c = false -> need_dictionary_reset c = false) /\
  match sequence c with
  | SEQ_CONTROL => True
  | SEQ_UNCOMPRESSED_1 =>
      need_dictionary_reset c = false /\ lzma_header_inv g c /\
      (uncompressed_size c <= 2031616)%N
  | SEQ_UNCOMPRESSED_2 =>
      need_dictionary_reset c = false /\ lzma_header_inv g c /\
      (uncompressed_size c <= 2096896)%N
  | SEQ_COMPRESSED_0 =>
      need_dictionary_reset c = false /\
      ((lzma_header_inv g c /\ uncompressed_size_ok c) \/
       next_sequence c = SEQ_COPY)
  | SEQ_COMPRESSED_1 =>
      need_dictionary_reset c = false /\
      ((lzma_header_inv g c /\ uncompressed_size_ok c) \/
       next_sequence c = SEQ_COPY) /\
      (compressed_size c <= 65280)%N
  | SEQ_PROPERTIES =>
      need_dictionary_reset c = false /\ need_properties c = false /\
      uncompressed_size_ok c /\ (1 <= compressed_size c <= 65536)%N
  | SEQ_LZMA =>
      need_dictionary_reset c = false /\ need_properties c = false /\
      g = true /\ uncompressed_size_ok c /\ (compressed_size c <= 65536)%N
  | SEQ_COPY =>
      need_dictionary_reset c = false /\ (1 <= compressed_size c <= 65536)%N
  end.

(** The coder after an uncompressed chunk has been copied. *)
Definition raw_done c : lzma_coder lz :=
  mk_coder SEQ_CONTROL SEQ_COPY (lzma c) (uncompressed_size c) 0
    (need_properties c) false (options c).

(** What a stream of uncompressed chunks puts into the dictionary: each
    chunk is a reset flag and a body of 1 to 65536 bytes; a chunk without
    the flag needs an earlier reset ([ndr] is [need_dictionary_reset]);
    the body is appended to the window, which must have room for it. *)
Fixpoint raw_run (ndr : bool) (d : lzma_dict)
    (chunks : list (bool * list byte)) : option lzma_dict :=
  match chunks with
  | [] => Some d
  | (reset, body) :: rest =>
      let d0 := if reset then dict_reset d else d in
      if (reset || negb ndr)
         && (1 <=? N.of_nat (length body)) && (N.of_nat (length body) <=? 65536)
         && (dict_pos d0 + length body <=? dict_limit d0)%nat
      then raw_run false (mk_dict (dict_buf d0 ++ body) (dict_limit d0)) rest
      else None
  end.

End Lzma2Decode.

(** ** Members that are still read *)

(** The states [next_sequence] can name: what follows the size bytes of a
    chunk. *)
Definition chunk_body_state (s : sequence_t) : bool :=
  match s with
  | SEQ_PROPERTIES | SEQ_LZMA | SEQ_COPY => true
  | _ => false
  end.

(** Two coders that agree on every member the decoder can still read:
    [next_sequence] counts from the control byte up to the last size
    byte, [uncompressed_size] while its two bytes are read, and
    [compressed_size] from its second byte on. *)
Definition same_live_fields (lz : Type) (c1 c2 : lzma_coder lz) : Prop :=
  sequence c1 = sequence c2 /\ lzma c1 = lzma c2 /\
  need_properties c1 = need_properties c2 /\
  need_dictionary_reset c1 = need_dictionary_reset c2 /\
  options c1 = options c2 /\
  match sequence c1 with
  | SEQ_CONTROL => True
  | SEQ_UNCOMPRESSED_1 | SEQ_UNCOMPRESSED_2 =>
      next_sequence c1 = next_sequence c2 /\
      chunk_body_state (next_sequence c1) = true /\
      uncompressed_size c1 = uncompressed_size c2
  | SEQ_COMPRESSED_0 =>
      next_sequence c1 = next_sequence c2 /\
      chunk_body_state (next_sequence c1) = true
  | SEQ_COMPRESSED_1 =>
      next_sequence c1 = next_sequence c2 /\
      chunk_body_state (next_sequence c1) = true /\
      compressed_size c1 = compressed_size c2
  | SEQ_PROPERTIES | SEQ_LZMA | SEQ_COPY =>
      compressed_size c1 = compressed_size c2
  end.

(** ** [lzma_lzma2_props_decode] *)

(** [alloc] is what [lzma_alloc(sizeof(lzma_options_lzma), allocator)]
    returns: [None] for [NULL], else the block with its unspecified
    contents.  The result is the return value and [*options]. *)
Definition lzma_lzma2_props_decode (alloc : option lzma_options_lzma)
    (props : list byte) (props_size : nat)
    : lzma_ret * option lzma_options_lzma :=
  if negb (props_size =? 1)%nat then (LZMA_OPTIONS_ERROR, None)
  else
    let p0 := in_at props 0 in
    if negb (N.land p0 0xC0 =? 0)%N then (LZMA_OPTIONS_ERROR, None)
    else if (40 <? p0)%N then (LZMA_OPTIONS_ERROR, None)
    else
      match alloc with
      | None => (LZMA_MEM_ERROR, None)
      | Some opt =>
          let ds :=
            if (p0 =? 40)%N then UINT32_MAX
            else u32 (N.shiftl (N.lor 2 (N.land p0 1)) (p0 / 2 + 11)) in
          (LZMA_OK,
           Some (mk_options ds None 0 (lc opt) (lp opt) (pb opt)))
      end.

(** The dictionary size [lzma_lzma2_props_decode] computes from the byte
    with value [v]. *)
Abbreviation props_dict_size v :=
  (if (v =? 40)%N then UINT32_MAX
   else u32 (N.shiftl (N.lor 2 (N.land v 1)) (v / 2 + 11))).

(** ** The size fields, as the format describes them *)

(** The sizes as the format describes them: the low five bits of the
    control byte and two more bytes, big-endian, plus one; and two bytes,
    big-endian, plus one. *)
Definition chunk_uncompressed_size (cb b1 b2 : N) : N :=
  (N.lor (N.lor (N.shiftl (N.land cb 0x1F) 16) (N.shiftl b1 8)) b2 + 1)%N.

Definition chunk_compressed_size (b3 b4 : N) : N :=
  (N.lor (N.shiftl b3 8) b4 + 1)%N.

(** ** Resumable LZMA decoders *)

(** What resumption asks of the LZMA decoder behind [coder->lzma]: it
    moves [*in_pos] forward and not past [in_size]; it looks at the input
    from [*in_pos] on only; a call that did not stop for lack of input
    (it returned something else than [LZMA_OK], or left input unused) is
    not changed by more input; and a call that used up its input and
    returned [LZMA_OK] is continued by the next call as if the input had
    been there at once. *)
Record lz_resumable (lz : Type) (L : lzma_lz_decoder lz) : Prop := {
  lz_advance : forall l d in_ pos size,
    (pos <= snd (lz_code L l d in_ pos size))%nat;
  lz_bounded : forall l d in_ pos,
    (pos <= length in_)%nat ->
    (snd (lz_code L l d in_ pos (length in_)) <= length in_)%nat;
  lz_stable : forall l d in1 in2 pos r l1 d1 p1,
    (pos <= length in1)%nat ->
    lz_code L l d in1 pos (length in1) = (r, l1, d1, p1) ->
    r <> LZMA_OK \/ (p1 < length in1)%nat ->
    lz_code L l d (in1 ++ in2) pos (length (in1 ++ in2)) = (r, l1, d1, p1);
  lz_resume : forall l d in1 in2 pos l1 d1,
    (pos <= length in1)%nat ->
    lz_code L l d in1 pos (length in1) = (LZMA_OK, l1, d1, length in1) ->
    lz_code L l d (in1 ++ in2) pos (length (in1 ++ in2))
    = lz_code L l1 d1 (in1 ++ in2) (length in1) (length (in1 ++ in2));
  lz_window : forall l d in1 in2 p,
    lz_code L l d (in1 ++ in2) (length in1 + p) (length (in1 ++ in2))
    = (let '(r, l', d', p') := lz_code L l d in2 p (length in2) in
       (r, l', d', (length in1 + p')%nat))
}.

(** ** The layout of uncompressed chunks *)

(** The byte with value [n] (for [n < 256]). *)
Definition byte_of_N (n : N) : byte :=
  match Byte.of_N n with Some b => b | None => x00 end.

(** An uncompressed chunk as the decoder reads it: control byte 0x01
    (with dictionary reset) or 0x02, the length of the body minus one in
    two bytes, high byte first, and the body. *)
Definition raw_chunk (reset : bool) (body : list byte) : list byte :=
  (if reset then x01 else x02)
  :: byte_of_N ((N.of_nat (length body) - 1) / 256)
  :: byte_of_N ((N.of_nat (length body) - 1) mod 256)
  :: body.

(** Chunks one after the other, and the end marker. *)
Fixpoint raw_stream (chunks : list (bool * list byte)) : list byte :=
  match chunks with
  | [] => [x00]
  | (reset, body) :: rest => raw_chunk reset body ++ raw_stream rest
  end.

(** ** A small instance of the parameters, for running the decoder

    [stored_decoder] is a stand-in for the LZMA decoder: its "compressed"
    data is the uncompressed data itself, so a chunk is complete when as
    many bytes as [set_uncompressed] announced have been moved into the
    dictionary. *)

Definition stored_code (n : N) (d : lzma_dict) (in_ : list byte)
    (in_pos in_size : nat) : lzma_ret * N * lzma_dict * nat :=
  let '(d, in_pos, left_) := dict_write d in_ in_pos in_size n in
  (if (left_ =? 0)%N then LZMA_STREAM_END else LZMA_OK, left_, d, in_pos).

Definition stored_decoder : lzma_lz_decoder N :=
  mk_lz_decoder stored_code (fun n _ => n) (fun _ u => u).

(** A dictionary reset that empties the window. *)
Definition clearing_dict_reset (d : lzma_dict) : lzma_dict :=
  mk_dict [] (dict_limit d).

(** An lc/lp/pb decoder: [byte = (pb * 5 + lp) * 9 + lc], with
    [lc + lp <= 4]. *)
Definition sample_lclppb_decode (o : lzma_options_lzma) (b : N)
    : bool * lzma_options_lzma :=
  if (224 <? b)%N then (true, o)
  else
    let pb' := (b / 45)%N in
    let b := (b - pb' * 45)%N in
    let lp' := (b / 9)%N in
    let lc' := (b - lp' * 9)%N in
    ((4 <? lc' + lp')%N,
     mk_options (dictionary_size o) (preset_dictionary o)
       (preset_dictionary_size o) lc' lp' pb').

Definition sample_options : lzma_options_lzma :=
  mk_options 4096 None 0 0 0 0.

Definition sample_dict : lzma_dict := mk_dict [] 4096.

(** A coder as [lzma2_decoder_init] leaves it. *)
Definition sample_coder : lzma_coder N :=
  lzma2_decoder_init
    (mk_coder SEQ_COPY SEQ_COPY 0%N 0%N 0%N false false sample_options).

Definition sample_decode :=
  lzma2_decode stored_decoder clearing_dict_reset sample_lclppb_decode.

Definition sample_iter :=
  lzma2_iter stored_decoder clearing_dict_reset sample_lclppb_decode.

Definition sample_feed :=
  lzma2_feed stored_decoder clearing_dict_reset sample_lclppb_decode.

(** ** Properties of the machine arithmetic *)

Lemma byte_val_bound (b : byte) : (byte_val b < 256)%N.
Proof.
  unfold byte_val. pose proof (Byte.to_N_bounded b). lia.
Qed.

Lemma in_at_bound (in_ : list byte) (pos : nat) : (in_at in_ pos < 256)%N.
Proof. apply byte_val_bound. Qed.

Lemma u32_small (x : N) : (x < 2 ^ 32)%N -> u32 x = x.
Proof. intro H. unfold u32. now apply N.mod_small. Qed.

Lemma size_add_small (a b : N) :
  (a + b < SIZE_MOD)%N -> size_add a b = (a + b)%N.
Proof. intro H. unfold size_add. now apply N.mod_small. Qed.

Lemma size_sub_le (a b : N) :
  (b <= a)%N -> (a < SIZE_MOD)%N -> size_sub a b = (a - b)%N.
Proof.
  intros Hle Hlt. unfold size_sub.
  rewrite Z.mod_small by (unfold SIZE_MOD, SIZE_BITS in *; lia). lia.
Qed.

Lemma size_sub_nat (p q : nat) :
  (q <= p)%nat -> (N.of_nat p < SIZE_MOD)%N ->
  size_sub (N.of_nat p) (N.of_nat q) = N.of_nat (p - q).
Proof.
  intros Hle Hlt. rewrite size_sub_le by lia. lia.
Qed.

Lemma shiftl_8_bound (b : N) : (b < 256 -> N.shiftl b 8 < 65536)%N.
Proof.
  intro H. rewrite N.shiftl_mul_pow2. change (2 ^ 8)%N with 256%N. lia.
Qed.

(** A value below [2^n] occupies none of the bits of a multiple of [2^n],
    so OR-ing the two is adding them. *)
Lemma lor_shiftl_add (h l n : N) :
  (l < 2 ^ n)%N -> N.lor (N.shiftl h n) l = (h * 2 ^ n + l)%N.
Proof.
  intro Hl.
  assert (Hland : N.land (N.shiftl h n) l = 0%N).
  { apply N.bits_inj. intro i. rewrite N.land_spec, N.bits_0.
    destruct (N.lt_ge_cases i n) as [Hi | Hi].
    - now rewrite N.shiftl_spec_low.
    - destruct (N.eq_dec l 0) as [-> | Hne].
      + now rewrite N.bits_0, andb_false_r.
      + rewrite (N.bits_above_log2 l i), andb_false_r; [reflexivity|].
        apply N.log2_lt_pow2; [lia|].
        eapply N.lt_le_trans; [exact Hl|]. now apply N.pow_le_mono_r. }
  rewrite <- N.lxor_lor by exact Hland.
  rewrite <- N.add_nocarry_lxor by exact Hland.
  now rewrite N.shiftl_mul_pow2.
Qed.

Lemma lzma_ret_eqb_eq (a b : lzma_ret) : lzma_ret_eqb a b = true <-> a = b.
Proof. destruct a, b; simpl; split; congruence. Qed.

Lemma lzma_ret_eqb_neq (a b : lzma_ret) : lzma_ret_eqb a b = false <-> a <> b.
Proof. destruct a, b; simpl; split; congruence. Qed.

(** ** The loop *)

Section LoopFacts.
Variable lz : Type.
Variable L : lzma_lz_decoder lz.
Variable dict_reset : lzma_dict -> lzma_dict.
Variable lzma_lzma_lclppb_decode :
  lzma_options_lzma -> N -> bool * lzma_options_lzma.

Abbreviation iter := (lzma2_iter L dict_reset lzma_lzma_lclppb_decode).
Abbreviation loop := (lzma2_decode_loop L dict_reset lzma_lzma_lclppb_decode).
Abbreviation decode := (lzma2_decode L dict_reset lzma_lzma_lclppb_decode).
Abbreviation runs := (decodes L dict_reset lzma_lzma_lclppb_decode).

Implicit Types (c : lzma_coder lz) (d : lzma_dict).

Lemma loop_fuel_mono fuel fuel' c d in_ pos size res :
  loop fuel c d in_ pos size = Some res -> (fuel <= fuel')%nat ->
  loop fuel' c d in_ pos size = Some res.
Proof.
  revert fuel' c d pos.
  induction fuel as [|fuel IH]; intros fuel' c d pos H Hle; [discriminate|].
  destruct fuel' as [|fuel']; [lia|].
  simpl in *. destruct (loop_cond c pos size); [|exact H].
  destruct (iter c d in_ pos size) as [[[[|r] c'] d'] pos']; [|exact H].
  apply IH; [exact H | lia].
Qed.

Lemma decodes_det c d in_ pos size res res' :
  runs c d in_ pos size res -> runs c d in_ pos size res' -> res = res'.
Proof.
  intros [f Hf] [f' Hf'].
  apply loop_fuel_mono with (fuel' := Nat.max f f') in Hf; [|lia].
  apply loop_fuel_mono with (fuel' := Nat.max f f') in Hf'; [|lia].
  congruence.
Qed.

Lemma decodes_exit c d in_ pos size :
  loop_cond c pos size = false -> runs c d in_ pos size (LZMA_OK, c, d, pos).
Proof. intro H. exists 1%nat. simpl. now rewrite H. Qed.

Lemma decodes_return c d in_ pos size r c' d' pos' :
  loop_cond c pos size = true ->
  iter c d in_ pos size = (Return r, c', d', pos') ->
  runs c d in_ pos size (r, c', d', pos').
Proof. intros H Hi. exists 1%nat. simpl. now rewrite H, Hi. Qed.

Lemma decodes_break c d in_ pos size c' d' pos' res :
  loop_cond c pos size = true ->
  iter c d in_ pos size = (Break, c', d', pos') ->
  (runs c d in_ pos size res <-> runs c' d' in_ pos' size res).
Proof.
  intros H Hi. split; intros [f Hf].
  - destruct f as [|f]; [discriminate|].
    simpl in Hf. rewrite H, Hi in Hf. now exists f.
  - exists (S f). simpl. now rewrite H, Hi.
Qed.

Lemma decode_decodes c d in_ pos size res :
  decode c d in_ pos size = Some res -> runs c d in_ pos size res.
Proof. intro H. now exists (lzma2_fuel pos size). Qed.

Lemma decode_return c d in_ pos size r c' d' pos' :
  loop_cond c pos size = true ->
  iter c d in_ pos size = (Return r, c', d', pos') ->
  decode c d in_ pos size = Some (r, c', d', pos').
Proof.
  intros H Hi. unfold lzma2_decode, lzma2_fuel.
  replace (2 * (size - pos) + 2)%nat with (S (2 * (size - pos) + 1)) by lia.
  simpl. now rewrite H, Hi.
Qed.

Lemma decode_exit c d in_ pos size :
  loop_cond c pos size = false ->
  decode c d in_ pos size = Some (LZMA_OK, c, d, pos).
Proof.
  intros H. unfold lzma2_decode, lzma2_fuel.
  replace (2 * (size - pos) + 2)%nat with (S (2 * (size - pos) + 1)) by lia.
  simpl. now rewrite H.
Qed.

(** One pass, after which the loop condition fails. *)
Lemma decode_break_exit c d in_ pos size c' d' pos' :
  loop_cond c pos size = true ->
  iter c d in_ pos size = (Break, c', d', pos') ->
  loop_cond c' pos' size = false ->
  decode c d in_ pos size = Some (LZMA_OK, c', d', pos').
Proof.
  intros H Hi H'. unfold lzma2_decode, lzma2_fuel.
  replace (2 * (size - pos) + 2)%nat with (S (S (2 * (size - pos)))) by lia.
  cbn [lzma2_decode_loop]. now rewrite H, Hi, H'.
Qed.

Lemma dict_write_pos d in_ pos size n :
  (pos <= snd (fst (dict_write d in_ pos size n)) /\
   (pos <= size -> snd (fst (dict_write d in_ pos size n)) <= size))%nat.
Proof. unfold dict_write; simpl. lia. Qed.

Lemma iter_break_measure c d in_ pos size c' d' pos' :
  lz_advances L ->
  loop_cond c pos size = true ->
  iter c d in_ pos size = (Break, c', d', pos') ->
  (loop_measure c' pos' size < loop_measure c pos size)%nat.
Proof.
  intros Hadv Hc Hi. unfold loop_cond in Hc. unfold loop_measure.
  unfold lzma2_iter in Hi.
  destruct (sequence c) eqn:Hs; simpl in Hc;
    try (rewrite orb_false_r in Hc; apply Nat.ltb_lt in Hc).
  - (* SEQ_CONTROL *)
    unfold seq_control, control_lzma_case2, control_copy_case2 in Hi.
    repeat match type of Hi with
      | context [if ?b then _ else _] => destruct b
      | context [match ?x with _ => _ end] => destruct x
      end;
      try discriminate; inversion Hi; subst; simpl; try rewrite Hs; lia.
  - inversion Hi; subst; simpl. lia.
  - inversion Hi; subst; simpl. lia.
  - inversion Hi; subst; simpl. lia.
  - inversion Hi; subst; simpl. destruct (next_sequence c); lia.
  - destruct (lzma_lzma_lclppb_decode _ _) as [[|] o]; [discriminate|].
    inversion Hi; subst; simpl. lia.
  - (* SEQ_LZMA *)
    unfold seq_lzma in Hi. pose proof (Hadv (lzma c) d in_ pos size) as Ha.
    destruct (lz_code L (lzma c) d in_ pos size) as [[[r l] d1] p1].
    simpl in Ha.
    repeat match type of Hi with
      | context [if ?b then _ else _] => destruct b
      end; try discriminate.
    inversion Hi; subst; simpl. lia.
  - (* SEQ_COPY *)
    unfold seq_copy in Hi.
    pose proof (dict_write_pos d in_ pos size (compressed_size c)) as [Hp _].
    destruct (dict_write d in_ pos size (compressed_size c)) as [[d1 p1] l1].
    simpl in Hp.
    destruct (negb _); [discriminate|].
    inversion Hi; subst; simpl. lia.
Qed.

Lemma loop_total fuel c d in_ pos size :
  lz_advances L ->
  (loop_measure c pos size < fuel)%nat ->
  exists res, loop fuel c d in_ pos size = Some res.
Proof.
  intro Hadv. revert c d pos.
  induction fuel as [|fuel IH]; intros c d pos Hm; [lia|].
  simpl. destruct (loop_cond c pos size) eqn:Hc; [|eauto].
  destruct (iter c d in_ pos size) as [[[[|r] c'] d'] pos'] eqn:Hi; [|eauto].
  apply IH. pose proof (@iter_break_measure c d in_ pos size c' d' pos' Hadv Hc Hi). lia.
Qed.

(** [lzma2_decode] returns: its fuel is never used up. *)
Lemma lzma2_decode_total c d in_ pos size :
  lz_advances L -> exists res, decode c d in_ pos size = Some res.
Proof.
  intro Hadv. apply loop_total; [exact Hadv|].
  unfold loop_measure, lzma2_fuel. destruct (sequence c); lia.
Qed.

Lemma decodes_decode c d in_ pos size res :
  lz_advances L ->
  runs c d in_ pos size res -> decode c d in_ pos size = Some res.
Proof.
  intros Hadv Hr.
  destruct (lzma2_decode_total c d in_ pos size Hadv) as [res' H'].
  rewrite H'. f_equal.
  eapply decodes_det; [apply decode_decodes; exact H' | exact Hr].
Qed.

End LoopFacts.

(** ** The properties decoder *)

Lemma dict_size_fits (v : N) :
  (v < 40)%N ->
  (N.shiftl (N.lor 2 (N.land v 1)) (v / 2 + 11) < 2 ^ 32)%N.
Proof.
  intro H.
  assert (Hc : N.land v 1 = (v mod 2)%N) by (apply (N.land_ones v 1)).
  assert (Hs : (v / 2 + 11 <= 30)%N).
  { pose proof (N.Div0.div_lt_upper_bound v 2 20). lia. }
  assert (Hl : (N.lor 2 (N.land v 1) <= 3)%N).
  { rewrite Hc. pose proof (N.mod_upper_bound v 2).
    destruct (v mod 2)%N as [|[| |]] eqn:E; simpl; lia. }
  rewrite N.shiftl_mul_pow2.
  apply N.le_lt_trans with (3 * 2 ^ 30)%N; [|reflexivity].
  apply N.mul_le_mono; [exact Hl|]. apply N.pow_le_mono_r; lia.
Qed.

(** C4.  Properties decoder: a payload whose length is not one byte gives
    [LZMA_OPTIONS_ERROR]; for a one-byte payload [b] the result is
    [LZMA_OPTIONS_ERROR] exactly when [b & 0xC0] is non-zero or [b > 40];
    [b = 40] gives the largest [uint32_t]; [b < 40] gives
    [(2 | (b & 1)) << (b / 2 + 11)] without overflow (4096 for [b = 0]);
    the options carry no preset dictionary. *)
Theorem lzma2_props_decode_correct :
  (forall alloc props props_size,
      props_size <> 1%nat ->
      lzma_lzma2_props_decode alloc props props_size
      = (LZMA_OPTIONS_ERROR, None)) /\
  (forall alloc b,
      fst (lzma_lzma2_props_decode alloc [b] 1) = LZMA_OPTIONS_ERROR
      <-> (N.land (byte_val b) 0xC0 <> 0 \/ 40 < byte_val b)%N) /\
  (forall opt b,
      byte_val b = 40%N ->
      exists o,
        lzma_lzma2_props_decode (Some opt) [b] 1 = (LZMA_OK, Some o) /\
        dictionary_size o = (2 ^ 32 - 1)%N /\
        preset_dictionary o = None /\ preset_dictionary_size o = 0%N) /\
  (forall opt b,
      (byte_val b < 40)%N ->
      exists o,
        lzma_lzma2_props_decode (Some opt) [b] 1 = (LZMA_OK, Some o) /\
        dictionary_size o
        = N.shiftl (N.lor 2 (N.land (byte_val b) 1)) (byte_val b / 2 + 11) /\
        (byte_val b = 0%N -> dictionary_size o = 4096%N) /\
        preset_dictionary o = None /\ preset_dictionary_size o = 0%N).
Proof.
  split; [|split; [|split]].
  - intros alloc props props_size H. unfold lzma_lzma2_props_decode.
    destruct (Nat.eqb_spec props_size 1); [contradiction|reflexivity].
  - intros alloc b. unfold lzma_lzma2_props_decode, in_at. simpl.
    destruct (N.eqb_spec (N.land (byte_val b) 192) 0) as [E | E]; simpl.
    + destruct (N.ltb_spec 40 (byte_val b)) as [G | G]; simpl.
      * split; [intros _; now right | reflexivity].
      * split.
        -- destruct alloc; simpl; discriminate.
        -- intros [H | H]; [contradiction | lia].
    + split; [intros _; now left | reflexivity].
  - intros opt b Hb. unfold lzma_lzma2_props_decode, in_at. simpl.
    rewrite Hb. simpl. eexists. repeat split.
  - intros opt b Hb. unfold lzma_lzma2_props_decode, in_at.
    change (nth 0 [b] x00) with b.
    change (negb (1 =? 1)%nat) with false. cbv iota.
    assert (E : N.land (byte_val b) 192 = 0%N).
    { rewrite (N.land_comm). pose proof (byte_val_bound b).
      apply N.bits_inj. intro i. rewrite N.land_spec, N.bits_0.
      destruct (N.lt_ge_cases i 6) as [Hi | Hi].
      - assert (Hi' : (i = 0 \/ i = 1 \/ i = 2 \/ i = 3 \/ i = 4 \/ i = 5)%N)
          by lia.
        destruct Hi' as [-> | [-> | [-> | [-> | [-> | ->]]]]]; reflexivity.
      - destruct (N.eq_dec (byte_val b) 0) as [-> | Hne].
        + now rewrite N.bits_0, andb_false_r.
        + rewrite (N.bits_above_log2 (byte_val b) i), andb_false_r;
            [reflexivity|].
          apply N.lt_le_trans with 6%N; [|exact Hi].
          apply N.log2_lt_pow2; [lia|]. change (2 ^ 6)%N with 64%N. lia. }
    rewrite E. change (negb (0 =? 0)%N) with false. cbv iota.
    destruct (N.ltb_spec 40 (byte_val b)) as [G | G]; [lia|].
    destruct (N.eqb_spec (byte_val b) 40) as [G' | G']; [lia|].
    eexists. split; [reflexivity|].
    cbn [dictionary_size preset_dictionary preset_dictionary_size].
    rewrite (u32_small (dict_size_fits Hb)).
    repeat split. intro Hz. rewrite Hz. reflexivity.
Qed.

(** Witness for C4, at the payloads [[0x00]], [[0x28]], [[0xC1]] and the
    empty payload. *)
Lemma lzma2_props_decode_correct_witness :
  lzma_lzma2_props_decode (Some sample_options) [] 0
  = (LZMA_OPTIONS_ERROR, None) /\
  fst (lzma_lzma2_props_decode (Some sample_options) [xc1] 1)
  = LZMA_OPTIONS_ERROR /\
  (exists o,
      lzma_lzma2_props_decode (Some sample_options) [x28] 1
      = (LZMA_OK, Some o) /\ dictionary_size o = 4294967295%N) /\
  (exists o,
      lzma_lzma2_props_decode (Some sample_options) [x00] 1
      = (LZMA_OK, Some o) /\ dictionary_size o = 4096%N).
Proof.
  destruct lzma2_props_decode_correct as [H1 [H2 [H3 H4]]].
  split; [|split; [|split]].
  - apply H1. discriminate.
  - apply H2. left. vm_compute. discriminate.
  - destruct (H3 sample_options x28 eq_refl) as [o [Ho [Hd _]]].
    exists o. split; [exact Ho | exact Hd].
  - destruct (H4 sample_options x00 eq_refl) as [o [Ho [_ [Hd _]]]].
    exists o. split; [exact Ho | exact (Hd eq_refl)].
Defined.

(** ** The control byte *)

Lemma control_high_bits (b : N) :
  u32 (N.shiftl (N.land b 0x1F) 16) = (N.land b 0x1F * 65536)%N /\
  (N.land b 0x1F < 32)%N.
Proof.
  assert (H : (N.land b 0x1F < 32)%N).
  { change 0x1F%N with (N.ones 5). rewrite N.land_ones.
    apply N.mod_upper_bound. discriminate. }
  split; [|exact H].
  rewrite u32_small; rewrite N.shiftl_mul_pow2;
    change (2 ^ 16)%N with 65536%N; [reflexivity|].
  change (2 ^ 32)%N with 4294967296%N. lia.
Qed.

Section ControlPhase.
Variable lz : Type.
Variable L : lzma_lz_decoder lz.
Variable dict_reset : lzma_dict -> lzma_dict.
Variable lzma_lzma_lclppb_decode :
  lzma_options_lzma -> N -> bool * lzma_options_lzma.

Abbreviation iter := (lzma2_iter L dict_reset lzma_lzma_lclppb_decode).
Abbreviation decode := (lzma2_decode L dict_reset lzma_lzma_lclppb_decode).
Abbreviation control := (seq_control L dict_reset).

Implicit Types (c : lzma_coder lz) (d : lzma_dict).

Lemma loop_cond_input c pos size :
  (pos < size)%nat -> loop_cond c pos size = true.
Proof.
  intro H. unfold loop_cond. apply Nat.ltb_lt in H. now rewrite H.
Qed.

(** The control byte is looked at through its value only. *)
Lemma seq_control_byte c d in_ pos in2 pos2 :
  in_at in_ pos = in_at in2 pos2 ->
  control c d in2 pos2
  = (let '(f, c', d', _) := control c d in_ pos in (f, c', d', S pos2)).
Proof.
  intro H. unfold seq_control, control_lzma_case2, control_copy_case2.
  rewrite <- H.
  repeat match goal with
    | |- context [if ?b then _ else _] => destruct b
    | |- context [match ?x with _ => _ end] => destruct x
    end; reflexivity.
Qed.

(** C5.  Dictionary-reset ordering.  In the state that
    [lzma2_decoder_init] sets up, a first control byte 0x02, or one with
    bit 0x80 set and reset level 2, makes [lzma2_decode] return
    [LZMA_DATA_ERROR]; a first control byte 0x01, or one with bit 0x80 set
    and reset level 3, passes the [need_dictionary_reset] check: the pass
    resets the dictionary, clears the flag and goes on to the size
    fields. *)
Theorem first_chunk_dictionary_reset_order c0 d in_ pos size :
  (pos < size)%nat ->
  let b := in_at in_ pos in
  let c := lzma2_decoder_init c0 in
  ((b = 2 \/ (N.land b 0x80 <> 0 /\ N.land (N.shiftr b 5) 3 = 2))%N ->
   exists c', decode c d in_ pos size = Some (LZMA_DATA_ERROR, c', d, S pos) /\
              need_dictionary_reset c' = true) /\
  ((b = 1 \/ (N.land b 0x80 <> 0 /\ N.land (N.shiftr b 5) 3 = 3))%N ->
   exists c', iter c d in_ pos size = (Break, c', dict_reset d, S pos) /\
              need_dictionary_reset c' = false /\
              sequence c'
              = (if (b =? 1)%N then SEQ_COMPRESSED_0 else SEQ_UNCOMPRESSED_1)).
Proof.
  intros Hpos b c. split.
  - intros Hb.
    assert (Hi : exists c',
               iter c d in_ pos size = (Return LZMA_DATA_ERROR, c', d, S pos)
               /\ need_dictionary_reset c' = true).
    { unfold lzma2_iter. cbn [lzma2_decoder_init sequence set_sequence
        set_need_properties set_need_dictionary_reset c].
      unfold seq_control. fold b.
      destruct Hb as [Hb | [H1 H2]].
      - rewrite Hb. eexists. split; reflexivity.
      - destruct (N.eqb_spec (N.land b 128) 0) as [E | E]; [contradiction|].
        cbn [negb]. rewrite H2. eexists. split; reflexivity. }
    destruct Hi as [c' [Hi Hn]]. exists c'. split; [|exact Hn].
    apply decode_return; [now apply loop_cond_input | exact Hi].
  - intros Hb. unfold lzma2_iter.
    cbn [lzma2_decoder_init sequence set_sequence
      set_need_properties set_need_dictionary_reset c].
    unfold seq_control. fold b.
    destruct Hb as [Hb | [H1 H2]].
    + rewrite Hb. eexists. split; [reflexivity|]. split; reflexivity.
    + destruct (N.eqb_spec (N.land b 128) 0) as [E | E]; [contradiction|].
      cbn [negb]. rewrite H2. eexists. split; [reflexivity|].
      split; [reflexivity|].
      destruct (N.eqb_spec b 1) as [E1 | E1]; [|reflexivity].
      rewrite E1 in E. now vm_compute in E.
Qed.

(** C6.  Properties ordering.  While [need_properties] is set, a compressed
    chunk (bit 0x80) of reset level 0 or 1 makes [lzma2_decode] return
    [LZMA_DATA_ERROR]. *)
Theorem lzma_chunk_needs_properties c d in_ pos size :
  sequence c = SEQ_CONTROL ->
  need_properties c = true ->
  (pos < size)%nat ->
  let b := in_at in_ pos in
  (N.land b 0x80 <> 0)%N ->
  (N.land (N.shiftr b 5) 3 = 0 \/ N.land (N.shiftr b 5) 3 = 1)%N ->
  exists c',
    decode c d in_ pos size = Some (LZMA_DATA_ERROR, c', d, S pos) /\
    need_properties c' = true.
Proof.
  intros Hs Hn Hpos b H1 H2. eexists. split.
  - apply decode_return; [now apply loop_cond_input|].
    unfold lzma2_iter. rewrite Hs. unfold seq_control. fold b.
    destruct (N.eqb_spec (N.land b 128) 0) as [E | E]; [contradiction|].
    cbn [negb].
    destruct H2 as [-> | ->];
      cbn [need_properties set_sequence set_uncompressed_size];
      rewrite Hn; reflexivity.
  - exact Hn.
Qed.

(** C9.  The end marker is not latched.  Reading control byte 0x00 returns
    [LZMA_STREAM_END] with [*in_pos] moved past the byte and the coder and
    the dictionary exactly as they were ([sequence] still [SEQ_CONTROL]);
    a later call starts with a control byte again: on a byte 0x01, say, it
    resets the dictionary, starts an uncompressed chunk and returns
    [LZMA_OK]. *)
Theorem stream_end_not_latched c d in_ pos size :
  sequence c = SEQ_CONTROL ->
  (pos < size)%nat ->
  in_at in_ pos = 0%N ->
  decode c d in_ pos size = Some (LZMA_STREAM_END, c, d, S pos) /\
  (forall d2 in2 pos2 size2,
      iter c d2 in2 pos2 size2 = control c d2 in2 pos2) /\
  (forall d2 in2 pos2,
      in_at in2 pos2 = 1%N ->
      decode c d2 in2 pos2 (S pos2)
      = Some (LZMA_OK,
              set_next_sequence SEQ_COPY
                (set_sequence SEQ_COMPRESSED_0
                   (set_need_dictionary_reset false c)),
              dict_reset d2, S pos2)).
Proof.
  intros Hs Hpos Hb. split; [|split].
  - apply decode_return; [now apply loop_cond_input|].
    unfold lzma2_iter. rewrite Hs. unfold seq_control. rewrite Hb.
    reflexivity.
  - intros. unfold lzma2_iter. now rewrite Hs.
  - intros d2 in2 pos2 Hb2. apply decode_break_exit.
    + apply loop_cond_input. lia.
    + unfold lzma2_iter. rewrite Hs. unfold seq_control. rewrite Hb2.
      reflexivity.
    + unfold loop_cond. rewrite Nat.ltb_irrefl. reflexivity.
Qed.

(** C10.  Errors of the control-byte phase are not atomic.  When the pass
    over a control byte returns [LZMA_DATA_ERROR], [*in_pos] has moved past
    the byte, the dictionary is untouched, and the coder keeps every
    assignment made before the failing check: for a compressed chunk
    [uncompressed_size] holds the high size bits and [sequence] is
    [SEQ_UNCOMPRESSED_1] (not the [SEQ_CONTROL] of before the call); the
    two flags have the value they had before the call; nothing is rolled
    back.  [lzma2_decode] returns just that. *)
Theorem control_error_not_atomic c d in_ pos size c' d' pos' :
  sequence c = SEQ_CONTROL ->
  (pos < size)%nat ->
  iter c d in_ pos size = (Return LZMA_DATA_ERROR, c', d', pos') ->
  let b := in_at in_ pos in
  pos' = S pos /\ d' = d /\
  c' = (if (N.land b 0x80 =? 0)%N then c
        else set_sequence SEQ_UNCOMPRESSED_1
               (set_uncompressed_size (N.land b 0x1F * 65536)%N c)) /\
  ((N.land b 0x80 <> 0)%N -> sequence c' <> sequence c) /\
  need_dictionary_reset c' = need_dictionary_reset c /\
  need_properties c' = need_properties c /\
  decode c d in_ pos size = Some (LZMA_DATA_ERROR, c', d', pos').
Proof.
  intros Hs Hpos Hi b.
  assert (Hd : decode c d in_ pos size = Some (LZMA_DATA_ERROR, c', d', pos'))
    by (apply decode_return; [now apply loop_cond_input | exact Hi]).
  unfold lzma2_iter in Hi. rewrite Hs in Hi. unfold seq_control in Hi.
  fold b in Hi. destruct (control_high_bits b) as [Hu _].
  rewrite Hu in Hi.
  destruct (N.eqb_spec (N.land b 128) 0) as [E | E]; cbn [negb] in Hi.
  - unfold control_copy_case2 in Hi.
    repeat match type of Hi with
      | context [if ?x then _ else _] => destruct x eqn:?
      | context [match ?x with _ => _ end] => destruct x eqn:?
      end;
      try discriminate; inversion Hi; subst;
      repeat split; cbn; try congruence; try contradiction; exact Hd.
  - unfold control_lzma_case2 in Hi.
    repeat match type of Hi with
      | context [if ?x then _ else _] => destruct x eqn:?
      | context [match ?x with _ => _ end] => destruct x eqn:?
      end;
      try discriminate; inversion Hi; subst;
      repeat split; cbn; try congruence; try exact Hd;
      intros _; rewrite Hs; discriminate.
Qed.

End ControlPhase.

(** Witness for C5: the one-byte streams [[0x02]], [[0xC0]] (reset level 2),
    [[0x01]] and [[0xE0]] (reset level 3) in the initial state. *)
Lemma first_chunk_dictionary_reset_order_witness :
  (exists c', sample_decode sample_coder sample_dict [x02] 0 1
              = Some (LZMA_DATA_ERROR, c', sample_dict, 1%nat) /\
              need_dictionary_reset c' = true) /\
  (exists c', sample_decode sample_coder sample_dict [xc0] 0 1
              = Some (LZMA_DATA_ERROR, c', sample_dict, 1%nat) /\
              need_dictionary_reset c' = true) /\
  (exists c', sample_iter sample_coder sample_dict [x01] 0 1
              = (Break, c', clearing_dict_reset sample_dict, 1%nat) /\
              need_dictionary_reset c' = false /\
              sequence c' = SEQ_COMPRESSED_0) /\
  (exists c', sample_iter sample_coder sample_dict [xe0] 0 1
              = (Break, c', clearing_dict_reset sample_dict, 1%nat) /\
              need_dictionary_reset c' = false /\
              sequence c' = SEQ_UNCOMPRESSED_1).
Proof.
  pose (c0 := mk_coder SEQ_COPY SEQ_COPY 0%N 0%N 0%N false false
                sample_options).
  pose (thm := fun in_ =>
    @first_chunk_dictionary_reset_order N stored_decoder clearing_dict_reset
      sample_lclppb_decode c0 sample_dict in_ 0 1 (Nat.lt_0_succ 0)).
  split; [|split; [|split]].
  - apply (proj1 (thm [x02])). left. reflexivity.
  - apply (proj1 (thm [xc0])). right. split; [discriminate | reflexivity].
  - apply (proj2 (thm [x01])). left. reflexivity.
  - apply (proj2 (thm [xe0])). right. split; [discriminate | reflexivity].
Defined.

(** Witness for C6: the streams [[0x80]] (reset level 0) and [[0xA0]]
    (reset level 1) before any properties byte. *)
Lemma lzma_chunk_needs_properties_witness :
  (exists c', sample_decode sample_coder sample_dict [x80] 0 1
              = Some (LZMA_DATA_ERROR, c', sample_dict, 1%nat) /\
              need_properties c' = true) /\
  (exists c', sample_decode sample_coder sample_dict [xa0] 0 1
              = Some (LZMA_DATA_ERROR, c', sample_dict, 1%nat) /\
              need_properties c' = true).
Proof.
  pose (thm := fun in_ =>
    @lzma_chunk_needs_properties N stored_decoder clearing_dict_reset
      sample_lclppb_decode sample_coder sample_dict in_ 0 1
      eq_refl eq_refl (Nat.lt_0_succ 0)).
  split.
  - apply (thm [x80]); [discriminate | left; reflexivity].
  - apply (thm [xa0]); [discriminate | right; reflexivity].
Defined.

(** Witness for C9: the stream [[0x00; 0x01]], the second byte handed over
    in a second call. *)
Lemma stream_end_not_latched_witness :
  sample_decode sample_coder sample_dict [x00; x01] 0 2
  = Some (LZMA_STREAM_END, sample_coder, sample_dict, 1%nat) /\
  sample_decode sample_coder sample_dict [x00; x01] 1 2
  = Some (LZMA_OK,
          set_next_sequence SEQ_COPY
            (set_sequence SEQ_COMPRESSED_0
               (set_need_dictionary_reset false sample_coder)),
          clearing_dict_reset sample_dict, 2%nat).
Proof.
  pose proof (@stream_end_not_latched N stored_decoder clearing_dict_reset
                sample_lclppb_decode sample_coder sample_dict [x00; x01] 0 2
                eq_refl (Nat.lt_0_2) eq_refl) as [H1 [_ H3]].
  split; [exact H1|].
  apply (H3 sample_dict [x00; x01] 1%nat). reflexivity.
Defined.

(** Witness for C10: the stream [[0x9F]] (compressed chunk, reset level 0,
    high size bits 0x1F) in the initial state. *)
Lemma control_error_not_atomic_witness :
  let c' := set_sequence SEQ_UNCOMPRESSED_1
              (set_uncompressed_size 2031616%N sample_coder) in
  sample_iter sample_coder sample_dict [x9f] 0 1
  = (Return LZMA_DATA_ERROR, c', sample_dict, 1%nat) /\
  sequence c' <> sequence sample_coder /\
  sample_decode sample_coder sample_dict [x9f] 0 1
  = Some (LZMA_DATA_ERROR, c', sample_dict, 1%nat).
Proof.
  intro c'.
  assert (Hi : sample_iter sample_coder sample_dict [x9f] 0 1
               = (Return LZMA_DATA_ERROR, c', sample_dict, 1%nat))
    by reflexivity.
  pose proof (@control_error_not_atomic N stored_decoder clearing_dict_reset
                sample_lclppb_decode sample_coder sample_dict [x9f] 0 1
                c' sample_dict 1%nat eq_refl (Nat.lt_0_succ 0) Hi)
    as [_ [_ [_ [H4 [_ [_ H7]]]]]].
  split; [exact Hi|]. split; [|exact H7].
  apply H4. discriminate.
Defined.

(** ** Chunk bodies: [SEQ_LZMA] and [SEQ_COPY] *)

Section ChunkBody.
Variable lz : Type.
Variable L : lzma_lz_decoder lz.
Variable dict_reset : lzma_dict -> lzma_dict.
Variable lzma_lzma_lclppb_decode :
  lzma_options_lzma -> N -> bool * lzma_options_lzma.

Abbreviation iter := (lzma2_iter L dict_reset lzma_lzma_lclppb_decode).
Abbreviation decode := (lzma2_decode L dict_reset lzma_lzma_lclppb_decode).

Implicit Types (c : lzma_coder lz) (d : lzma_dict).

Lemma loop_cond_lzma c pos size :
  sequence c = SEQ_LZMA -> loop_cond c pos size = true.
Proof. intro H. unfold loop_cond. rewrite H. apply orb_true_r. Qed.

(** What a [SEQ_COPY] pass does, in terms of the number of bytes moved. *)
Lemma seq_copy_spec c d in_ pos size :
  let n := Nat.min (size - pos)
             (Nat.min (N.to_nat (compressed_size c))
                (dict_limit d - dict_pos d)) in
  let left_ := (compressed_size c - N.of_nat n)%N in
  seq_copy c d in_ pos size
  = (if (left_ =? 0)%N then Break else Return LZMA_OK,
     (if (left_ =? 0)%N
      then set_sequence SEQ_CONTROL (set_compressed_size left_ c)
      else set_compressed_size left_ c),
     mk_dict (dict_buf d ++ firstn n (skipn pos in_)) (dict_limit d),
     (pos + n)%nat).
Proof.
  intros n left_. unfold seq_copy, dict_write. fold n. fold left_.
  cbn [compressed_size set_compressed_size].
  destruct (left_ =? 0)%N; reflexivity.
Qed.

(** C8.  Raw copy is bounded.  A [SEQ_COPY] pass moves [pos' - pos] bytes
    of the input into the dictionary: no more than the input has left, no
    more than [compressed_size], and no more than the room in the
    dictionary; [compressed_size] goes down by exactly that number; while
    it is non-zero the call returns [LZMA_OK] with [sequence] still
    [SEQ_COPY], and [sequence] becomes [SEQ_CONTROL] exactly when it is
    zero. *)
Theorem raw_copy_bounded c d in_ pos size f c' d' pos' :
  sequence c = SEQ_COPY ->
  (pos < size <= length in_)%nat ->
  iter c d in_ pos size = (f, c', d', pos') ->
  let copied := (pos' - pos)%nat in
  (pos <= pos')%nat /\
  dict_buf d' = dict_buf d ++ firstn copied (skipn pos in_) /\
  length (dict_buf d') = (length (dict_buf d) + copied)%nat /\
  (copied <= size - pos)%nat /\
  (N.of_nat copied <= compressed_size c)%N /\
  (copied <= dict_limit d - dict_pos d)%nat /\
  compressed_size c' = (compressed_size c - N.of_nat copied)%N /\
  (compressed_size c' <> 0%N ->
   f = Return LZMA_OK /\ sequence c' = SEQ_COPY /\
   decode c d in_ pos size = Some (LZMA_OK, c', d', pos')) /\
  (compressed_size c' = 0%N -> f = Break) /\
  (sequence c' = SEQ_CONTROL <-> compressed_size c' = 0%N).
Proof.
  intros Hs Hpos Hi copied.
  assert (Hd : forall r, f = Return r ->
               decode c d in_ pos size = Some (r, c', d', pos')).
  { intros r ->. apply decode_return; [|exact Hi].
    unfold loop_cond. destruct (Nat.ltb_spec pos size); [reflexivity|lia]. }
  unfold lzma2_iter in Hi. rewrite Hs, seq_copy_spec in Hi.
  set (n := Nat.min (size - pos)
              (Nat.min (N.to_nat (compressed_size c))
                 (dict_limit d - dict_pos d))) in *.
  assert (Hc : copied = n).
  { unfold copied.
    destruct (_ =? 0)%N; inversion Hi; subst; lia. }
  assert (Hn : (n <= size - pos /\ n <= N.to_nat (compressed_size c) /\
                n <= dict_limit d - dict_pos d)%nat) by (unfold n; lia).
  rewrite Hc. clearbody n. clear Hc copied.
  assert (Hlen : length (firstn n (skipn pos in_)) = n).
  { rewrite length_firstn, length_skipn. lia. }
  destruct (N.eqb_spec (compressed_size c - N.of_nat n) 0) as [E | E];
    inversion Hi; subst; cbn [dict_buf compressed_size sequence
      set_sequence set_compressed_size];
    rewrite ?length_app, ?Hlen;
    (repeat split; try reflexivity; try lia; try congruence).
  now apply Hd.
Qed.

(** C2.  Compressed-byte accounting.  A [SEQ_LZMA] pass that used more
    input than [compressed_size] returns [LZMA_DATA_ERROR]; otherwise
    [compressed_size] goes down by exactly the input used, any result of
    the LZMA decoder other than [LZMA_STREAM_END] is returned unchanged,
    and at [LZMA_STREAM_END] a non-zero remainder is [LZMA_DATA_ERROR]
    while a zero remainder leads back to [SEQ_CONTROL].  A [SEQ_COPY] pass
    subtracts the bytes it copied.  In both, [compressed_size] never grows
    and [SEQ_CONTROL] is entered with [compressed_size = 0] only. *)
Theorem compressed_size_accounting c d in_ pos size f c' d' pos' :
  iter c d in_ pos size = (f, c', d', pos') ->
  (sequence c = SEQ_LZMA ->
   let '(ret, l, d1, p1) := lz_code L (lzma c) d in_ pos size in
   let in_used := size_sub (N.of_nat p1) (N.of_nat pos) in
   d' = d1 /\ pos' = p1 /\ lzma c' = l /\
   ((pos <= p1)%nat -> (N.of_nat p1 < SIZE_MOD)%N ->
    in_used = N.of_nat (p1 - pos)) /\
   ((compressed_size c < in_used)%N ->
    f = Return LZMA_DATA_ERROR /\
    decode c d in_ pos size = Some (LZMA_DATA_ERROR, c', d', pos')) /\
   ((in_used <= compressed_size c)%N ->
    compressed_size c' = (compressed_size c - in_used)%N /\
    (ret <> LZMA_STREAM_END ->
     f = Return ret /\ sequence c' = SEQ_LZMA /\
     decode c d in_ pos size = Some (ret, c', d', pos')) /\
    (ret = LZMA_STREAM_END -> compressed_size c' <> 0%N ->
     f = Return LZMA_DATA_ERROR /\
     decode c d in_ pos size = Some (LZMA_DATA_ERROR, c', d', pos')) /\
    (ret = LZMA_STREAM_END -> compressed_size c' = 0%N ->
     f = Break /\ sequence c' = SEQ_CONTROL))) /\
  (sequence c = SEQ_COPY ->
   compressed_size c' = (compressed_size c - N.of_nat (pos' - pos))%N /\
   (N.of_nat (pos' - pos) <= compressed_size c)%N) /\
  (sequence c = SEQ_LZMA \/ sequence c = SEQ_COPY ->
   (compressed_size c' <= compressed_size c)%N /\
   (sequence c' = SEQ_CONTROL -> compressed_size c' = 0%N)).
Proof.
  intro Hi.
  assert (Hcopy : sequence c = SEQ_COPY ->
    compressed_size c' = (compressed_size c - N.of_nat (pos' - pos))%N /\
    (N.of_nat (pos' - pos) <= compressed_size c)%N /\
    (sequence c' = SEQ_CONTROL -> compressed_size c' = 0%N)).
  { intro Hs. unfold lzma2_iter in Hi. rewrite Hs, seq_copy_spec in Hi.
    set (n := Nat.min _ _) in *.
    assert (Hn : (N.of_nat n <= compressed_size c)%N) by (unfold n; lia).
    replace (pos' - pos)%nat with n
      by (destruct (_ =? 0)%N; inversion Hi; subst; lia).
    destruct (N.eqb_spec (compressed_size c - N.of_nat n) 0) as [E | E];
      inversion Hi; subst; cbn; repeat split; try lia.
    rewrite Hs. discriminate. }
  assert (Hlzma : sequence c = SEQ_LZMA ->
   let '(ret, l, d1, p1) := lz_code L (lzma c) d in_ pos size in
   let in_used := size_sub (N.of_nat p1) (N.of_nat pos) in
   d' = d1 /\ pos' = p1 /\ lzma c' = l /\
   ((compressed_size c < in_used)%N ->
    f = Return LZMA_DATA_ERROR /\ compressed_size c' = compressed_size c) /\
   ((in_used <= compressed_size c)%N ->
    compressed_size c' = (compressed_size c - in_used)%N /\
    (ret <> LZMA_STREAM_END -> f = Return ret /\ sequence c' = SEQ_LZMA) /\
    (ret = LZMA_STREAM_END -> compressed_size c' <> 0%N ->
     f = Return LZMA_DATA_ERROR) /\
    (ret = LZMA_STREAM_END -> compressed_size c' = 0%N ->
     f = Break /\ sequence c' = SEQ_CONTROL)) /\
   (sequence c' = SEQ_CONTROL -> compressed_size c' = 0%N)).
  { intro Hs. unfold lzma2_iter in Hi. rewrite Hs in Hi.
    unfold seq_lzma in Hi.
    destruct (lz_code L (lzma c) d in_ pos size) as [[[ret l] d1] p1].
    cbn [compressed_size set_lzma set_compressed_size] in Hi.
    intro in_used. fold in_used in Hi.
    destruct (N.ltb_spec (compressed_size c) in_used) as [G | G].
    - inversion Hi; subst; cbn.
      repeat split; try lia; try (rewrite Hs; discriminate).
    - destruct (lzma_ret_eqb ret LZMA_STREAM_END) eqn:Er; cbn [negb] in Hi.
      + apply lzma_ret_eqb_eq in Er.
        destruct (N.eqb_spec (compressed_size c - in_used) 0) as [E | E];
          cbn [negb] in Hi; inversion Hi; subst; cbn;
          repeat split; try lia; try congruence;
          try (rewrite Hs; discriminate).
      + apply lzma_ret_eqb_neq in Er.
        inversion Hi; subst; cbn; repeat split; try lia; try congruence;
          try (rewrite Hs; discriminate). }
  assert (Hd : sequence c = SEQ_LZMA -> forall r, f = Return r ->
               decode c d in_ pos size = Some (r, c', d', pos')).
  { intros Hs r ->. apply decode_return; [|exact Hi].
    now apply loop_cond_lzma. }
  split; [|split].
  - intro Hs. specialize (Hlzma Hs). specialize (Hd Hs).
    destruct (lz_code L (lzma c) d in_ pos size) as [[[ret l] d1] p1].
    cbv zeta in *.
    destruct Hlzma as (H1 & H2 & H3 & H4 & H5 & _).
    split; [exact H1|]. split; [exact H2|]. split; [exact H3|].
    split; [intros; now apply size_sub_nat|]. split.
    + intro G. destruct (H4 G) as [Hf _]. split; [exact Hf | now apply Hd].
    + intro G. destruct (H5 G) as (Ha & Hb & Hc & Hz).
      split; [exact Ha|]. split; [|split].
      * intro Hr. destruct (Hb Hr) as [Hf Hq].
        repeat split; try assumption. now apply Hd.
      * intros Hr Hnz. pose proof (Hc Hr Hnz) as Hf.
        split; [exact Hf | now apply Hd].
      * exact Hz.
  - intro Hs. destruct (Hcopy Hs) as (H1 & H2 & _). now split.
  - intros [Hs | Hs].
    + specialize (Hlzma Hs).
      destruct (lz_code L (lzma c) d in_ pos size) as [[[ret l] d1] p1].
      cbv zeta in *.
      destruct Hlzma as (_ & _ & _ & H4 & H5 & H6).
      split; [|exact H6].
      destruct (N.ltb_spec (compressed_size c)
                  (size_sub (N.of_nat p1) (N.of_nat pos))) as [G | G].
      * destruct (H4 G) as [_ ->]. lia.
      * destruct (H5 G) as [-> _]. lia.
    + destruct (Hcopy Hs) as (H1 & H2 & H3). split; [lia | exact H3].
Qed.

End ChunkBody.

(** Witness for C8: an uncompressed chunk with three bytes left and the
    two input bytes "ab"; the pass copies both and one byte is left. *)
Lemma raw_copy_bounded_witness :
  let c := set_compressed_size 3%N (set_sequence SEQ_COPY sample_coder) in
  let c' := set_compressed_size 1%N c in
  let d' := mk_dict ["a"%byte; "b"%byte] 4096 in
  sample_iter c sample_dict ["a"%byte; "b"%byte] 0 2
  = (Return LZMA_OK, c', d', 2%nat) /\
  (N.of_nat (2 - 0) <= compressed_size c)%N /\
  compressed_size c' = (compressed_size c - N.of_nat (2 - 0))%N /\
  sample_decode c sample_dict ["a"%byte; "b"%byte] 0 2
  = Some (LZMA_OK, c', d', 2%nat).
Proof.
  intros c c' d'.
  assert (Hi : sample_iter c sample_dict ["a"%byte; "b"%byte] 0 2
               = (Return LZMA_OK, c', d', 2%nat)) by reflexivity.
  assert (Hpos : (0 < 2 <= length ["a"%byte; "b"%byte])%nat)
    by (split; [apply Nat.lt_0_2 | apply Nat.le_refl]).
  pose proof (@raw_copy_bounded N stored_decoder clearing_dict_reset
                sample_lclppb_decode c sample_dict ["a"%byte; "b"%byte] 0 2
                (Return LZMA_OK) c' d' 2%nat eq_refl Hpos Hi)
    as (_ & _ & _ & _ & H5 & _ & H7 & H8 & _).
  split; [exact Hi|]. split; [exact H5|]. split; [exact H7|].
  apply H8. discriminate.
Defined.

(** Witness for C2: the stand-in decoder wants two more bytes while the
    chunk has one compressed byte left, so the pass uses more input than
    declared. *)
Lemma compressed_size_accounting_witness :
  let c := set_lzma 2%N
             (set_compressed_size 1%N (set_sequence SEQ_LZMA sample_coder)) in
  let c' := set_lzma 0%N c in
  let d' := mk_dict ["a"%byte; "b"%byte] 4096 in
  sample_iter c sample_dict ["a"%byte; "b"%byte] 0 2
  = (Return LZMA_DATA_ERROR, c', d', 2%nat) /\
  sample_decode c sample_dict ["a"%byte; "b"%byte] 0 2
  = Some (LZMA_DATA_ERROR, c', d', 2%nat) /\
  (compressed_size c' <= compressed_size c)%N.
Proof.
  intros c c' d'.
  assert (Hi : sample_iter c sample_dict ["a"%byte; "b"%byte] 0 2
               = (Return LZMA_DATA_ERROR, c', d', 2%nat)) by reflexivity.
  pose proof (@compressed_size_accounting N stored_decoder
                clearing_dict_reset sample_lclppb_decode c sample_dict
                ["a"%byte; "b"%byte] 0 2 _ c' d' 2%nat Hi)
    as (H1 & _ & H3).
  specialize (H1 eq_refl).
  assert (Hc : lz_code stored_decoder (lzma c) sample_dict
                 ["a"%byte; "b"%byte] 0 2
               = (LZMA_STREAM_END, 0%N, d', 2%nat)) by reflexivity.
  rewrite Hc in H1. cbv zeta in H1.
  destruct H1 as (_ & _ & _ & _ & H5 & _).
  split; [exact Hi|]. split.
  - apply H5. reflexivity.
  - apply H3. left. reflexivity.
Defined.

(** ** The size fields *)

Lemma chunk_uncompressed_size_sum (cb b1 b2 : N) :
  (b1 < 256)%N -> (b2 < 256)%N ->
  chunk_uncompressed_size cb b1 b2
  = (N.land cb 0x1F * 65536 + b1 * 256 + b2 + 1)%N.
Proof.
  intros H1 H2. unfold chunk_uncompressed_size.
  rewrite (N.shiftl_mul_pow2 b1 8).
  rewrite lor_shiftl_add
    by (change (2 ^ 16)%N with 65536%N; change (2 ^ 8)%N with 256%N; lia).
  change (2 ^ 16)%N with 65536%N; change (2 ^ 8)%N with 256%N.
  replace (N.land cb 31 * 65536 + b1 * 256)%N
    with (N.shiftl (N.land cb 31 * 256 + b1) 8)
    by (rewrite N.shiftl_mul_pow2; change (2 ^ 8)%N with 256%N; lia).
  rewrite lor_shiftl_add by (change (2 ^ 8)%N with 256%N; lia).
  rewrite ?N.shiftl_mul_pow2. change (2 ^ 8)%N with 256%N. lia.
Qed.

Lemma chunk_compressed_size_sum (b3 b4 : N) :
  (b4 < 256)%N -> chunk_compressed_size b3 b4 = (b3 * 256 + b4 + 1)%N.
Proof.
  intros H. unfold chunk_compressed_size.
  rewrite lor_shiftl_add by (change (2 ^ 8)%N with 256%N; lia).
  reflexivity.
Qed.

Lemma in_at_window (in_ : list byte) (pos n k : nat) (l : list byte) :
  firstn n (skipn pos in_) = l -> (k < length l)%nat ->
  in_at in_ (pos + k) = byte_val (nth k l x00).
Proof.
  intros H Hk. unfold in_at. subst l.
  rewrite length_firstn in Hk.
  rewrite nth_firstn, nth_skipn.
  destruct (Nat.ltb_spec k n); [reflexivity | lia].
Qed.

Section SizeFields.
Variable lz : Type.
Variable L : lzma_lz_decoder lz.
Variable dict_reset : lzma_dict -> lzma_dict.
Variable lzma_lzma_lclppb_decode :
  lzma_options_lzma -> N -> bool * lzma_options_lzma.

Abbreviation iter := (lzma2_iter L dict_reset lzma_lzma_lclppb_decode).
Abbreviation decode := (lzma2_decode L dict_reset lzma_lzma_lclppb_decode).
Abbreviation runs := (decodes L dict_reset lzma_lzma_lclppb_decode).
Abbreviation feed := (lzma2_feed L dict_reset lzma_lzma_lclppb_decode).

Implicit Types (c : lzma_coder lz) (d : lzma_dict).

Lemma size_mod_large : (8589934592 <= SIZE_MOD)%N.
Proof. discriminate. Qed.

Lemma iter_uncompressed_1 c d in_ pos size :
  sequence c = SEQ_UNCOMPRESSED_1 ->
  (uncompressed_size c < 2 ^ 32)%N ->
  iter c d in_ pos size
  = (Break,
     header_state SEQ_UNCOMPRESSED_2 (lzma c)
       (uncompressed_size c + in_at in_ pos * 256) (compressed_size c) c,
     d, S pos).
Proof.
  intros Hs Hu. unfold lzma2_iter. rewrite Hs.
  pose proof (in_at_bound in_ pos) as Hb.
  pose proof (shiftl_8_bound Hb) as Hb8. pose proof size_mod_large.
  rewrite u32_small by (change (2 ^ 32)%N with 4294967296%N in *; lia).
  rewrite size_add_small
    by (change (2 ^ 32)%N with 4294967296%N in *; lia).
  rewrite N.shiftl_mul_pow2. reflexivity.
Qed.

Lemma iter_uncompressed_2 c d in_ pos size :
  sequence c = SEQ_UNCOMPRESSED_2 ->
  (uncompressed_size c < 2 ^ 32)%N ->
  let u := (uncompressed_size c + in_at in_ pos + 1)%N in
  iter c d in_ pos size
  = (Break,
     header_state SEQ_COMPRESSED_0 (lz_set_uncompressed L (lzma c) u) u
       (compressed_size c) c,
     d, S pos).
Proof.
  intros Hs Hu u. unfold lzma2_iter. rewrite Hs.
  pose proof (in_at_bound in_ pos) as Hb. pose proof size_mod_large.
  rewrite size_add_small
    by (change (2 ^ 32)%N with 4294967296%N in *; lia).
  cbn [uncompressed_size set_uncompressed_size set_sequence lzma].
  rewrite N.add_assoc. reflexivity.
Qed.

Lemma iter_compressed_0 c d in_ pos size :
  sequence c = SEQ_COMPRESSED_0 ->
  iter c d in_ pos size
  = (Break,
     header_state SEQ_COMPRESSED_1 (lzma c) (uncompressed_size c)
       (in_at in_ pos * 256) c,
     d, S pos).
Proof.
  intros Hs. unfold lzma2_iter. rewrite Hs.
  pose proof (in_at_bound in_ pos) as Hb.
  pose proof (shiftl_8_bound Hb) as Hb8.
  rewrite u32_small by (change (2 ^ 32)%N with 4294967296%N in *; lia).
  rewrite N.shiftl_mul_pow2. reflexivity.
Qed.

Lemma iter_compressed_1 c d in_ pos size :
  sequence c = SEQ_COMPRESSED_1 ->
  (compressed_size c < 2 ^ 32)%N ->
  iter c d in_ pos size
  = (Break,
     header_state (next_sequence c) (lzma c) (uncompressed_size c)
       (compressed_size c + in_at in_ pos + 1) c,
     d, S pos).
Proof.
  intros Hs Hu. unfold lzma2_iter. rewrite Hs.
  pose proof (in_at_bound in_ pos) as Hb. pose proof size_mod_large.
  rewrite size_add_small
    by (change (2 ^ 32)%N with 4294967296%N in *; lia).
  rewrite N.add_assoc. reflexivity.
Qed.

(** What an accepted control byte leaves behind. *)
Lemma control_break_lzma c d in_ pos size c1 d1 pos1 :
  sequence c = SEQ_CONTROL ->
  (N.land (in_at in_ pos) 0x80 <> 0)%N ->
  iter c d in_ pos size = (Break, c1, d1, pos1) ->
  sequence c1 = SEQ_UNCOMPRESSED_1 /\
  uncompressed_size c1 = (N.land (in_at in_ pos) 0x1F * 65536)%N.
Proof.
  intros Hs Hb Hi. unfold lzma2_iter in Hi. rewrite Hs in Hi.
  unfold seq_control, control_lzma_case2 in Hi.
  destruct (control_high_bits (in_at in_ pos)) as [Hu _]. rewrite Hu in Hi.
  destruct (N.eqb_spec (N.land (in_at in_ pos) 128) 0) as [E | E];
    [contradiction|]. cbn [negb] in Hi.
  repeat match type of Hi with
    | context [if ?x then _ else _] => destruct x
    | context [match ?x with _ => _ end] => destruct x
    end;
    try discriminate; inversion Hi; subst; split; reflexivity.
Qed.

Lemma control_break_copy c d in_ pos size c1 d1 pos1 :
  sequence c = SEQ_CONTROL ->
  (N.land (in_at in_ pos) 0x80 = 0)%N ->
  iter c d in_ pos size = (Break, c1, d1, pos1) ->
  sequence c1 = SEQ_COMPRESSED_0 /\ next_sequence c1 = SEQ_COPY.
Proof.
  intros Hs Hb Hi. unfold lzma2_iter in Hi. rewrite Hs in Hi.
  unfold seq_control, control_copy_case2 in Hi. rewrite Hb in Hi.
  cbn [N.eqb negb] in Hi.
  repeat match type of Hi with
    | context [if ?x then _ else _] => destruct x
    | context [match ?x with _ => _ end] => destruct x
    end;
    try discriminate; inversion Hi; subst; split; reflexivity.
Qed.

Lemma iter_control_byte c d in_ pos size in2 pos2 size2 f c' d' :
  sequence c = SEQ_CONTROL ->
  in_at in_ pos = in_at in2 pos2 ->
  iter c d in_ pos size = (f, c', d', S pos) ->
  iter c d in2 pos2 size2 = (f, c', d', S pos2).
Proof.
  intros Hs Hb Hi. unfold lzma2_iter in *. rewrite Hs in *.
  rewrite (seq_control_byte L dict_reset c d in_ pos in2 pos2 Hb).
  now rewrite Hi.
Qed.

Lemma feed_cons_ok c d p rest base c' d' :
  decode c d p 0 (length p) = Some (LZMA_OK, c', d', length p) ->
  feed c d (p :: rest) base = feed c' d' rest (base + length p)%nat.
Proof.
  intro H. cbn [lzma2_feed]. rewrite H. cbn [lzma_ret_eqb].
  now rewrite Nat.eqb_refl.
Qed.

Lemma decode_one_byte c d (x : byte) c' d' :
  iter c d [x] 0 1 = (Break, c', d', 1%nat) ->
  is_SEQ_LZMA (sequence c') = false ->
  decode c d [x] 0 1 = Some (LZMA_OK, c', d', 1%nat).
Proof.
  intros Hi Hs. apply decode_break_exit; [reflexivity | exact Hi |].
  unfold loop_cond. now rewrite Hs.
Qed.

(** The four passes after the control byte of a compressed chunk, each on
    a buffer of its own. *)
Lemma lzma_header_passes c1 d1 (v0 : N)
    in1 p1 s1 in2 p2 s2 in3 p3 s3 in4 p4 s4 :
  sequence c1 = SEQ_UNCOMPRESSED_1 ->
  uncompressed_size c1 = (N.land v0 0x1F * 65536)%N ->
  let u := chunk_uncompressed_size v0 (in_at in1 p1) (in_at in2 p2) in
  let cs := chunk_compressed_size (in_at in3 p3) (in_at in4 p4) in
  let l := lz_set_uncompressed L (lzma c1) u in
  let c2 := header_state SEQ_UNCOMPRESSED_2 (lzma c1)
              (N.land v0 0x1F * 65536 + in_at in1 p1 * 256)
              (compressed_size c1) c1 in
  let c3 := header_state SEQ_COMPRESSED_0 l u (compressed_size c1) c1 in
  let c4 := header_state SEQ_COMPRESSED_1 l u (in_at in3 p3 * 256) c1 in
  let c5 := header_state (next_sequence c1) l u cs c1 in
  iter c1 d1 in1 p1 s1 = (Break, c2, d1, S p1) /\
  iter c2 d1 in2 p2 s2 = (Break, c3, d1, S p2) /\
  iter c3 d1 in3 p3 s3 = (Break, c4, d1, S p3) /\
  iter c4 d1 in4 p4 s4 = (Break, c5, d1, S p4) /\
  (1 <= u <= 2 ^ 21)%N /\ (1 <= cs <= 2 ^ 16)%N.
Proof.
  intros Hs Hu u cs l c2 c3 c4 c5.
  pose proof (in_at_bound in1 p1) as B1. pose proof (in_at_bound in2 p2) as B2.
  pose proof (in_at_bound in3 p3) as B3. pose proof (in_at_bound in4 p4) as B4.
  destruct (control_high_bits v0) as [_ B0].
  assert (Eu : u = (N.land v0 0x1F * 65536 + in_at in1 p1 * 256
                    + in_at in2 p2 + 1)%N)
    by (apply chunk_uncompressed_size_sum; assumption).
  assert (Ec : cs = (in_at in3 p3 * 256 + in_at in4 p4 + 1)%N)
    by (apply chunk_compressed_size_sum; assumption).
  change (2 ^ 21)%N with 2097152%N. change (2 ^ 16)%N with 65536%N.
  repeat split; try lia.
  - rewrite iter_uncompressed_1;
      [ | exact Hs | change (2 ^ 32)%N with 4294967296%N; lia ].
    rewrite Hu. reflexivity.
  - rewrite iter_uncompressed_2;
      [ | reflexivity
        | cbn; change (2 ^ 32)%N with 4294967296%N; lia ].
    cbv zeta. unfold c2. cbn [uncompressed_size header_state].
    rewrite <- Eu. reflexivity.
  - rewrite iter_compressed_0 by reflexivity. reflexivity.
  - rewrite iter_compressed_1;
      [ | reflexivity
        | cbn; change (2 ^ 32)%N with 4294967296%N; lia ].
    unfold c4. cbn [compressed_size header_state]. rewrite <- Ec.
    reflexivity.
Qed.

(** The two passes after the control byte of an uncompressed chunk. *)
Lemma copy_header_passes c1 d1 in1 p1 s1 in2 p2 s2 :
  sequence c1 = SEQ_COMPRESSED_0 ->
  next_sequence c1 = SEQ_COPY ->
  let cs := chunk_compressed_size (in_at in1 p1) (in_at in2 p2) in
  let c2 := header_state SEQ_COMPRESSED_1 (lzma c1) (uncompressed_size c1)
              (in_at in1 p1 * 256) c1 in
  let c3 := header_state SEQ_COPY (lzma c1) (uncompressed_size c1) cs c1 in
  iter c1 d1 in1 p1 s1 = (Break, c2, d1, S p1) /\
  iter c2 d1 in2 p2 s2 = (Break, c3, d1, S p2) /\
  (1 <= cs <= 2 ^ 16)%N.
Proof.
  intros Hs Hn cs c2 c3.
  pose proof (in_at_bound in1 p1) as B1. pose proof (in_at_bound in2 p2) as B2.
  assert (Ec : cs = (in_at in1 p1 * 256 + in_at in2 p2 + 1)%N)
    by (apply chunk_compressed_size_sum; assumption).
  change (2 ^ 16)%N with 65536%N.
  repeat split; try lia.
  - rewrite iter_compressed_0 by exact Hs. reflexivity.
  - rewrite iter_compressed_1;
      [ | reflexivity
        | cbn; change (2 ^ 32)%N with 4294967296%N; lia ].
    unfold c2. cbn [compressed_size header_state next_sequence].
    rewrite <- Ec, Hn. reflexivity.
Qed.

(** C7.  Size fields.  After the control byte [x0] of a compressed chunk
    and the four bytes [x1 .. x4] that follow, [uncompressed_size] is
    [(((x0 & 0x1F) << 16) | (x1 << 8) | x2) + 1], between 1 and 2^21, the
    LZMA decoder has been told that size, [compressed_size] is
    [((x3 << 8) | x4) + 1], between 1 and 2^16, and [sequence] is
    [next_sequence]; after the control byte of an uncompressed chunk and
    two bytes, [compressed_size] is [((x1 << 8) | x2) + 1] and [sequence] is
    [SEQ_COPY].  The same states are reached when every header byte comes
    in a call of its own. *)
Theorem size_fields_decoded :
  (forall c0 d in_ pos size x0 x1 x2 x3 x4 c1 d1,
      sequence c0 = SEQ_CONTROL ->
      (pos + 5 <= size)%nat ->
      firstn 5 (skipn pos in_) = [x0; x1; x2; x3; x4] ->
      (N.land (byte_val x0) 0x80 <> 0)%N ->
      iter c0 d in_ pos size = (Break, c1, d1, S pos) ->
      let u := chunk_uncompressed_size
                 (byte_val x0) (byte_val x1) (byte_val x2) in
      let cs := chunk_compressed_size (byte_val x3) (byte_val x4) in
      let l := lz_set_uncompressed L (lzma c1) u in
      let c4 := header_state SEQ_COMPRESSED_1 l u (byte_val x3 * 256) c1 in
      let c5 := header_state (next_sequence c1) l u cs c1 in
      (1 <= u <= 2 ^ 21)%N /\ (1 <= cs <= 2 ^ 16)%N /\
      (forall res,
          runs c0 d in_ pos size res
          <-> runs c5 d1 in_ (pos + 5) size res) /\
      feed c0 d [[x0]; [x1]; [x2]; [x3]] 0 = Some (LZMA_OK, c4, d1, 4%nat) /\
      iter c4 d1 [x4] 0 1 = (Break, c5, d1, 1%nat)) /\
  (forall c0 d in_ pos size x0 x1 x2 c1 d1,
      sequence c0 = SEQ_CONTROL ->
      (pos + 3 <= size)%nat ->
      firstn 3 (skipn pos in_) = [x0; x1; x2] ->
      (N.land (byte_val x0) 0x80 = 0)%N ->
      iter c0 d in_ pos size = (Break, c1, d1, S pos) ->
      let cs := chunk_compressed_size (byte_val x1) (byte_val x2) in
      let c3 := header_state SEQ_COPY (lzma c1) (uncompressed_size c1) cs c1 in
      (1 <= cs <= 2 ^ 16)%N /\
      (forall res,
          runs c0 d in_ pos size res
          <-> runs c3 d1 in_ (pos + 3) size res) /\
      feed c0 d [[x0]; [x1]; [x2]] 0 = Some (LZMA_OK, c3, d1, 3%nat)).
Proof.
  assert (Hstep : forall c d in_ pos size c' d' pos' res,
             (pos < size)%nat ->
             iter c d in_ pos size = (Break, c', d', pos') ->
             (runs c d in_ pos size res <-> runs c' d' in_ pos' size res)).
  { intros. eapply decodes_break; [now apply loop_cond_input | eassumption]. }
  assert (Hone : forall c d (x : byte) c' d' rest base,
             iter c d [x] 0 1 = (Break, c', d', 1%nat) ->
             is_SEQ_LZMA (sequence c') = false ->
             feed c d ([x] :: rest) base = feed c' d' rest (base + 1)%nat).
  { intros c d x c' d' rest base Hi Hs.
    apply (@feed_cons_ok c d [x] rest base c' d').
    now apply decode_one_byte. }
  split.
  - intros c0 d in_ pos size x0 x1 x2 x3 x4 c1 d1 Hs Hsize Hw Hb Hi.
    assert (A0 : in_at in_ pos = byte_val x0).
    { rewrite <- (Nat.add_0_r pos).
      apply (@in_at_window in_ pos _ 0 _ Hw). cbn; lia. }
    assert (A1 : in_at in_ (S pos) = byte_val x1).
    { replace (S pos) with (pos + 1)%nat by lia.
      apply (@in_at_window in_ pos _ 1 _ Hw). cbn; lia. }
    assert (A2 : in_at in_ (S (S pos)) = byte_val x2).
    { replace (S (S pos)) with (pos + 2)%nat by lia.
      apply (@in_at_window in_ pos _ 2 _ Hw). cbn; lia. }
    assert (A3 : in_at in_ (S (S (S pos))) = byte_val x3).
    { replace (S (S (S pos))) with (pos + 3)%nat by lia.
      apply (@in_at_window in_ pos _ 3 _ Hw). cbn; lia. }
    assert (A4 : in_at in_ (S (S (S (S pos)))) = byte_val x4).
    { replace (S (S (S (S pos)))) with (pos + 4)%nat by lia.
      apply (@in_at_window in_ pos _ 4 _ Hw). cbn; lia. }
    rewrite <- A0 in Hb.
    destruct (@control_break_lzma c0 d in_ pos size c1 d1 (S pos) Hs Hb Hi)
      as [Hs1 Hu1].
    rewrite A0 in Hu1.
    pose proof (@lzma_header_passes c1 d1 (byte_val x0)
                  in_ (S pos) size in_ (S (S pos)) size
                  in_ (S (S (S pos))) size in_ (S (S (S (S pos)))) size
                  Hs1 Hu1) as P.
    pose proof (@lzma_header_passes c1 d1 (byte_val x0)
                  [x1] 0 1 [x2] 0 1 [x3] 0 1 [x4] 0 1 Hs1 Hu1) as Q.
    rewrite A1, A2, A3, A4 in P.
    change (in_at [x1] 0) with (byte_val x1) in Q.
    change (in_at [x2] 0) with (byte_val x2) in Q.
    change (in_at [x3] 0) with (byte_val x3) in Q.
    change (in_at [x4] 0) with (byte_val x4) in Q.
    cbv zeta in P, Q. cbv zeta.
    destruct P as (P1 & P2 & P3 & P4 & Bu & Bc).
    destruct Q as (Q1 & Q2 & Q3 & Q4 & _).
    split; [exact Bu|]. split; [exact Bc|]. split; [|split].
    + intro res.
      assert (L0 : (pos < size)%nat) by lia.
      assert (L1 : (S pos < size)%nat) by lia.
      assert (L2 : (S (S pos) < size)%nat) by lia.
      assert (L3 : (S (S (S pos)) < size)%nat) by lia.
      assert (L4 : (S (S (S (S pos))) < size)%nat) by lia.
      rewrite (Hstep _ _ _ _ _ _ _ _ res L0 Hi).
      rewrite (Hstep _ _ _ _ _ _ _ _ res L1 P1).
      rewrite (Hstep _ _ _ _ _ _ _ _ res L2 P2).
      rewrite (Hstep _ _ _ _ _ _ _ _ res L3 P3).
      rewrite (Hstep _ _ _ _ _ _ _ _ res L4 P4).
      replace (S (S (S (S (S pos))))) with (pos + 5)%nat by lia.
      reflexivity.
    + assert (Hi0 : iter c0 d [x0] 0 1 = (Break, c1, d1, 1%nat))
        by (apply (@iter_control_byte c0 d in_ pos size [x0] 0%nat 1%nat
                     Break c1 d1 Hs A0 Hi)).
      rewrite (Hone _ _ _ _ _ _ _ Hi0) by (rewrite Hs1; reflexivity).
      rewrite (Hone _ _ _ _ _ _ _ Q1) by reflexivity.
      rewrite (Hone _ _ _ _ _ _ _ Q2) by reflexivity.
      rewrite (Hone _ _ _ _ _ _ _ Q3) by reflexivity.
      reflexivity.
    + exact Q4.
  - intros c0 d in_ pos size x0 x1 x2 c1 d1 Hs Hsize Hw Hb Hi.
    assert (A0 : in_at in_ pos = byte_val x0).
    { rewrite <- (Nat.add_0_r pos).
      apply (@in_at_window in_ pos _ 0 _ Hw). cbn; lia. }
    assert (A1 : in_at in_ (S pos) = byte_val x1).
    { replace (S pos) with (pos + 1)%nat by lia.
      apply (@in_at_window in_ pos _ 1 _ Hw). cbn; lia. }
    assert (A2 : in_at in_ (S (S pos)) = byte_val x2).
    { replace (S (S pos)) with (pos + 2)%nat by lia.
      apply (@in_at_window in_ pos _ 2 _ Hw). cbn; lia. }
    rewrite <- A0 in Hb.
    destruct (@control_break_copy c0 d in_ pos size c1 d1 (S pos) Hs Hb Hi)
      as [Hs1 Hn1].
    pose proof (@copy_header_passes c1 d1
                  in_ (S pos) size in_ (S (S pos)) size Hs1 Hn1) as P.
    pose proof (@copy_header_passes c1 d1 [x1] 0 1 [x2] 0 1 Hs1 Hn1) as Q.
    rewrite A1, A2 in P.
    change (in_at [x1] 0) with (byte_val x1) in Q.
    change (in_at [x2] 0) with (byte_val x2) in Q.
    cbv zeta in P, Q. cbv zeta.
    destruct P as (P1 & P2 & Bc). destruct Q as (Q1 & Q2 & _).
    split; [exact Bc|]. split.
    + intro res.
      assert (L0 : (pos < size)%nat) by lia.
      assert (L1 : (S pos < size)%nat) by lia.
      assert (L2 : (S (S pos) < size)%nat) by lia.
      rewrite (Hstep _ _ _ _ _ _ _ _ res L0 Hi).
      rewrite (Hstep _ _ _ _ _ _ _ _ res L1 P1).
      rewrite (Hstep _ _ _ _ _ _ _ _ res L2 P2).
      replace (S (S (S pos))) with (pos + 3)%nat by lia.
      reflexivity.
    + assert (Hi0 : iter c0 d [x0] 0 1 = (Break, c1, d1, 1%nat))
        by (apply (@iter_control_byte c0 d in_ pos size [x0] 0%nat 1%nat
                     Break c1 d1 Hs A0 Hi)).
      rewrite (Hone _ _ _ _ _ _ _ Hi0) by (rewrite Hs1; reflexivity).
      rewrite (Hone _ _ _ _ _ _ _ Q1) by reflexivity.
      rewrite (Hone _ _ _ _ _ _ _ Q2) by reflexivity.
      reflexivity.
Qed.

End SizeFields.

(** Witness for C7: the header [E0 01 02 03 04] of a compressed chunk
    (sizes 0x0102 + 1 and 0x0304 + 1) and the header [01 00 00] of an
    uncompressed chunk of one byte, in the initial state. *)
Lemma size_fields_decoded_witness :
  (exists c4 c5 d1,
      sample_feed sample_coder sample_dict
        [[xe0]; [x01]; [x02]; [x03]] 0
      = Some (LZMA_OK, c4, d1, 4%nat) /\
      sample_iter c4 d1 [x04] 0 1 = (Break, c5, d1, 1%nat) /\
      decodes stored_decoder clearing_dict_reset sample_lclppb_decode
        sample_coder sample_dict [xe0; x01; x02; x03; x04] 0 5
        (LZMA_OK, c5, d1, 5%nat) /\
      uncompressed_size c5 = 259%N /\ compressed_size c5 = 773%N /\
      sequence c5 = SEQ_PROPERTIES) /\
  (exists c3 d1,
      sample_feed sample_coder sample_dict [[x01]; [x00]; [x00]] 0
      = Some (LZMA_OK, c3, d1, 3%nat) /\
      compressed_size c3 = 1%N /\ sequence c3 = SEQ_COPY).
Proof.
  destruct (@size_fields_decoded N stored_decoder clearing_dict_reset
              sample_lclppb_decode) as [Hlzma Hcopy].
  split.
  - assert (Hi : sample_iter sample_coder sample_dict
                   [xe0; x01; x02; x03; x04] 0 5
                 = (Break,
                    set_next_sequence SEQ_PROPERTIES
                      (set_need_properties false
                         (set_need_dictionary_reset false
                            (set_sequence SEQ_UNCOMPRESSED_1
                               (set_uncompressed_size 0%N sample_coder)))),
                    clearing_dict_reset sample_dict, 1%nat))
      by reflexivity.
    assert (Hb : N.land (byte_val xe0) 128 <> 0%N) by discriminate.
    destruct (Hlzma sample_coder sample_dict [xe0; x01; x02; x03; x04]
                0%nat 5%nat xe0 x01 x02 x03 x04 _ _
                eq_refl (Nat.le_refl 5) eq_refl Hb Hi)
      as (_ & _ & Hruns & Hfeed & Hlast).
    eexists. eexists. eexists.
    split; [exact Hfeed|]. split; [exact Hlast|]. split.
    + apply Hruns. apply decodes_exit. reflexivity.
    + repeat split.
  - assert (Hi : sample_iter sample_coder sample_dict [x01; x00; x00] 0 3
                 = (Break,
                    set_next_sequence SEQ_COPY
                      (set_sequence SEQ_COMPRESSED_0
                         (set_need_dictionary_reset false sample_coder)),
                    clearing_dict_reset sample_dict, 1%nat))
      by reflexivity.
    destruct (Hcopy sample_coder sample_dict [x01; x00; x00]
                0%nat 3%nat x01 x00 x00 _ _
                eq_refl (Nat.le_refl 3) eq_refl eq_refl Hi)
      as (_ & _ & Hfeed).
    eexists. eexists. split; [exact Hfeed|]. split; reflexivity.
Defined.

(** ** [need_properties] *)

Lemma reset_level_bound (b : N) : (N.land (N.shiftr b 5) 3 < 4)%N.
Proof.
  change 3%N with (N.ones 2). rewrite N.land_ones.
  apply N.mod_upper_bound. discriminate.
Qed.

Section NeedProperties.
Variable lz : Type.
Variable L : lzma_lz_decoder lz.
Variable dict_reset : lzma_dict -> lzma_dict.
Variable lzma_lzma_lclppb_decode :
  lzma_options_lzma -> N -> bool * lzma_options_lzma.

Abbreviation iter := (lzma2_iter L dict_reset lzma_lzma_lclppb_decode).
Abbreviation loop := (lzma2_decode_loop L dict_reset lzma_lzma_lclppb_decode).
Abbreviation decode := (lzma2_decode L dict_reset lzma_lzma_lclppb_decode).

Abbreviation reach := (reachable L dict_reset lzma_lzma_lclppb_decode).
Abbreviation in_pass := (props_decoded_in_pass lzma_lzma_lclppb_decode).
Abbreviation in_loop :=
  (props_decoded_in_loop L dict_reset lzma_lzma_lclppb_decode).

Implicit Types (c : lzma_coder lz) (d : lzma_dict).

Ltac need_properties_cases Hs :=
  subst; cbn in *; try rewrite Hs in *; cbn in *;
  match goal with
  | x : lzma_coder _ |- _ =>
      destruct (need_properties x), (next_sequence x)
  end;
  cbn in *;
  repeat match goal with g : bool |- _ => destruct g end;
  cbn in *; congruence.

Lemma iter_need_properties_inv g c d in_ pos size f c' d' pos' :
  need_properties_inv g c ->
  iter c d in_ pos size = (f, c', d', pos') ->
  need_properties_inv (g || in_pass c in_ pos) c'.
Proof.
  unfold need_properties_inv, properties_pending, props_decoded_in_pass.
  intros H Hi. unfold lzma2_iter in Hi.
  destruct (sequence c) eqn:Hs.
  - unfold seq_control, control_lzma_case2, control_copy_case2 in Hi.
    repeat match type of Hi with
      | context [if ?x then _ else _] => destruct x eqn:?
      | context [match ?x with _ => _ end] => destruct x eqn:?
      end;
      inversion Hi; need_properties_cases Hs.
  - inversion Hi; need_properties_cases Hs.
  - inversion Hi; need_properties_cases Hs.
  - inversion Hi; need_properties_cases Hs.
  - inversion Hi; need_properties_cases Hs.
  - destruct (lzma_lzma_lclppb_decode (options c) (in_at in_ pos))
      as [[|] o]; inversion Hi; need_properties_cases Hs.
  - unfold seq_lzma in Hi.
    destruct (lz_code L (lzma c) d in_ pos size) as [[[ret l] d1] p1].
    repeat match type of Hi with
      | context [if ?x then _ else _] => destruct x eqn:?
      end;
      inversion Hi; need_properties_cases Hs.
  - unfold seq_copy in Hi.
    destruct (dict_write d in_ pos size (compressed_size c))
      as [[d1 p1] l1].
    repeat match type of Hi with
      | context [if ?x then _ else _] => destruct x eqn:?
      end;
      inversion Hi; need_properties_cases Hs.
Qed.

Lemma loop_need_properties_inv fuel g c d in_ pos size r c' d' pos' :
  need_properties_inv g c ->
  loop fuel c d in_ pos size = Some (r, c', d', pos') ->
  need_properties_inv
    (g || in_loop fuel c d in_ pos size) c'.
Proof.
  revert g c d pos.
  induction fuel as [|fuel IH]; intros g c d pos H Hl; [discriminate|].
  cbn [lzma2_decode_loop props_decoded_in_loop] in *.
  destruct (loop_cond c pos size).
  - pose proof (@iter_need_properties_inv g c d in_ pos size) as Hit.
    destruct (iter c d in_ pos size) as [[[[|r1] c1] d1] p1].
    + specialize (Hit _ _ _ _ H eq_refl).
      specialize (IH _ _ _ _ Hit Hl).
      now rewrite <- orb_assoc in IH.
    + inversion Hl; subst. now apply (Hit _ _ _ _ H eq_refl).
  - inversion Hl; subst. now rewrite orb_false_r.
Qed.

Lemma reachable_need_properties_inv g c :
  reach g c -> need_properties_inv g c.
Proof.
  induction 1 as [c0 | g c d in_ pos size r c' d' pos' Hr IH Hd].
  - reflexivity.
  - eapply loop_need_properties_inv; eassumption.
Qed.

(** The control pass changes [need_properties] only by clearing it for an
    accepted control byte of reset level 2 or 3. *)
Lemma control_pass_need_properties c d in_ pos size :
  sequence c = SEQ_CONTROL ->
  let b := in_at in_ pos in
  let level := N.land (N.shiftr b 5) 3 in
  let accepted :=
    N.land b 0x80 <> 0%N /\
    (level = 3%N \/ (level = 2%N /\ need_dictionary_reset c = false)) in
  (accepted ->
   exists c' d',
     iter c d in_ pos size = (Break, c', d', S pos) /\
     need_properties c' = false /\
     sequence c' = SEQ_UNCOMPRESSED_1 /\ next_sequence c' = SEQ_PROPERTIES) /\
  (~ accepted ->
   need_properties (snd (fst (fst (iter c d in_ pos size))))
   = need_properties c).
Proof.
  intros Hs b level accepted. unfold accepted, level, b. clear accepted level b.
  pose proof (reset_level_bound (in_at in_ pos)) as Hlvl.
  unfold lzma2_iter. rewrite Hs.
  unfold seq_control, control_lzma_case2, control_copy_case2.
  cbn [need_properties need_dictionary_reset set_sequence
       set_uncompressed_size set_need_dictionary_reset].
  destruct (N.eqb_spec (N.land (in_at in_ pos) 128) 0) as [E | E];
    cbn [negb].
  - split; [intros [H _]; contradiction|]. intros _.
    repeat match goal with
      | |- context [if ?x then _ else _] => destruct x
      | |- context [match ?x with _ => _ end] => destruct x
      end;
      cbn [fst snd need_properties set_sequence set_next_sequence
           set_need_dictionary_reset]; reflexivity.
  - destruct (N.land (N.shiftr (in_at in_ pos) 5) 3)
      as [|[[|q|]|[|q|]|]] eqn:El; try lia.
    + split; [intros [_ [H | [H _]]]; discriminate H|]. intros _.
      destruct (need_properties c) eqn:En;
        cbn [fst snd need_properties set_sequence set_uncompressed_size
             set_next_sequence set_lzma]; congruence.
    + split; [intros _; do 2 eexists; repeat split|].
      intro H. elim H. split; [exact E | now left].
    + split.
      * intros [_ [H | [_ H]]]; [discriminate H|]. rewrite H.
        do 2 eexists; repeat split.
      * intro H. destruct (need_dictionary_reset c) eqn:Er;
          [cbn [fst snd need_properties set_sequence set_uncompressed_size];
           reflexivity|].
        elim H. split; [exact E | right; split; reflexivity].
    + split; [intros [_ [H | [H _]]]; discriminate H|]. intros _.
      destruct (need_properties c) eqn:En;
        cbn [fst snd need_properties set_sequence set_uncompressed_size
             set_next_sequence set_lzma]; congruence.
Qed.

(** C3, as amended.  [need_properties] is cleared by the control byte of a
    compressed chunk of reset level 2 or 3 when that byte is accepted
    (level 3, or level 2 with [need_dictionary_reset] cleared): the pass
    consumes the control byte only, goes on to the size fields with
    [next_sequence = SEQ_PROPERTIES], and the flag is false although the
    properties byte of the chunk has not been read; on every other
    control byte the pass leaves the flag as it is.  In every state
    reachable from [lzma2_decoder_init] in which the flag is false, either
    a properties byte has been decoded successfully, or the header of
    such a chunk is being read: [next_sequence] is [SEQ_PROPERTIES] and
    [sequence] is one of the size-field phases or [SEQ_PROPERTIES]. *)
Theorem need_properties_false_only_with_properties :
  (forall c d in_ pos size,
      sequence c = SEQ_CONTROL ->
      let b := in_at in_ pos in
      let level := N.land (N.shiftr b 5) 3 in
      let accepted :=
        N.land b 0x80 <> 0%N /\
        (level = 3%N \/ (level = 2%N /\ need_dictionary_reset c = false)) in
      (accepted ->
       exists c' d',
         lzma2_iter L dict_reset lzma_lzma_lclppb_decode c d in_ pos size
         = (Break, c', d', S pos) /\
         need_properties c' = false /\
         sequence c' = SEQ_UNCOMPRESSED_1 /\
         next_sequence c' = SEQ_PROPERTIES /\
         props_decoded_in_pass lzma_lzma_lclppb_decode c in_ pos = false) /\
      (~ accepted ->
       need_properties
         (snd (fst (fst (lzma2_iter L dict_reset lzma_lzma_lclppb_decode
                           c d in_ pos size))))
       = need_properties c)) /\
  (forall g c,
      reachable L dict_reset lzma_lzma_lclppb_decode g c ->
      need_properties c = false ->
      g = true \/
      (next_sequence c = SEQ_PROPERTIES /\
       (sequence c = SEQ_UNCOMPRESSED_1 \/ sequence c = SEQ_UNCOMPRESSED_2 \/
        sequence c = SEQ_COMPRESSED_0 \/ sequence c = SEQ_COMPRESSED_1 \/
        sequence c = SEQ_PROPERTIES))).
Proof.
  split.
  - intros c d in_ pos size Hs b level accepted.
    destruct (@control_pass_need_properties c d in_ pos size Hs)
      as [Hacc Hrest].
    split; [|exact Hrest].
    intro Ha. destruct (Hacc Ha) as (c' & d' & Hi & Hn & Hq & Hnx).
    exists c', d'. repeat split; try assumption.
    unfold props_decoded_in_pass. now rewrite Hs.
  - intros g c Hr Hn. apply reachable_need_properties_inv in Hr.
    unfold need_properties_inv, properties_pending in Hr. rewrite Hn in Hr.
    destruct g; [now left | right]. cbn in Hr.
    destruct (next_sequence c); try discriminate.
    split; [reflexivity|].
    destruct (sequence c); try discriminate; tauto.
Qed.

End NeedProperties.

(** C3, as stated, fails: after the single control byte 0xE0 the flag is
    false although no properties byte has been decoded. *)
Lemma need_properties_cleared_by_control_byte :
  ~ (forall g c,
        reachable stored_decoder clearing_dict_reset sample_lclppb_decode g c ->
        need_properties c = false -> g = true).
Proof.
  intro H.
  pose (c0 := mk_coder SEQ_COPY SEQ_COPY 0%N 0%N 0%N false false
                sample_options).
  pose proof (@reach_call N stored_decoder clearing_dict_reset
                sample_lclppb_decode false _ sample_dict [xe0] 0 1 _ _ _ _
                (@reach_init N stored_decoder clearing_dict_reset
                   sample_lclppb_decode c0) eq_refl) as Hr.
  specialize (H _ _ Hr eq_refl). vm_compute in H. discriminate H.
Qed.

(** Witness for C3 as amended: the control byte 0xE0 in the initial state
    is accepted and clears the flag; 0xC0 is refused and leaves it set. *)
Lemma need_properties_false_only_with_properties_witness :
  exists c,
    sample_decode sample_coder sample_dict [xe0] 0 1
    = Some (LZMA_OK, c, clearing_dict_reset sample_dict, 1%nat) /\
    need_properties c = false /\
    next_sequence c = SEQ_PROPERTIES /\ sequence c = SEQ_UNCOMPRESSED_1 /\
    need_properties
      (snd (fst (fst (sample_iter sample_coder sample_dict [xc0] 0 1))))
    = true.
Proof.
  unfold sample_iter.
  pose (c0 := mk_coder SEQ_COPY SEQ_COPY 0%N 0%N 0%N false false
                sample_options).
  pose proof (@reach_call N stored_decoder clearing_dict_reset
                sample_lclppb_decode false _ sample_dict [xe0] 0 1 _ _ _ _
                (@reach_init N stored_decoder clearing_dict_reset
                   sample_lclppb_decode c0) eq_refl) as Hr.
  destruct (@need_properties_false_only_with_properties N stored_decoder
              clearing_dict_reset sample_lclppb_decode) as [Hctl Hinv].
  pose proof (Hinv _ _ Hr eq_refl) as H.
  destruct (Hctl sample_coder sample_dict [xe0] 0%nat 1%nat eq_refl)
    as [Hacc _].
  destruct Hacc as (c' & d' & Hi & Hn & Hs & Hnx & _).
  { split; [vm_compute; discriminate | left; vm_compute; reflexivity]. }
  destruct (Hctl sample_coder sample_dict [xc0] 0%nat 1%nat eq_refl)
    as [_ Hrej].
  assert (Hflag : need_properties
                    (snd (fst (fst (lzma2_iter stored_decoder
                                      clearing_dict_reset
                                      sample_lclppb_decode sample_coder
                                      sample_dict [xc0] 0 1))))
                  = need_properties sample_coder).
  { apply Hrej. intros [_ [Hl | [_ Hl]]]; vm_compute in Hl; discriminate Hl. }
  exists c'. vm_compute in Hi. inversion Hi; subst c' d'.
  split; [reflexivity|]. split; [exact Hn|].
  split; [exact Hnx|]. split; [exact Hs|]. exact Hflag.
Defined.

(** ** Resumption *)

(** [dict_write] on a buffer and on the buffer with more input appended. *)

Lemma skipn_app_le (A : Type) (l1 l2 : list A) (n : nat) :
  (n <= length l1)%nat -> skipn n (l1 ++ l2) = skipn n l1 ++ l2.
Proof.
  intro H. rewrite skipn_app.
  replace (n - length l1)%nat with 0%nat by lia. reflexivity.
Qed.

Lemma skipn_app_ge (A : Type) (l1 l2 : list A) (n : nat) :
  skipn (length l1 + n) (l1 ++ l2) = skipn n l2.
Proof.
  rewrite skipn_app, skipn_all2 by lia.
  replace (length l1 + n - length l1)%nat with n by lia. reflexivity.
Qed.

Lemma firstn_skipn_app (A : Type) (l1 l2 : list A) (pos n : nat) :
  (pos + n <= length l1)%nat ->
  firstn n (skipn pos (l1 ++ l2)) = firstn n (skipn pos l1).
Proof.
  intro H. rewrite skipn_app_le by lia. rewrite firstn_app.
  rewrite length_skipn.
  replace (n - (length l1 - pos))%nat with 0%nat by lia.
  cbn [firstn]. apply app_nil_r.
Qed.

Lemma firstn_skipn_split (A : Type) (l1 l2 : list A) (pos m : nat) :
  (pos <= length l1)%nat ->
  firstn (length l1 - pos + m) (skipn pos (l1 ++ l2))
  = firstn (length l1 - pos) (skipn pos l1)
    ++ firstn m (skipn (length l1) (l1 ++ l2)).
Proof.
  intro H. rewrite skipn_app_le by lia.
  rewrite <- (length_skipn pos l1). rewrite firstn_app_2, firstn_all.
  rewrite skipn_app, skipn_all, Nat.sub_diag. reflexivity.
Qed.

(** The copy is not cut short by the end of the shorter buffer: more input
    changes nothing. *)
Lemma dict_write_stable d (in1 in2 : list byte) pos left_ d' p' l' :
  (pos <= length in1)%nat ->
  dict_write d in1 pos (length in1) left_ = (d', p', l') ->
  (p' < length in1)%nat \/ l' = 0%N \/ in2 = [] ->
  dict_write d (in1 ++ in2) pos (length (in1 ++ in2)) left_ = (d', p', l').
Proof.
  intros Hpos Hw Hc. unfold dict_write in *. rewrite length_app.
  set (n := Nat.min (length in1 - pos)
              (Nat.min (N.to_nat left_) (dict_limit d - dict_pos d))) in *.
  assert (Hn : Nat.min (length in1 + length in2 - pos)
                 (Nat.min (N.to_nat left_) (dict_limit d - dict_pos d)) = n).
  { inversion Hw; subst p' l'.
    destruct Hc as [Hc | [Hc | Hc]]; [unfold n in *; lia.. |].
    subst in2. cbn [length]. unfold n. lia. }
  rewrite Hn. rewrite firstn_skipn_app by (unfold n; lia). exact Hw.
Qed.

(** The copy used up the shorter buffer: on the longer buffer it does what
    a second call does after the first. *)
Lemma dict_write_resume d (in1 in2 : list byte) pos left_ d' l' :
  (pos <= length in1)%nat ->
  dict_write d in1 pos (length in1) left_ = (d', length in1, l') ->
  dict_write d (in1 ++ in2) pos (length (in1 ++ in2)) left_
  = dict_write d' (in1 ++ in2) (length in1) (length (in1 ++ in2)) l'.
Proof.
  intros Hpos Hw. unfold dict_write in *. rewrite length_app.
  set (n := Nat.min (length in1 - pos)
              (Nat.min (N.to_nat left_) (dict_limit d - dict_pos d))) in *.
  injection Hw as Hd Hp Hl.
  assert (Hn : n = (length in1 - pos)%nat) by lia.
  assert (Hlen : length (firstn n (skipn pos in1)) = n)
    by (rewrite length_firstn, length_skipn; lia).
  subst d' l'.
  unfold dict_pos. cbn [dict_buf dict_limit]. rewrite length_app, Hlen.
  set (m := Nat.min (length in1 + length in2 - length in1)
              (Nat.min (N.to_nat (left_ - N.of_nat n))
                 (dict_limit d - (length (dict_buf d) + n)))).
  assert (Hm : Nat.min (length in1 + length in2 - pos)
                 (Nat.min (N.to_nat left_)
                    (dict_limit d - length (dict_buf d)))
               = (length in1 - pos + m)%nat)
    by (unfold m, dict_pos in *; lia).
  fold (dict_pos d). unfold dict_pos. rewrite Hm.
  rewrite firstn_skipn_split by lia. rewrite Hn, app_assoc.
  clearbody m n. clear Hm Hlen Hp Hn.
  replace (pos + (length in1 - pos + m))%nat with (length in1 + m)%nat
    by lia.
  replace (left_ - N.of_nat (length in1 - pos + m))%N
    with (left_ - N.of_nat (length in1 - pos) - N.of_nat m)%N by lia.
  reflexivity.
Qed.

(** [dict_write] looks only at the input from [in_pos] on. *)
Lemma dict_write_shift d (in1 in2 : list byte) p left_ :
  dict_write d (in1 ++ in2) (length in1 + p) (length (in1 ++ in2)) left_
  = (let '(d', p', l') := dict_write d in2 p (length in2) left_ in
     (d', (length in1 + p')%nat, l')).
Proof.
  unfold dict_write. rewrite length_app, skipn_app_ge.
  replace (length in1 + length in2 - (length in1 + p))%nat
    with (length in2 - p)%nat by lia.
  now rewrite Nat.add_assoc.
Qed.

Lemma size_sub_shift (n a b : nat) :
  size_sub (N.of_nat (n + a)) (N.of_nat (n + b))
  = size_sub (N.of_nat a) (N.of_nat b).
Proof. unfold size_sub. f_equal. f_equal. lia. Qed.

Lemma in_at_app1 (in1 in2 : list byte) (pos : nat) :
  (pos < length in1)%nat -> in_at (in1 ++ in2) pos = in_at in1 pos.
Proof. intro H. unfold in_at. now rewrite app_nth1. Qed.

Lemma in_at_app2 (in1 in2 : list byte) (p : nat) :
  in_at (in1 ++ in2) (length in1 + p) = in_at in2 p.
Proof. unfold in_at. now rewrite app_nth2_plus. Qed.

Section Resumption.
Variable lz : Type.
Variable L : lzma_lz_decoder lz.
Variable dict_reset : lzma_dict -> lzma_dict.
Variable lzma_lzma_lclppb_decode :
  lzma_options_lzma -> N -> bool * lzma_options_lzma.
Hypothesis HL : lz_resumable L.

Abbreviation iter := (lzma2_iter L dict_reset lzma_lzma_lclppb_decode).
Abbreviation loop := (lzma2_decode_loop L dict_reset lzma_lzma_lclppb_decode).
Abbreviation decode := (lzma2_decode L dict_reset lzma_lzma_lclppb_decode).
Abbreviation runs := (decodes L dict_reset lzma_lzma_lclppb_decode).
Abbreviation feed := (lzma2_feed L dict_reset lzma_lzma_lclppb_decode).

Implicit Types (c : lzma_coder lz) (d : lzma_dict).

Lemma seq_control_pos c d in_ pos :
  snd (seq_control L dict_reset c d in_ pos) = S pos.
Proof.
  unfold seq_control, control_lzma_case2, control_copy_case2.
  repeat match goal with
    | |- context [if ?b then _ else _] => destruct b
    | |- context [match ?x with _ => _ end] => destruct x
    end; reflexivity.
Qed.

Lemma iter_pos_bound c d in_ pos f c' d' pos' :
  (pos <= length in_)%nat ->
  loop_cond c pos (length in_) = true ->
  iter c d in_ pos (length in_) = (f, c', d', pos') ->
  (pos <= pos' <= length in_)%nat.
Proof.
  intros Hpos Hc Hi. unfold loop_cond in Hc. unfold lzma2_iter in Hi.
  destruct (sequence c) eqn:Hs; cbn [is_SEQ_LZMA] in Hc;
    try (rewrite orb_false_r in Hc; apply Nat.ltb_lt in Hc).
  - pose proof (seq_control_pos c d in_ pos) as Hp. rewrite Hi in Hp.
    cbn in Hp. lia.
  - inversion Hi; lia.
  - inversion Hi; lia.
  - inversion Hi; lia.
  - inversion Hi; lia.
  - destruct (lzma_lzma_lclppb_decode _ _) as [[|] o]; inversion Hi; lia.
  - unfold seq_lzma in Hi.
    pose proof (lz_advance HL (lzma c) d in_ pos (length in_)) as Ha.
    pose proof (lz_bounded HL (lzma c) d in_ Hpos) as Hb.
    destruct (lz_code L (lzma c) d in_ pos (length in_)) as [[[r l] d1] p1].
    cbn [snd] in Ha, Hb.
    repeat match type of Hi with
      | context [if ?b then _ else _] => destruct b
      end; inversion Hi; subst; lia.
  - unfold seq_copy in Hi.
    pose proof (dict_write_pos d in_ pos (length in_) (compressed_size c))
      as [Ha Hb].
    destruct (dict_write d in_ pos (length in_) (compressed_size c))
      as [[d1 p1] l1].
    cbn [fst snd] in Ha, Hb.
    destruct (negb _); inversion Hi; subst; lia.
Qed.

Lemma loop_pos_bound fuel c d in_ pos r c' d' pos' :
  (pos <= length in_)%nat ->
  loop fuel c d in_ pos (length in_) = Some (r, c', d', pos') ->
  (pos <= pos' <= length in_)%nat.
Proof.
  revert c d pos.
  induction fuel as [|fuel IH]; intros c d pos Hpos Hl; [discriminate|].
  cbn [lzma2_decode_loop] in Hl.
  destruct (loop_cond c pos (length in_)) eqn:Hc.
  - destruct (iter c d in_ pos (length in_)) as [[[[|r1] c1] d1] p1] eqn:Hi;
      pose proof (iter_pos_bound _ _ _ Hpos Hc Hi) as Hb.
    + specialize (IH _ _ _ (proj2 Hb) Hl). lia.
    + inversion Hl; subst. exact Hb.
  - inversion Hl; subst. lia.
Qed.

(** A pass looks only at the input from [in_pos] on. *)
Lemma iter_shift c d (in1 in2 : list byte) p :
  iter c d (in1 ++ in2) (length in1 + p) (length (in1 ++ in2))
  = (let '(f, c', d', p') := iter c d in2 p (length in2) in
     (f, c', d', (length in1 + p')%nat)).
Proof.
  unfold lzma2_iter. rewrite in_at_app2.
  destruct (sequence c); try (rewrite <- plus_n_Sm; reflexivity).
  - rewrite (seq_control_byte L dict_reset c d in2 p
               (in1 ++ in2) (length in1 + p)) by (now rewrite in_at_app2).
    destruct (seq_control L dict_reset c d in2 p) as [[[f c'] d'] p'] eqn:E.
    pose proof (seq_control_pos c d in2 p) as Hp. rewrite E in Hp.
    cbn in Hp. subst p'. now rewrite <- plus_n_Sm.
  - destruct (lzma_lzma_lclppb_decode _ _) as [[|] o];
      rewrite <- plus_n_Sm; reflexivity.
  - unfold seq_lzma. rewrite (lz_window HL).
    destruct (lz_code L (lzma c) d in2 p (length in2)) as [[[r l] d1] p1].
    rewrite size_sub_shift.
    repeat match goal with
      | |- context [if ?b then _ else _] => destruct b
      end; reflexivity.
  - unfold seq_copy. rewrite dict_write_shift.
    destruct (dict_write d in2 p (length in2) (compressed_size c))
      as [[d1 p1] l1].
    destruct (negb _); reflexivity.
Qed.

Lemma loop_shift fuel c d (in1 in2 : list byte) p :
  loop fuel c d (in1 ++ in2) (length in1 + p) (length (in1 ++ in2))
  = option_map (shift_pos (length in1)) (loop fuel c d in2 p (length in2)).
Proof.
  revert c d p. induction fuel as [|fuel IH]; intros c d p; [reflexivity|].
  cbn [lzma2_decode_loop].
  assert (Hc : loop_cond c (length in1 + p) (length (in1 ++ in2))
               = loop_cond c p (length in2)).
  { unfold loop_cond. rewrite length_app. f_equal.
    destruct (Nat.ltb_spec p (length in2));
      destruct (Nat.ltb_spec (length in1 + p) (length in1 + length in2));
      try reflexivity; lia. }
  rewrite Hc, iter_shift.
  destruct (loop_cond c p (length in2)); [|reflexivity].
  destruct (iter c d in2 p (length in2)) as [[[[|r1] c1] d1] p1];
    [apply IH | reflexivity].
Qed.

Lemma decodes_shift c d (in1 in2 : list byte) p res :
  runs c d in2 p (length in2) res ->
  runs c d (in1 ++ in2) (length in1 + p) (length (in1 ++ in2))
    (shift_pos (length in1) res).
Proof.
  intros [fuel H]. exists fuel. now rewrite loop_shift, H.
Qed.

Lemma iter_header_app c d (in1 in2 : list byte) pos s1 s2 :
  header_phase (sequence c) = true ->
  (pos < length in1)%nat ->
  iter c d (in1 ++ in2) pos s2 = iter c d in1 pos s1.
Proof.
  intros Hh Hpos. unfold lzma2_iter.
  destruct (sequence c); try discriminate Hh;
    rewrite ?in_at_app1 by exact Hpos; try reflexivity.
  rewrite (seq_control_byte L dict_reset c d in1 pos (in1 ++ in2) pos)
    by (now rewrite in_at_app1).
  destruct (seq_control L dict_reset c d in1 pos) as [[[f c'] d'] p'] eqn:E.
  pose proof (seq_control_pos c d in1 pos) as Hp. rewrite E in Hp.
  cbn in Hp. now subst p'.
Qed.

Lemma iter_header_flow c d in_ pos size f c' d' pos' :
  header_phase (sequence c) = true ->
  iter c d in_ pos size = (f, c', d', pos') ->
  f <> Return LZMA_OK.
Proof.
  intros Hh Hi. unfold lzma2_iter in Hi.
  destruct (sequence c); try discriminate Hh.
  - unfold seq_control, control_lzma_case2, control_copy_case2 in Hi.
    repeat match type of Hi with
      | context [if ?b then _ else _] => destruct b
      | context [match ?x with _ => _ end] => destruct x
      end; inversion Hi; discriminate.
  - inversion Hi; discriminate.
  - inversion Hi; discriminate.
  - inversion Hi; discriminate.
  - inversion Hi; discriminate.
  - destruct (lzma_lzma_lclppb_decode _ _) as [[|] o];
      inversion Hi; discriminate.
Qed.

(** One pass on a buffer, and on the buffer with more input appended:
    the pass is the same; or it returned [LZMA_OK] at the end of the
    shorter buffer and the pass on the longer buffer is the first pass of
    the next call; or it failed. *)
Lemma iter_extend c d (in1 in2 : list byte) pos f c' d' p' :
  (pos <= length in1)%nat ->
  (N.of_nat (length (in1 ++ in2)) < SIZE_MOD)%N ->
  loop_cond c pos (length in1) = true ->
  iter c d in1 pos (length in1) = (f, c', d', p') ->
  (iter c d (in1 ++ in2) pos (length (in1 ++ in2)) = (f, c', d', p') /\
   (f = Return LZMA_OK -> p' = length in1 ->
    runs c' d' (in1 ++ in2) (length in1) (length (in1 ++ in2))
      (LZMA_OK, c', d', length in1))) \/
  (f = Return LZMA_OK /\ p' = length in1 /\
   loop_cond c' (length in1) (length (in1 ++ in2)) = true /\
   (iter c d (in1 ++ in2) pos (length (in1 ++ in2))
    = iter c' d' (in1 ++ in2) (length in1) (length (in1 ++ in2)) \/
    fst (fst (fst (iter c' d' (in1 ++ in2) (length in1)
                     (length (in1 ++ in2)))))
    = Return LZMA_DATA_ERROR)) \/
  f = Return LZMA_DATA_ERROR.
Proof.
  intros Hpos Hsz Hc Hi.
  destruct (header_phase (sequence c)) eqn:Hh.
  { (* a header byte *)
    left. split.
    - rewrite <- Hi. apply iter_header_app; [exact Hh|].
      unfold loop_cond in Hc.
      destruct (sequence c); try discriminate Hh;
        cbn [is_SEQ_LZMA] in Hc; rewrite orb_false_r in Hc;
        now apply Nat.ltb_lt in Hc.
    - intro Hf. exfalso. exact (iter_header_flow _ _ _ _ _ Hh Hi Hf). }
  rewrite length_app in Hsz.
  unfold lzma2_iter in *. destruct (sequence c) eqn:Hs; try discriminate Hh.
  - (* SEQ_LZMA *)
    unfold seq_lzma in *.
    pose proof (lz_advance HL (lzma c) d in1 pos (length in1)) as Ha.
    pose proof (lz_bounded HL (lzma c) d in1 Hpos) as Hb.
    pose proof (@lz_stable _ _ HL (lzma c) d in1 in2 pos) as Hst.
    pose proof (@lz_resume _ _ HL (lzma c) d in1 in2 pos) as Hre.
    destruct (lz_code L (lzma c) d in1 pos (length in1))
      as [[[ret l1] dA] pA].
    cbn [snd] in Ha, Hb.
    cbn [compressed_size set_lzma set_compressed_size] in Hi.
    rewrite size_sub_nat in Hi by lia.
    destruct (N.ltb_spec (compressed_size c) (N.of_nat (pA - pos)))
      as [G | G].
    { right; right. now inversion Hi. }
    destruct (lzma_ret_eqb ret LZMA_OK && (pA =? length in1)%nat) eqn:E.
    + (* the decoder wants more input *)
      apply andb_prop in E. destruct E as [E1 E2].
      apply lzma_ret_eqb_eq in E1. apply Nat.eqb_eq in E2. subst ret pA.
      cbn [lzma_ret_eqb negb] in Hi. inversion Hi; subst f c' d' p'.
      clear Hi. right; left.
      split; [reflexivity|]. split; [reflexivity|].
      split; [unfold loop_cond; cbn; rewrite Hs; apply orb_true_r|].
      cbn [sequence set_lzma set_compressed_size]. rewrite Hs.
      cbn [lzma set_lzma set_compressed_size].
      rewrite (Hre l1 dA Hpos eq_refl).
      assert (Hn1 : (length in1 <= length (in1 ++ in2))%nat)
        by (rewrite length_app; lia).
      pose proof (lz_advance HL l1 dA (in1 ++ in2) (length in1)
                    (length (in1 ++ in2))) as Ha2.
      pose proof (lz_bounded HL l1 dA (in1 ++ in2) Hn1) as Hb2.
      destruct (lz_code L l1 dA (in1 ++ in2) (length in1)
                  (length (in1 ++ in2))) as [[[r2 l2] d2] p2].
      cbn [snd] in Ha2, Hb2. rewrite length_app in Hb2.
      cbn [compressed_size set_lzma set_compressed_size].
      rewrite !size_sub_nat by lia.
      destruct (N.ltb_spec (compressed_size c - N.of_nat (length in1 - pos))
                  (N.of_nat (p2 - length in1))) as [G2 | G2].
      { right. reflexivity. }
      left.
      destruct (N.ltb_spec (compressed_size c) (N.of_nat (p2 - pos)))
        as [G3 | G3]; [lia|].
      replace (compressed_size c - N.of_nat (length in1 - pos)
               - N.of_nat (p2 - length in1))%N
        with (compressed_size c - N.of_nat (p2 - pos))%N by lia.
      reflexivity.
    + (* more input changes nothing *)
      assert (Hne : ret <> LZMA_OK \/ (pA < length in1)%nat).
      { apply andb_false_iff in E. destruct E as [E | E].
        - left. now apply lzma_ret_eqb_neq.
        - right. apply Nat.eqb_neq in E. lia. }
      left. rewrite (Hst _ _ _ _ Hpos eq_refl Hne).
      cbn [compressed_size set_lzma set_compressed_size].
      rewrite size_sub_nat by lia.
      destruct (N.ltb_spec (compressed_size c) (N.of_nat (pA - pos)))
        as [G3 | G3]; [lia|].
      split; [exact Hi|].
      intros Hf Hp. exfalso.
      destruct (lzma_ret_eqb ret LZMA_STREAM_END) eqn:Ee; cbn [negb] in Hi.
      * destruct (negb _); inversion Hi; subst; discriminate.
      * inversion Hi; subst. inversion H0; subst.
        destruct Hne as [Hne | Hne]; [now apply Hne | lia].
  - (* SEQ_COPY *)
    assert (Hlt : (pos < length in1)%nat).
    { unfold loop_cond in Hc. rewrite Hs in Hc. cbn in Hc.
      rewrite orb_false_r in Hc. now apply Nat.ltb_lt in Hc. }
    unfold seq_copy in *.
    pose proof (@dict_write_stable d in1 in2 pos (compressed_size c)) as Hst.
    pose proof (@dict_write_resume d in1 in2 pos (compressed_size c)) as Hre.
    pose proof (dict_write_pos d in1 pos (length in1) (compressed_size c))
      as [_ Hb].
    specialize (Hb Hpos).
    destruct (dict_write d in1 pos (length in1) (compressed_size c))
      as [[dA pA] lA].
    cbn [fst snd] in Hb.
    cbn [compressed_size set_compressed_size] in Hi.
    destruct ((pA <? length in1)%nat || (lA =? 0)%N
              || match in2 with [] => true | _ => false end) eqn:E.
    + assert (Hdis : (pA < length in1)%nat \/ lA = 0%N \/ in2 = []).
      { apply orb_prop in E. destruct E as [E | E].
        - apply orb_prop in E. destruct E as [E | E].
          + left. now apply Nat.ltb_lt.
          + right; left. now apply N.eqb_eq.
        - right; right. now destruct in2. }
      left. rewrite (Hst _ _ _ Hpos eq_refl Hdis).
      cbn [compressed_size set_compressed_size].
      split; [exact Hi|].
      intros Hf Hp.
      destruct (N.eqb_spec lA 0) as [Hz | Hz]; cbn [negb] in Hi;
        inversion Hi; subst f c' d' p'; try discriminate.
      destruct Hdis as [Hd | [Hd | Hd]]; [lia | contradiction |].
      subst in2. apply decodes_exit.
      unfold loop_cond. rewrite app_nil_r, Nat.ltb_irrefl.
      cbn [sequence set_compressed_size]. rewrite Hs. reflexivity.
    + apply orb_false_elim in E. destruct E as [E E3].
      apply orb_false_elim in E. destruct E as [E1 E2].
      apply Nat.ltb_ge in E1. apply N.eqb_neq in E2.
      assert (HpA : pA = length in1) by lia.
      subst pA.
      destruct (N.eqb_spec lA 0) as [Hz | Hz]; [contradiction|].
      cbn [negb] in Hi. inversion Hi; subst f c' d' p'. clear Hi.
      right; left.
      split; [reflexivity|]. split; [reflexivity|]. split.
      * unfold loop_cond. rewrite length_app.
        destruct in2 as [|x in2]; [discriminate|]. cbn [length].
        destruct (Nat.ltb_spec (length in1) (length in1 + S (length in2)));
          [reflexivity | lia].
      * left. cbn [sequence set_compressed_size]. rewrite Hs.
        cbn [compressed_size]. rewrite (Hre _ _ Hpos eq_refl).
        reflexivity.
Qed.

Lemma loop_cond_app c pos (in1 in2 : list byte) :
  loop_cond c pos (length in1) = true ->
  loop_cond c pos (length (in1 ++ in2)) = true.
Proof.
  unfold loop_cond. rewrite length_app. intro H.
  apply orb_prop in H. destruct H as [H | H].
  - apply Nat.ltb_lt in H.
    destruct (Nat.ltb_spec pos (length in1 + length in2)); [reflexivity|lia].
  - rewrite H. apply orb_true_r.
Qed.

Lemma runs_same_iter c d c1 d1 in_ pos p1 size res :
  loop_cond c pos size = true ->
  loop_cond c1 p1 size = true ->
  iter c d in_ pos size = iter c1 d1 in_ p1 size ->
  runs c1 d1 in_ p1 size res -> runs c d in_ pos size res.
Proof.
  intros Hc Hc1 He [fuel Hf]. destruct fuel as [|fuel]; [discriminate|].
  exists (S fuel). cbn [lzma2_decode_loop] in *.
  rewrite Hc1 in Hf. now rewrite Hc, He.
Qed.

Lemma runs_first_error c d in_ pos size r c2 d2 p2 :
  loop_cond c pos size = true ->
  fst (fst (fst (iter c d in_ pos size))) = Return LZMA_DATA_ERROR ->
  runs c d in_ pos size (r, c2, d2, p2) -> r = LZMA_DATA_ERROR.
Proof.
  intros Hc He [fuel Hf]. destruct fuel as [|fuel]; [discriminate|].
  cbn [lzma2_decode_loop] in Hf. rewrite Hc in Hf.
  destruct (iter c d in_ pos size) as [[[f c'] d'] p'].
  cbn in He. subst f. now inversion Hf.
Qed.

(** A call used up its buffer and returned [LZMA_OK]: what the next call
    returns on the rest is what one call returns on the whole. *)
Lemma resume_gen (in1 in2 : list byte) :
  (N.of_nat (length (in1 ++ in2)) < SIZE_MOD)%N ->
  forall fuel c d pos c1 d1 r c2 d2 p2,
    (pos <= length in1)%nat ->
    loop fuel c d in1 pos (length in1)
    = Some (LZMA_OK, c1, d1, length in1) ->
    runs c1 d1 (in1 ++ in2) (length in1) (length (in1 ++ in2))
      (r, c2, d2, p2) ->
    r <> LZMA_DATA_ERROR ->
    runs c d (in1 ++ in2) pos (length (in1 ++ in2)) (r, c2, d2, p2).
Proof.
  intros Hsz fuel.
  induction fuel as [|fuel IH];
    intros c d pos c1 d1 r c2 d2 p2 Hpos Hl Hruns Hr; [discriminate|].
  cbn [lzma2_decode_loop] in Hl.
  destruct (loop_cond c pos (length in1)) eqn:Hc.
  - destruct (iter c d in1 pos (length in1)) as [[[f c'] d'] p'] eqn:Hi.
    pose proof (loop_cond_app c pos in1 in2 Hc) as HcW.
    destruct (iter_extend c d in1 in2 Hpos Hsz Hc Hi)
      as [[Hw Hidem] | [(Hf & Hp & Hc' & Hor) | Hf]].
    + destruct f as [|r0].
      * pose proof (iter_pos_bound _ _ _ Hpos Hc Hi) as Hb.
        apply (decodes_break L dict_reset lzma_lzma_lclppb_decode
                 c d (in1 ++ in2) pos (length (in1 ++ in2))
                 (r, c2, d2, p2) HcW Hw).
        eapply IH; [apply Hb | exact Hl | exact Hruns | exact Hr].
      * inversion Hl; subst r0 c' d' p'.
        specialize (Hidem eq_refl eq_refl).
        rewrite (decodes_det Hruns Hidem).
        eapply decodes_return; [exact HcW | exact Hw].
    + subst f p'. inversion Hl; subst c' d'.
      destruct Hor as [He | He].
      * eapply runs_same_iter; [exact HcW | exact Hc' | exact He |].
        exact Hruns.
      * exfalso. apply Hr.
        eapply runs_first_error; [exact Hc' | exact He | exact Hruns].
    + subst f. discriminate Hl.
  - inversion Hl; subst. exact Hruns.
Qed.

(** A call that did not stop at the end of its buffer with [LZMA_OK]:
    more input behind the buffer changes nothing. *)
Lemma prefix_gen (in1 in2 : list byte) :
  (N.of_nat (length (in1 ++ in2)) < SIZE_MOD)%N ->
  forall fuel c d pos r c1 d1 p1,
    (pos <= length in1)%nat ->
    loop fuel c d in1 pos (length in1) = Some (r, c1, d1, p1) ->
    r <> LZMA_OK \/ (p1 < length in1)%nat ->
    r <> LZMA_DATA_ERROR ->
    runs c d (in1 ++ in2) pos (length (in1 ++ in2)) (r, c1, d1, p1).
Proof.
  intros Hsz fuel.
  induction fuel as [|fuel IH];
    intros c d pos r c1 d1 p1 Hpos Hl Hne Hr; [discriminate|].
  cbn [lzma2_decode_loop] in Hl.
  destruct (loop_cond c pos (length in1)) eqn:Hc.
  - destruct (iter c d in1 pos (length in1)) as [[[f c'] d'] p'] eqn:Hi.
    pose proof (loop_cond_app c pos in1 in2 Hc) as HcW.
    destruct (iter_extend c d in1 in2 Hpos Hsz Hc Hi)
      as [[Hw _] | [(Hf & Hp & _) | Hf]].
    + destruct f as [|r0].
      * pose proof (iter_pos_bound _ _ _ Hpos Hc Hi) as Hb.
        apply (decodes_break L dict_reset lzma_lzma_lclppb_decode
                 c d (in1 ++ in2) pos (length (in1 ++ in2))
                 (r, c1, d1, p1) HcW Hw).
        eapply IH; [apply Hb | exact Hl | exact Hne | exact Hr].
      * inversion Hl; subst r0 c' d' p'.
        eapply decodes_return; [exact HcW | exact Hw].
    + subst f p'. inversion Hl; subst. destruct Hne as [Hne | Hne]; [|lia].
      now elim Hne.
    + subst f. inversion Hl; subst. now elim Hr.
  - inversion Hl; subst. exfalso.
    unfold loop_cond in Hc. apply orb_false_elim in Hc.
    destruct Hc as [Hc _]. apply Nat.ltb_ge in Hc.
    destruct Hne as [Hne | Hne]; [now elim Hne | lia].
Qed.

(** A pass that fails on a buffer, or whose continuation in the next call
    fails, fails on the buffer with more input appended as well. *)
Lemma iter_extend_error c d (in1 in2 : list byte) pos f c' d' p' :
  (pos <= length in1)%nat ->
  (N.of_nat (length (in1 ++ in2)) < SIZE_MOD)%N ->
  loop_cond c pos (length in1) = true ->
  iter c d in1 pos (length in1) = (f, c', d', p') ->
  f = Return LZMA_DATA_ERROR \/
  (f = Return LZMA_OK /\ p' = length in1 /\
   fst (fst (fst (iter c' d' (in1 ++ in2) (length in1)
                    (length (in1 ++ in2)))))
   = Return LZMA_DATA_ERROR) ->
  fst (fst (fst (iter c d (in1 ++ in2) pos (length (in1 ++ in2)))))
  = Return LZMA_DATA_ERROR.
Proof.
  intros Hpos Hsz Hc Hi Hcase.
  destruct (header_phase (sequence c)) eqn:Hh.
  { assert (Hlt : (pos < length in1)%nat).
    { unfold loop_cond in Hc.
      destruct (sequence c); try discriminate Hh;
        cbn [is_SEQ_LZMA] in Hc; rewrite orb_false_r in Hc;
        now apply Nat.ltb_lt in Hc. }
    rewrite (@iter_header_app c d in1 in2 pos (length in1)
               (length (in1 ++ in2)) Hh Hlt), Hi.
    cbn [fst]. destruct Hcase as [Hf | (Hf & _)]; [exact Hf|].
    exfalso. exact (iter_header_flow _ _ _ _ _ Hh Hi Hf). }
  rewrite length_app in Hsz.
  unfold lzma2_iter in Hi |- *.
  destruct (sequence c) eqn:Hs; try discriminate Hh.
  - (* SEQ_LZMA *)
    unfold seq_lzma in Hi |- *.
    pose proof (lz_advance HL (lzma c) d in1 pos (length in1)) as Ha.
    pose proof (lz_bounded HL (lzma c) d in1 Hpos) as Hb.
    pose proof (@lz_stable _ _ HL (lzma c) d in1 in2 pos) as Hst.
    pose proof (@lz_resume _ _ HL (lzma c) d in1 in2 pos) as Hre.
    destruct (lz_code L (lzma c) d in1 pos (length in1))
      as [[[ret l1] dA] pA].
    cbn [snd] in Ha, Hb.
    cbn [compressed_size set_lzma set_compressed_size] in Hi.
    rewrite size_sub_nat in Hi by lia.
    destruct (lzma_ret_eqb ret LZMA_OK && (pA =? length in1)%nat) eqn:E.
    + (* the decoder wants more input *)
      apply andb_prop in E. destruct E as [E1 E2].
      apply lzma_ret_eqb_eq in E1. apply Nat.eqb_eq in E2. subst ret pA.
      rewrite (Hre l1 dA Hpos eq_refl).
      assert (Hn1 : (length in1 <= length (in1 ++ in2))%nat)
        by (rewrite length_app; lia).
      pose proof (lz_advance HL l1 dA (in1 ++ in2) (length in1)
                    (length (in1 ++ in2))) as Ha2.
      pose proof (lz_bounded HL l1 dA (in1 ++ in2) Hn1) as Hb2.
      destruct (lz_code L l1 dA (in1 ++ in2) (length in1)
                  (length (in1 ++ in2))) as [[[r2 l2] d2] p2] eqn:Ecode.
      cbn [snd] in Ha2, Hb2. rewrite length_app in Hb2.
      cbn [compressed_size set_lzma set_compressed_size].
      rewrite size_sub_nat by lia.
      destruct (N.ltb_spec (compressed_size c) (N.of_nat (p2 - pos)))
        as [G3 | G3]; [reflexivity|].
      destruct (N.ltb_spec (compressed_size c)
                  (N.of_nat (length in1 - pos))) as [G | G]; [lia|].
      cbn [lzma_ret_eqb negb] in Hi. inversion Hi; subst f c' d' p'.
      clear Hi.
      destruct Hcase as [Hf | (_ & _ & Hres)]; [discriminate Hf|].
      unfold lzma2_iter in Hres.
      cbn [sequence set_lzma set_compressed_size] in Hres.
      rewrite Hs in Hres. unfold seq_lzma in Hres.
      cbn [lzma set_lzma set_compressed_size] in Hres.
      rewrite Ecode in Hres.
      cbn [compressed_size set_lzma set_compressed_size] in Hres.
      rewrite size_sub_nat in Hres by lia.
      destruct (N.ltb_spec (compressed_size c - N.of_nat (length in1 - pos))
                  (N.of_nat (p2 - length in1))) as [G2 | G2]; [lia|].
      replace (compressed_size c - N.of_nat (length in1 - pos)
               - N.of_nat (p2 - length in1))%N
        with (compressed_size c - N.of_nat (p2 - pos))%N in Hres by lia.
      destruct (negb (lzma_ret_eqb r2 LZMA_STREAM_END)); [exact Hres|].
      destruct (negb (compressed_size c - N.of_nat (p2 - pos) =? 0)%N);
        [reflexivity | exact Hres].
    + (* more input changes nothing *)
      assert (Hne : ret <> LZMA_OK \/ (pA < length in1)%nat).
      { apply andb_false_iff in E. destruct E as [E | E].
        - left. now apply lzma_ret_eqb_neq.
        - right. apply Nat.eqb_neq in E. lia. }
      rewrite (Hst _ _ _ _ Hpos eq_refl Hne).
      cbn [compressed_size set_lzma set_compressed_size].
      rewrite size_sub_nat by lia. rewrite Hi. cbn [fst].
      destruct Hcase as [Hf | (Hf & Hp & _)]; [exact Hf|]. exfalso.
      subst f p'.
      destruct (N.ltb_spec (compressed_size c) (N.of_nat (pA - pos)));
        [discriminate Hi|].
      destruct (lzma_ret_eqb ret LZMA_STREAM_END) eqn:Ee; cbn [negb] in Hi.
      * destruct (negb _); discriminate Hi.
      * inversion Hi; subst.
        destruct Hne as [Hne | Hne]; [now apply Hne | lia].
  - (* SEQ_COPY *)
    exfalso. unfold seq_copy in Hi.
    destruct (dict_write d in1 pos (length in1) (compressed_size c))
      as [[dA pA] lA].
    destruct (negb (compressed_size (set_compressed_size lA c) =? 0)%N);
      inversion Hi; subst f c' d' p';
      destruct Hcase as [Hf | (Hf & _ & Hres)]; try discriminate Hf.
    unfold lzma2_iter in Hres. cbn [sequence set_compressed_size] in Hres.
    rewrite Hs in Hres. unfold seq_copy in Hres.
    destruct (dict_write _ _ _ _ _) as [[dB pB] lB] in Hres.
    destruct (negb _) in Hres; discriminate Hres.
Qed.

Lemma runs_error_first c d in_ pos size :
  loop_cond c pos size = true ->
  fst (fst (fst (iter c d in_ pos size))) = Return LZMA_DATA_ERROR ->
  exists c2 d2 p2, runs c d in_ pos size (LZMA_DATA_ERROR, c2, d2, p2).
Proof.
  intros Hc He.
  destruct (iter c d in_ pos size) as [[[f c2] d2] p2] eqn:Hi.
  cbn [fst] in He. subst f. exists c2, d2, p2.
  now apply decodes_return.
Qed.

(** A call used up its buffer and returned [LZMA_OK], and the next call
    fails on the rest: one call on the whole fails. *)
Lemma resume_error (in1 in2 : list byte) :
  (N.of_nat (length (in1 ++ in2)) < SIZE_MOD)%N ->
  forall fuel c d pos c1 d1 c2 d2 p2,
    (pos <= length in1)%nat ->
    loop fuel c d in1 pos (length in1)
    = Some (LZMA_OK, c1, d1, length in1) ->
    runs c1 d1 (in1 ++ in2) (length in1) (length (in1 ++ in2))
      (LZMA_DATA_ERROR, c2, d2, p2) ->
    exists c3 d3 p3,
      runs c d (in1 ++ in2) pos (length (in1 ++ in2))
        (LZMA_DATA_ERROR, c3, d3, p3).
Proof.
  intros Hsz fuel.
  induction fuel as [|fuel IH];
    intros c d pos c1 d1 c2 d2 p2 Hpos Hl Hruns; [discriminate|].
  cbn [lzma2_decode_loop] in Hl.
  destruct (loop_cond c pos (length in1)) eqn:Hc.
  - destruct (iter c d in1 pos (length in1)) as [[[f c'] d'] p'] eqn:Hi.
    pose proof (loop_cond_app c pos in1 in2 Hc) as HcW.
    destruct (iter_extend c d in1 in2 Hpos Hsz Hc Hi)
      as [[Hw Hidem] | [(Hf & Hp & Hc' & Hor) | Hf]].
    + destruct f as [|r0].
      * pose proof (iter_pos_bound _ _ _ Hpos Hc Hi) as Hb.
        destruct (IH c' d' p' c1 d1 c2 d2 p2 (proj2 Hb) Hl Hruns)
          as (c3 & d3 & p3 & H3).
        exists c3, d3, p3.
        now apply (decodes_break L dict_reset lzma_lzma_lclppb_decode
                     c d (in1 ++ in2) pos (length (in1 ++ in2))
                     (LZMA_DATA_ERROR, c3, d3, p3) HcW Hw).
      * inversion Hl; subst r0 c' d' p'.
        specialize (Hidem eq_refl eq_refl).
        pose proof (decodes_det Hruns Hidem) as Ed. discriminate Ed.
    + subst f p'. inversion Hl; subst c' d'.
      destruct Hor as [He | He].
      * exists c2, d2, p2.
        eapply runs_same_iter; [exact HcW | exact Hc' | exact He |].
        exact Hruns.
      * apply runs_error_first; [exact HcW|].
        apply (@iter_extend_error c d in1 in2 pos (Return LZMA_OK)
                 c1 d1 (length in1) Hpos Hsz Hc Hi).
        right. split; [reflexivity|]. split; [reflexivity | exact He].
    + subst f. discriminate Hl.
  - inversion Hl; subst. exists c2, d2, p2. exact Hruns.
Qed.

(** A call that fails on a buffer fails with more input behind it. *)
Lemma prefix_error (in1 in2 : list byte) :
  (N.of_nat (length (in1 ++ in2)) < SIZE_MOD)%N ->
  forall fuel c d pos c1 d1 p1,
    (pos <= length in1)%nat ->
    loop fuel c d in1 pos (length in1)
    = Some (LZMA_DATA_ERROR, c1, d1, p1) ->
    exists c3 d3 p3,
      runs c d (in1 ++ in2) pos (length (in1 ++ in2))
        (LZMA_DATA_ERROR, c3, d3, p3).
Proof.
  intros Hsz fuel.
  induction fuel as [|fuel IH];
    intros c d pos c1 d1 p1 Hpos Hl; [discriminate|].
  cbn [lzma2_decode_loop] in Hl.
  destruct (loop_cond c pos (length in1)) eqn:Hc; [|discriminate Hl].
  destruct (iter c d in1 pos (length in1)) as [[[f c'] d'] p'] eqn:Hi.
  pose proof (loop_cond_app c pos in1 in2 Hc) as HcW.
  destruct f as [|r0].
  - destruct (iter_extend c d in1 in2 Hpos Hsz Hc Hi)
      as [[Hw _] | [(Hf & _) | Hf]]; try discriminate Hf.
    pose proof (iter_pos_bound _ _ _ Hpos Hc Hi) as Hb.
    destruct (IH c' d' p' c1 d1 p1 (proj2 Hb) Hl) as (c3 & d3 & p3 & H3).
    exists c3, d3, p3.
    now apply (decodes_break L dict_reset lzma_lzma_lclppb_decode
                 c d (in1 ++ in2) pos (length (in1 ++ in2))
                 (LZMA_DATA_ERROR, c3, d3, p3) HcW Hw).
  - inversion Hl; subst r0 c' d' p'.
    apply runs_error_first; [exact HcW|].
    apply (@iter_extend_error c d in1 in2 pos (Return LZMA_DATA_ERROR)
             c1 d1 p1 Hpos Hsz Hc Hi).
    now left.
Qed.

Lemma feed_base c d pieces base :
  feed c d pieces base = option_map (shift_pos base) (feed c d pieces 0).
Proof.
  revert c d base. induction pieces as [|p rest IH]; intros c d base.
  - cbn. now rewrite Nat.add_0_r.
  - cbn [lzma2_feed].
    destruct (decode c d p 0 (length p)) as [[[[r c'] d'] pos]|];
      [|reflexivity].
    destruct (lzma_ret_eqb r LZMA_OK && (pos =? length p)%nat).
    + rewrite (IH c' d' (base + length p)%nat).
      rewrite (IH c' d' (0 + length p)%nat).
      destruct (feed c' d' rest 0) as [[[[r2 c2] d2] p2]|]; [|reflexivity].
      cbn. now rewrite Nat.add_assoc.
    + reflexivity.
Qed.

Lemma feed_runs rest :
  forall p c d r c' d' pos,
    (N.of_nat (length (p ++ concat rest)) < SIZE_MOD)%N ->
    feed c d (p :: rest) 0 = Some (r, c', d', pos) ->
    r <> LZMA_DATA_ERROR ->
    runs c d (p ++ concat rest) 0 (length (p ++ concat rest))
      (r, c', d', pos).
Proof.
  induction rest as [|q rest IH]; intros p c d r c' d' pos Hsz Hf Hr.
  - cbn [lzma2_feed] in Hf. cbn [concat]. rewrite app_nil_r.
    destruct (decode c d p 0 (length p)) as [[[[r1 c1] d1] p1]|] eqn:Hd;
      [|discriminate].
    apply decode_decodes.
    destruct (lzma_ret_eqb r1 LZMA_OK && (p1 =? length p)%nat) eqn:E.
    + apply andb_prop in E. destruct E as [E1 E2].
      apply lzma_ret_eqb_eq in E1. apply Nat.eqb_eq in E2.
      inversion Hf; subst. exact Hd.
    + inversion Hf; subst. exact Hd.
  - remember (q :: rest) as qs eqn:Hqs.
    cbn [lzma2_feed] in Hf. subst qs. cbn [concat].
    destruct (decode c d p 0 (length p)) as [[[[r1 c1] d1] p1]|] eqn:Hd;
      [|discriminate].
    pose proof (@loop_pos_bound (lzma2_fuel 0 (length p)) c d p 0%nat
                  r1 c1 d1 p1 (Nat.le_0_l _) Hd) as Hb.
    destruct (lzma_ret_eqb r1 LZMA_OK && (p1 =? length p)%nat) eqn:E.
    + apply andb_prop in E. destruct E as [E1 E2].
      apply lzma_ret_eqb_eq in E1. apply Nat.eqb_eq in E2. subst r1 p1.
      rewrite feed_base in Hf.
      destruct (feed c1 d1 (q :: rest) 0) as [[[[r2 c2] d2] p2]|] eqn:Hf2;
        [|discriminate].
      cbn in Hf. inversion Hf; subst r2 c2 d2 pos. clear Hf.
      assert (Hsz2 : (N.of_nat (length (q ++ concat rest)) < SIZE_MOD)%N).
      { cbn [concat] in Hsz. rewrite length_app in Hsz. lia. }
      pose proof (IH q c1 d1 r c' d' p2 Hsz2 Hf2 Hr) as Hruns.
      apply (@decodes_shift c1 d1 p (q ++ concat rest) 0%nat) in Hruns.
      rewrite Nat.add_0_r in Hruns. cbn [shift_pos] in Hruns.
      rewrite ?Nat.add_0_l.
      eapply resume_gen;
        [exact Hsz | apply Nat.le_0_l | exact Hd | exact Hruns | exact Hr].
    + inversion Hf; subst r1 c1 d1 pos. clear Hf.
      rewrite ?Nat.add_0_l.
      eapply prefix_gen;
        [exact Hsz | apply Nat.le_0_l | exact Hd | | exact Hr].
      apply andb_false_iff in E. destruct E as [E | E].
      * left. now apply lzma_ret_eqb_neq.
      * right. apply Nat.eqb_neq in E. lia.
Qed.

(** A stream that fails when handed over in pieces fails in one call. *)
Lemma feed_error rest :
  forall p c d c' d' pos,
    (N.of_nat (length (p ++ concat rest)) < SIZE_MOD)%N ->
    feed c d (p :: rest) 0 = Some (LZMA_DATA_ERROR, c', d', pos) ->
    exists c3 d3 p3,
      runs c d (p ++ concat rest) 0 (length (p ++ concat rest))
        (LZMA_DATA_ERROR, c3, d3, p3).
Proof.
  induction rest as [|q rest IH]; intros p c d c' d' pos Hsz Hf.
  - cbn [lzma2_feed] in Hf. cbn [concat]. rewrite app_nil_r.
    destruct (decode c d p 0 (length p)) as [[[[r1 c1] d1] p1]|] eqn:Hd;
      [|discriminate].
    exists c1, d1, p1. apply decode_decodes.
    destruct (lzma_ret_eqb r1 LZMA_OK && (p1 =? length p)%nat) eqn:E.
    + apply andb_prop in E. destruct E as [E1 _].
      apply lzma_ret_eqb_eq in E1. inversion Hf; subst; discriminate.
    + inversion Hf; subst. exact Hd.
  - remember (q :: rest) as qs eqn:Hqs.
    cbn [lzma2_feed] in Hf. subst qs. cbn [concat].
    destruct (decode c d p 0 (length p)) as [[[[r1 c1] d1] p1]|] eqn:Hd;
      [|discriminate].
    destruct (lzma_ret_eqb r1 LZMA_OK && (p1 =? length p)%nat) eqn:E.
    + apply andb_prop in E. destruct E as [E1 E2].
      apply lzma_ret_eqb_eq in E1. apply Nat.eqb_eq in E2. subst r1 p1.
      rewrite feed_base in Hf.
      destruct (feed c1 d1 (q :: rest) 0) as [[[[r2 c2] d2] p2]|] eqn:Hf2;
        [|discriminate].
      cbn in Hf. inversion Hf; subst r2 c2 d2 pos. clear Hf.
      assert (Hsz2 : (N.of_nat (length (q ++ concat rest)) < SIZE_MOD)%N).
      { cbn [concat] in Hsz. rewrite length_app in Hsz. lia. }
      destruct (IH q c1 d1 c' d' p2 Hsz2 Hf2) as (c3 & d3 & p3 & Hruns).
      apply (@decodes_shift c1 d1 p (q ++ concat rest) 0%nat) in Hruns.
      rewrite Nat.add_0_r in Hruns. cbn [shift_pos] in Hruns.
      eapply resume_error;
        [exact Hsz | apply Nat.le_0_l | exact Hd | exact Hruns].
    + inversion Hf; subst r1 c1 d1 pos. clear Hf.
      eapply prefix_error; [exact Hsz | apply Nat.le_0_l | exact Hd].
Qed.

Lemma feed_total pieces :
  forall c d base, exists res, feed c d pieces base = Some res.
Proof.
  induction pieces as [|p rest IH]; intros c d base; [cbn; eauto|].
  cbn [lzma2_feed].
  destruct (lzma2_decode_total dict_reset lzma_lzma_lclppb_decode
              c d p 0 (length p) (lz_advance HL)) as [[[[r c'] d'] pos] H].
  rewrite H.
  destruct (lzma_ret_eqb r LZMA_OK && (pos =? length p)%nat); eauto.
Qed.

(** C1.  Resumability.  Let the LZMA decoder behind [coder->lzma] be
    resumable.  Handing a stream to [lzma2_decode] piece by piece, cut at
    any byte boundaries, always comes to a result.  A valid stream, that is
    one on which a single call does not return [LZMA_DATA_ERROR], gives in
    pieces what it gives in one call: the same return value, the same
    coder, the same dictionary and the same number of bytes consumed; and
    the other way round, if the run in pieces does not end in
    [LZMA_DATA_ERROR], one call on the whole stream gives the same.  A
    call that runs out of input outside [SEQ_LZMA] returns [LZMA_OK] at
    once and leaves everything as it is, and a call in which the LZMA
    decoder returns [LZMA_OK] (it is blocked) returns [LZMA_OK] with the
    bytes used taken off [compressed_size]: the next call goes on from
    there. *)
Theorem lzma2_decode_resumable :
  (forall pieces c d, exists res, feed c d pieces 0 = Some res) /\
  (forall p rest c d r c' d' pos,
      (N.of_nat (length (concat (p :: rest))) < SIZE_MOD)%N ->
      feed c d (p :: rest) 0 = Some (r, c', d', pos) ->
      r <> LZMA_DATA_ERROR ->
      decode c d (concat (p :: rest)) 0 (length (concat (p :: rest)))
      = Some (r, c', d', pos)) /\
  (forall p rest c d r c' d' pos,
      (N.of_nat (length (concat (p :: rest))) < SIZE_MOD)%N ->
      decode c d (concat (p :: rest)) 0 (length (concat (p :: rest)))
      = Some (r, c', d', pos) ->
      r <> LZMA_DATA_ERROR ->
      feed c d (p :: rest) 0 = Some (r, c', d', pos)) /\
  (forall c d in_ size,
      is_SEQ_LZMA (sequence c) = false ->
      decode c d in_ size size = Some (LZMA_OK, c, d, size)) /\
  (forall c d in_ pos size l d1 p1,
      sequence c = SEQ_LZMA ->
      lz_code L (lzma c) d in_ pos size = (LZMA_OK, l, d1, p1) ->
      let in_used := size_sub (N.of_nat p1) (N.of_nat pos) in
      (in_used <= compressed_size c)%N ->
      decode c d in_ pos size
      = Some (LZMA_OK,
              set_compressed_size (compressed_size c - in_used)
                (set_lzma l c),
              d1, p1)).
Proof.
  split; [|split; [|split; [|split]]].
  - intros pieces c d. apply feed_total.
  - intros p rest c d r c' d' pos Hsz Hf Hr.
    apply decodes_decode; [exact (lz_advance HL)|].
    cbn [concat] in *. now apply feed_runs.
  - intros p rest c d r c' d' pos Hsz Hd Hr.
    apply decode_decodes in Hd. cbn [concat] in *.
    destruct (feed_total (p :: rest) c d 0) as [[[[r1 c1] d1] p1] Hf].
    rewrite Hf. f_equal.
    destruct (lzma_ret_eqb r1 LZMA_DATA_ERROR) eqn:E.
    + apply lzma_ret_eqb_eq in E. subst r1. exfalso.
      destruct (feed_error rest p c d Hsz Hf) as (c3 & d3 & p3 & He).
      pose proof (decodes_det Hd He) as Ed. apply Hr. now inversion Ed.
    + apply lzma_ret_eqb_neq in E.
      pose proof (feed_runs rest p c d Hsz Hf E) as Hw.
      exact (decodes_det Hw Hd).
  - intros c d in_ size Hs. apply decode_exit.
    unfold loop_cond. now rewrite Hs, Nat.ltb_irrefl.
  - intros c d in_ pos size l d1 p1 Hs Hcode in_used Hle.
    apply decode_return.
    + unfold loop_cond. rewrite Hs. apply orb_true_r.
    + unfold lzma2_iter. rewrite Hs. unfold seq_lzma. rewrite Hcode.
      cbn [compressed_size set_lzma]. fold in_used.
      destruct (N.ltb_spec (compressed_size c) in_used) as [G | G]; [lia|].
      reflexivity.
Qed.

End Resumption.

(** The stand-in decoder is resumable. *)
Lemma stored_decoder_resumable : lz_resumable stored_decoder.
Proof.
  split; cbn [lz_code stored_decoder]; unfold stored_code.
  - intros l d in_ pos size.
    pose proof (dict_write_pos d in_ pos size l) as [H _].
    destruct (dict_write d in_ pos size l) as [[d1 p1] l1]. exact H.
  - intros l d in_ pos Hpos.
    pose proof (dict_write_pos d in_ pos (length in_) l) as [_ H].
    destruct (dict_write d in_ pos (length in_) l) as [[d1 p1] l1].
    now apply H.
  - intros l d in1 in2 pos r l1 d1 p1 Hpos Hw Hne.
    destruct (dict_write d in1 pos (length in1) l) as [[dA pA] lA] eqn:E.
    inversion Hw; subst r l1 d1 p1. clear Hw.
    rewrite (@dict_write_stable d in1 in2 pos l dA pA lA Hpos E);
      [reflexivity|].
    destruct Hne as [Hne | Hne]; [|now left].
    right; left. destruct (N.eqb_spec lA 0); [assumption | now elim Hne].
  - intros l d in1 in2 pos l1 d1 Hpos Hw.
    destruct (dict_write d in1 pos (length in1) l) as [[dA pA] lA] eqn:E.
    inversion Hw; subst l1 d1 pA. clear Hw.
    now rewrite (@dict_write_resume d in1 in2 pos l dA lA Hpos E).
  - intros l d in1 in2 p. rewrite dict_write_shift.
    destruct (dict_write d in2 p (length in2) l) as [[d1 p1] l1].
    reflexivity.
Qed.

(** Witness for C1: the stream [E0 00 02 00 02 5D "abc" 00 01] (a chunk of
    three bytes, then the end marker) is accepted in one call; cut into
    three pieces, the first cut inside the header and the second inside
    the chunk, it gives the same; and from the run in pieces the single
    call follows again. *)
Lemma lzma2_decode_resumable_witness :
  let p := [xe0; x00] in
  let rest := [[x02; x00; x02; x5d; "a"%byte];
               ["b"%byte; "c"%byte; x00; x01]] in
  let c' := mk_coder SEQ_CONTROL SEQ_PROPERTIES 0%N 3%N 0%N false false
              (mk_options 4096 None 0 3 0 2) in
  let d' := mk_dict ["a"%byte; "b"%byte; "c"%byte] 4096 in
  sample_feed sample_coder sample_dict (p :: rest) 0
  = Some (LZMA_STREAM_END, c', d', 10%nat) /\
  sample_decode sample_coder sample_dict (concat (p :: rest)) 0
    (length (concat (p :: rest)))
  = Some (LZMA_STREAM_END, c', d', 10%nat).
Proof.
  intros p rest c' d'. unfold sample_feed, sample_decode.
  assert (Hd : lzma2_decode stored_decoder clearing_dict_reset
                 sample_lclppb_decode sample_coder sample_dict
                 (concat (p :: rest)) 0 (length (concat (p :: rest)))
               = Some (LZMA_STREAM_END, c', d', 10%nat))
    by (vm_compute; reflexivity).
  assert (Hsz : (N.of_nat (length (concat (p :: rest))) < SIZE_MOD)%N)
    by (vm_compute; reflexivity).
  assert (Hr : LZMA_STREAM_END <> LZMA_DATA_ERROR) by discriminate.
  destruct (@lzma2_decode_resumable N stored_decoder clearing_dict_reset
              sample_lclppb_decode stored_decoder_resumable)
    as (_ & Hwhole & Hpieces & _).
  pose proof (Hpieces p rest sample_coder sample_dict LZMA_STREAM_END c' d'
                10%nat Hsz Hd Hr) as Hf.
  split; [exact Hf|].
  exact (Hwhole p rest sample_coder sample_dict LZMA_STREAM_END c' d'
           10%nat Hsz Hf Hr).
Defined.

(** A stream that fails is outside C1: when a chunk declares fewer
    compressed bytes than the decoder uses, both ways of feeding return
    [LZMA_DATA_ERROR] at the same place, but [compressed_size] has been
    brought down by the earlier call in one and not in the other. *)
Example resumption_after_error_differs :
  let whole := [xe0; x00; x01; x00; x00; x5d; "a"%byte; "b"%byte] in
  let pieces := [[xe0; x00; x01; x00; x00; x5d; "a"%byte]; ["b"%byte]] in
  exists c1 c2 d',
    sample_decode sample_coder sample_dict whole 0 8
    = Some (LZMA_DATA_ERROR, c1, d', 8%nat) /\
    sample_feed sample_coder sample_dict pieces 0
    = Some (LZMA_DATA_ERROR, c2, d', 8%nat) /\
    compressed_size c1 = 1%N /\ compressed_size c2 = 0%N.
Proof.
  intros whole pieces. eexists. eexists. eexists.
  split; [vm_compute; reflexivity|].
  split; [vm_compute; reflexivity|]. split; reflexivity.
Qed.

(** * Further properties of [lzma2_decode] *)

(** ** How a call ends *)

Section CallResults.
Variable lz : Type.
Variable L : lzma_lz_decoder lz.
Variable dict_reset : lzma_dict -> lzma_dict.
Variable lzma_lzma_lclppb_decode :
  lzma_options_lzma -> N -> bool * lzma_options_lzma.

Abbreviation iter := (lzma2_iter L dict_reset lzma_lzma_lclppb_decode).
Abbreviation loop := (lzma2_decode_loop L dict_reset lzma_lzma_lclppb_decode).
Abbreviation decode := (lzma2_decode L dict_reset lzma_lzma_lclppb_decode).

Implicit Types (c : lzma_coder lz) (d : lzma_dict).

Lemma seq_control_next_pos c d in_ pos f c' d' pos' :
  seq_control L dict_reset c d in_ pos = (f, c', d', pos') -> pos' = S pos.
Proof.
  unfold seq_control, control_lzma_case2, control_copy_case2.
  repeat match goal with
    | |- context [if ?b then _ else _] => destruct b
    | |- context [match ?x with _ => _ end] => destruct x
    end; intro H; now inversion H.
Qed.

(** A pass moves [*in_pos] forward, and stays within [in_size]. *)
Lemma iter_in_bounds c d in_ pos size f c' d' pos' :
  lz_advances L ->
  loop_cond c pos size = true ->
  iter c d in_ pos size = (f, c', d', pos') ->
  (pos <= pos')%nat /\
  (lz_in_bounds L -> (pos <= size)%nat -> (pos' <= size)%nat).
Proof.
  intros Hadv Hc Hi. unfold loop_cond in Hc. unfold lzma2_iter in Hi.
  destruct (sequence c) eqn:Hs; cbn [is_SEQ_LZMA] in Hc;
    try (rewrite orb_false_r in Hc; apply Nat.ltb_lt in Hc).
  - apply seq_control_next_pos in Hi. lia.
  - inversion Hi; lia.
  - inversion Hi; lia.
  - inversion Hi; lia.
  - inversion Hi; lia.
  - destruct (lzma_lzma_lclppb_decode _ _) as [[|] o]; inversion Hi; lia.
  - unfold seq_lzma in Hi.
    pose proof (Hadv (lzma c) d in_ pos size) as Ha.
    assert (Hb : lz_in_bounds L -> (pos <= size)%nat ->
                 (snd (lz_code L (lzma c) d in_ pos size) <= size)%nat)
      by (intros Hin Hp; now apply Hin).
    destruct (lz_code L (lzma c) d in_ pos size) as [[[r l] d1] p1].
    cbn [snd] in Ha, Hb.
    repeat match type of Hi with
      | context [if ?b then _ else _] => destruct b
      end; inversion Hi; subst; (split; [lia | exact Hb]).
  - unfold seq_copy in Hi.
    pose proof (dict_write_pos d in_ pos size (compressed_size c))
      as [Ha Hb].
    destruct (dict_write d in_ pos size (compressed_size c))
      as [[d1 p1] l1].
    cbn [fst snd] in Ha, Hb.
    destruct (negb _); inversion Hi; subst; split; try lia; intros; lia.
Qed.

Lemma loop_in_bounds fuel c d in_ pos size r c' d' pos' :
  lz_advances L ->
  loop fuel c d in_ pos size = Some (r, c', d', pos') ->
  (pos <= pos')%nat /\
  (lz_in_bounds L -> (pos <= size)%nat -> (pos' <= size)%nat).
Proof.
  intro Hadv. revert c d pos.
  induction fuel as [|fuel IH]; intros c d pos Hl; [discriminate|].
  cbn [lzma2_decode_loop] in Hl.
  destruct (loop_cond c pos size) eqn:Hc.
  - destruct (iter c d in_ pos size) as [[[[|r1] c1] d1] p1] eqn:Hi;
      pose proof (@iter_in_bounds c d in_ pos size _ c1 d1 p1 Hadv Hc Hi)
        as [Ha Hb].
    + destruct (IH _ _ _ Hl) as [Ha' Hb']. split; [lia|].
      intros Hin Hp. apply Hb'; [exact Hin | now apply Hb].
    + inversion Hl; subst. now split.
  - inversion Hl; subst. split; [lia | intros; lia].
Qed.

(** X1.  Termination and cursor bounds.  If the LZMA decoder behind
    [coder->lzma] never moves [*in_pos] backwards, the loop of
    [lzma2_decode] is left after at most [2 * (in_size - *in_pos) + 2]
    passes (the fuel of [lzma2_decode] is never used up), and [*in_pos]
    has not moved backwards; if the LZMA decoder moreover never moves
    [*in_pos] past [in_size], neither does [lzma2_decode]. *)
Theorem lzma2_decode_returns_in_bounds c d in_ pos size :
  lz_advances L ->
  exists r c' d' pos',
    decode c d in_ pos size = Some (r, c', d', pos') /\
    (pos <= pos')%nat /\
    (lz_in_bounds L -> (pos <= size)%nat -> (pos' <= size)%nat).
Proof.
  intro Hadv.
  destruct (lzma2_decode_total dict_reset lzma_lzma_lclppb_decode
              c d in_ pos size Hadv) as [[[[r c'] d'] pos'] H].
  exists r, c', d', pos'. split; [exact H|].
  exact (loop_in_bounds _ _ _ _ _ _ Hadv H).
Qed.

(** The one pass that returns [LZMA_STREAM_END]. *)
Lemma iter_stream_end c d in_ pos size c' d' pos' :
  iter c d in_ pos size = (Return LZMA_STREAM_END, c', d', pos') ->
  sequence c = SEQ_CONTROL /\ in_at in_ pos = 0%N /\
  c' = c /\ d' = d /\ pos' = S pos.
Proof.
  intro Hi. unfold lzma2_iter in Hi.
  destruct (sequence c) eqn:Hs.
  - unfold seq_control, control_lzma_case2, control_copy_case2 in Hi.
    destruct (negb (N.land (in_at in_ pos) 128 =? 0)%N).
    + repeat match type of Hi with
        | context [if ?b then _ else _] => destruct b
        | context [match ?x with _ => _ end] => destruct x
        end; discriminate Hi.
    + destruct (in_at in_ pos) as [|p] eqn:Eb.
      * inversion Hi; subst. repeat split.
      * repeat match type of Hi with
          | context [if ?b then _ else _] => destruct b
          | context [match ?x with _ => _ end] => destruct x
          end; discriminate Hi.
  - discriminate Hi.
  - discriminate Hi.
  - discriminate Hi.
  - discriminate Hi.
  - destruct (lzma_lzma_lclppb_decode _ _) as [[|] o]; discriminate Hi.
  - unfold seq_lzma in Hi.
    destruct (lz_code L (lzma c) d in_ pos size) as [[[ret l] d1] p1].
    destruct (_ <? _)%N; [discriminate Hi|].
    destruct (lzma_ret_eqb ret LZMA_STREAM_END) eqn:E; cbn [negb] in Hi.
    + destruct (negb _); discriminate Hi.
    + inversion Hi; subst. discriminate E.
  - unfold seq_copy in Hi.
    destruct (dict_write d in_ pos size (compressed_size c))
      as [[d1 p1] l1].
    destruct (negb _); discriminate Hi.
Qed.

(** X2.  [LZMA_STREAM_END] means the end marker and nothing else.  When
    [lzma2_decode] returns [LZMA_STREAM_END], the byte just before the new
    [*in_pos] is a control byte 0x00 inside the buffer, read in
    [SEQ_CONTROL]; a chunk that the LZMA decoder reports as finished never
    ends the stream by itself. *)
Theorem stream_end_only_at_end_marker c d in_ pos size c' d' pos' :
  decode c d in_ pos size = Some (LZMA_STREAM_END, c', d', pos') ->
  sequence c' = SEQ_CONTROL /\
  exists p, pos' = S p /\ (p < size)%nat /\ in_at in_ p = 0%N.
Proof.
  unfold lzma2_decode. generalize (lzma2_fuel pos size) as fuel.
  intro fuel. revert c d pos.
  induction fuel as [|fuel IH]; intros c d pos Hl; [discriminate|].
  cbn [lzma2_decode_loop] in Hl.
  destruct (loop_cond c pos size) eqn:Hc; [|discriminate].
  destruct (iter c d in_ pos size) as [[[[|r1] c1] d1] p1] eqn:Hi.
  - exact (IH _ _ _ Hl).
  - inversion Hl; subst.
    destruct (iter_stream_end _ _ _ _ _ Hi) as (Hs & Hb & -> & -> & ->).
    split; [exact Hs|]. exists pos. split; [reflexivity|].
    split; [|exact Hb].
    unfold loop_cond in Hc. rewrite Hs in Hc. cbn in Hc.
    rewrite orb_false_r in Hc. now apply Nat.ltb_lt.
Qed.

(** X3.  [LZMA_OK] with input left over.  When [lzma2_decode] returns
    [LZMA_OK] before the end of the input, it is in the body of a chunk:
    in [SEQ_LZMA], where the LZMA decoder returned [LZMA_OK], or in
    [SEQ_COPY] with bytes of the chunk still to copy and no room left in
    the dictionary.  Every header byte that is there gets read. *)
Theorem ok_with_input_left c d in_ pos size c' d' pos' :
  (size <= length in_)%nat ->
  decode c d in_ pos size = Some (LZMA_OK, c', d', pos') ->
  (pos' < size)%nat ->
  sequence c' = SEQ_LZMA \/
  (sequence c' = SEQ_COPY /\ compressed_size c' <> 0%N /\
   (dict_limit d' <= dict_pos d')%nat).
Proof.
  intros Hsize. unfold lzma2_decode. generalize (lzma2_fuel pos size) as fuel.
  intro fuel. revert c d pos.
  induction fuel as [|fuel IH]; intros c d pos Hl Hlt; [discriminate|].
  cbn [lzma2_decode_loop] in Hl.
  destruct (loop_cond c pos size) eqn:Hc.
  - destruct (iter c d in_ pos size) as [[[[|r1] c1] d1] p1] eqn:Hi.
    + exact (IH _ _ _ Hl Hlt).
    + inversion Hl; subst r1 c1 d1 p1. clear Hl.
      destruct (header_phase (sequence c)) eqn:Hh.
      { exfalso. exact (iter_header_flow L dict_reset
                          lzma_lzma_lclppb_decode c d in_ pos size
                          Hh Hi eq_refl). }
      unfold lzma2_iter in Hi.
      destruct (sequence c) eqn:Hs; try discriminate Hh.
      * left. unfold seq_lzma in Hi.
        destruct (lz_code L (lzma c) d in_ pos size) as [[[ret l] d1] p1].
        repeat match type of Hi with
          | context [if ?b then _ else _] => destruct b
          end; inversion Hi; subst; cbn; exact Hs.
      * right. rewrite seq_copy_spec in Hi.
        set (n := Nat.min (size - pos)
                    (Nat.min (N.to_nat (compressed_size c))
                       (dict_limit d - dict_pos d))) in *.
        destruct (N.eqb_spec (compressed_size c - N.of_nat n) 0) as [E | E];
          [discriminate Hi|].
        inversion Hi; subst c' d' pos'. clear Hi.
        cbn [sequence compressed_size set_compressed_size dict_limit].
        split; [exact Hs|]. split; [exact E|].
        unfold dict_pos. cbn [dict_buf].
        rewrite length_app, length_firstn, length_skipn.
        fold (dict_pos d). unfold n in *. lia.
  - inversion Hl; subst. unfold loop_cond in Hc.
    apply orb_false_elim in Hc. destruct Hc as [Hc _].
    apply Nat.ltb_ge in Hc. lia.
Qed.

(** A pass never sets one of the two flags. *)
Lemma iter_flags_stay_cleared c d in_ pos size f c' d' pos' :
  iter c d in_ pos size = (f, c', d', pos') ->
  (need_dictionary_reset c = false -> need_dictionary_reset c' = false) /\
  (need_properties c = false -> need_properties c' = false).
Proof.
  intro Hi. unfold lzma2_iter in Hi.
  destruct (sequence c) eqn:Hs.
  - unfold seq_control, control_lzma_case2, control_copy_case2 in Hi.
    repeat match type of Hi with
      | context [if ?b then _ else _] => destruct b eqn:?
      | context [match ?x with _ => _ end] => destruct x eqn:?
      end; inversion Hi; subst; cbn in *; split; congruence.
  - inversion Hi; subst; cbn; split; congruence.
  - inversion Hi; subst; cbn; split; congruence.
  - inversion Hi; subst; cbn; split; congruence.
  - inversion Hi; subst; cbn; split; congruence.
  - destruct (lzma_lzma_lclppb_decode _ _) as [[|] o];
      inversion Hi; subst; cbn; split; congruence.
  - unfold seq_lzma in Hi.
    destruct (lz_code L (lzma c) d in_ pos size) as [[[ret l] d1] p1].
    repeat match type of Hi with
      | context [if ?b then _ else _] => destruct b
      end; inversion Hi; subst; cbn; split; congruence.
  - unfold seq_copy in Hi.
    destruct (dict_write d in_ pos size (compressed_size c))
      as [[d1 p1] l1].
    destruct (negb _); inversion Hi; subst; cbn; split; congruence.
Qed.

(** X4.  The two flags are only ever cleared.  Whatever the input and
    whatever a call returns, a [need_dictionary_reset] or
    [need_properties] that was false before the call is false after it:
    only [lzma2_decoder_init] sets them. *)
Theorem flags_stay_cleared c d in_ pos size r c' d' pos' :
  lzma2_decode L dict_reset lzma_lzma_lclppb_decode c d in_ pos size
  = Some (r, c', d', pos') ->
  (need_dictionary_reset c = false -> need_dictionary_reset c' = false) /\
  (need_properties c = false -> need_properties c' = false).
Proof.
  unfold lzma2_decode. generalize (lzma2_fuel pos size) as fuel.
  intro fuel. revert c d pos.
  induction fuel as [|fuel IH]; intros c d pos Hl; [discriminate|].
  cbn [lzma2_decode_loop] in Hl.
  destruct (loop_cond c pos size).
  - destruct (iter c d in_ pos size) as [[[[|r1] c1] d1] p1] eqn:Hi;
      destruct (iter_flags_stay_cleared _ _ _ _ _ Hi) as [H1 H2].
    + destruct (IH _ _ _ Hl) as [H3 H4]. split; auto.
    + inversion Hl; subst. now split.
  - inversion Hl; subst. now split.
Qed.

End CallResults.

Lemma stored_decoder_advances : lz_advances stored_decoder.
Proof.
  intros l d in_ pos size. cbn [lz_code stored_decoder]. unfold stored_code.
  pose proof (dict_write_pos d in_ pos size l) as [H _].
  destruct (dict_write d in_ pos size l) as [[d1 p1] l1]. exact H.
Qed.

Lemma stored_decoder_in_bounds : lz_in_bounds stored_decoder.
Proof.
  intros l d in_ pos size Hpos. cbn [lz_code stored_decoder].
  unfold stored_code.
  pose proof (dict_write_pos d in_ pos size l) as [_ H].
  destruct (dict_write d in_ pos size l) as [[d1 p1] l1]. now apply H.
Qed.

(** Witness for X1: the stream [01 00 00 AA] in the initial state. *)
Lemma lzma2_decode_returns_in_bounds_witness :
  exists r c' d' pos',
    sample_decode sample_coder sample_dict [x01; x00; x00; xaa] 0 4
    = Some (r, c', d', pos') /\ (0 <= pos' <= 4)%nat.
Proof.
  unfold sample_decode.
  destruct (@lzma2_decode_returns_in_bounds N stored_decoder
              clearing_dict_reset sample_lclppb_decode sample_coder
              sample_dict [x01; x00; x00; xaa] 0%nat 4%nat
              stored_decoder_advances)
    as (r & c' & d' & pos' & H & Ha & Hb).
  exists r, c', d', pos'. split; [exact H|]. split; [exact Ha|].
  apply Hb; [exact stored_decoder_in_bounds | apply Nat.le_0_l].
Defined.

(** Witness for X2: the stream [01 00 00 AA 00]. *)
Lemma stream_end_only_at_end_marker_witness :
  exists c' d',
    sample_decode sample_coder sample_dict [x01; x00; x00; xaa; x00] 0 5
    = Some (LZMA_STREAM_END, c', d', 5%nat) /\
    sequence c' = SEQ_CONTROL /\
    exists p, 5%nat = S p /\ (p < 5)%nat /\
              in_at [x01; x00; x00; xaa; x00] p = 0%N.
Proof.
  unfold sample_decode. eexists. eexists.
  assert (H : lzma2_decode stored_decoder clearing_dict_reset
                sample_lclppb_decode sample_coder sample_dict
                [x01; x00; x00; xaa; x00] 0 5
              = Some (LZMA_STREAM_END,
                      raw_done sample_coder,
                      mk_dict [xaa] 4096, 5%nat))
    by (vm_compute; reflexivity).
  split; [exact H|].
  exact (@stream_end_only_at_end_marker _ _ _ _ _ _ _ _ _ _ _ _ H).
Defined.

(** Witness for X3: an uncompressed chunk of two bytes and a dictionary
    with room for one. *)
Lemma ok_with_input_left_witness :
  let d := mk_dict [] 1 in
  let in_ := [x02; x00; x01; "a"%byte; "b"%byte] in
  let c := set_need_dictionary_reset false sample_coder in
  exists c' d',
    sample_decode c d in_ 0 5 = Some (LZMA_OK, c', d', 4%nat) /\
    sequence c' = SEQ_COPY /\ compressed_size c' <> 0%N /\
    (dict_limit d' <= dict_pos d')%nat.
Proof.
  intros d in_ c. unfold sample_decode. eexists. eexists.
  assert (H : lzma2_decode stored_decoder clearing_dict_reset
                sample_lclppb_decode c d in_ 0 5
              = Some (LZMA_OK,
                      mk_coder SEQ_COPY SEQ_COPY 0%N 0%N 1%N true false
                        sample_options,
                      mk_dict ["a"%byte] 1, 4%nat))
    by (vm_compute; reflexivity).
  split; [exact H|].
  assert (Hs : (5 <= length in_)%nat) by apply Nat.le_refl.
  assert (Hl : (4 < 5)%nat) by apply Nat.lt_succ_diag_r.
  destruct (@ok_with_input_left _ _ _ _ _ _ _ _ _ _ _ _ Hs H Hl)
    as [Hq | Hq];
    [discriminate Hq | exact Hq].
Defined.

(** Witness for X4: a second chunk without reset after a first with. *)
Lemma flags_stay_cleared_witness :
  let c := set_need_dictionary_reset false sample_coder in
  exists r c' d' pos',
    sample_decode c sample_dict [x02; x00; x00; xaa] 0 4
    = Some (r, c', d', pos') /\
    need_dictionary_reset c' = false.
Proof.
  intro c. unfold sample_decode. eexists. eexists. eexists. eexists.
  assert (H : lzma2_decode stored_decoder clearing_dict_reset
                sample_lclppb_decode c sample_dict [x02; x00; x00; xaa] 0 4
              = Some (LZMA_OK, raw_done c, mk_dict [xaa] 4096, 4%nat))
    by (vm_compute; reflexivity).
  split; [exact H|].
  exact (proj1 (@flags_stay_cleared _ _ _ _ _ _ _ _ _ _ _ _ _ H) eq_refl).
Defined.

(** ** The verdict on a control byte *)

Section ControlVerdict.
Variable lz : Type.
Variable L : lzma_lz_decoder lz.
Variable dict_reset : lzma_dict -> lzma_dict.
Variable lzma_lzma_lclppb_decode :
  lzma_options_lzma -> N -> bool * lzma_options_lzma.

Abbreviation iter := (lzma2_iter L dict_reset lzma_lzma_lclppb_decode).
Abbreviation decode := (lzma2_decode L dict_reset lzma_lzma_lclppb_decode).

Implicit Types (c : lzma_coder lz) (d : lzma_dict).

(** X5.  Which control bytes are refused.  The pass over a control byte
    [b] ends the stream exactly for [b = 0], and returns [LZMA_DATA_ERROR]
    exactly when [b] is one of 0x03 .. 0x7F, or [need_dictionary_reset] is
    set and [b] is 0x02 or one of 0xC0 .. 0xDF, or [need_properties] is
    set and [b] is one of 0x80 .. 0xBF; every other byte starts a chunk.
    In all cases [*in_pos] moves past the byte, and what the pass returns
    [lzma2_decode] returns. *)
Theorem control_byte_verdict c d in_ pos size :
  sequence c = SEQ_CONTROL ->
  let b := in_at in_ pos in
  exists f c' d',
    iter c d in_ pos size = (f, c', d', S pos) /\
    (f = Break \/ f = Return LZMA_STREAM_END \/ f = Return LZMA_DATA_ERROR) /\
    (f = Return LZMA_STREAM_END <-> b = 0%N) /\
    (f = Return LZMA_DATA_ERROR <->
     (3 <= b <= 0x7F)%N \/
     (need_dictionary_reset c = true /\ (b = 2 \/ 0xC0 <= b <= 0xDF)%N) \/
     (need_properties c = true /\ (0x80 <= b <= 0xBF)%N)) /\
    ((pos < size)%nat -> forall r, f = Return r ->
     decode c d in_ pos size = Some (r, c', d', S pos)).
Proof.
  intros Hs b.
  assert (Hd : forall f c' d',
             iter c d in_ pos size = (f, c', d', S pos) ->
             (pos < size)%nat -> forall r, f = Return r ->
             decode c d in_ pos size = Some (r, c', d', S pos)).
  { intros f c' d' Hi Hpos r ->.
    apply decode_return; [now apply loop_cond_input | exact Hi]. }
  revert Hd. unfold lzma2_iter. rewrite Hs.
  unfold seq_control, control_lzma_case2, control_copy_case2.
  fold b. unfold b, in_at. clear b. intro Hd.
  destruct (nth pos in_ x00); cbn -[u32] in *;
    destruct (need_dictionary_reset c) eqn:E1;
    destruct (need_properties c) eqn:E2;
    (do 3 eexists; split; [reflexivity|]);
    (split; [auto|]);
    (split; [|split; [|now apply Hd]]);
    (split; intro H; try discriminate H; try lia;
      try (clear - H; intuition (try lia; try discriminate)); auto 6).
Qed.

End ControlVerdict.

(** Witness for X5: the bytes 0x03 and 0xC5 in the initial state. *)
Lemma control_byte_verdict_witness :
  sample_decode sample_coder sample_dict [x03] 0 1
  = Some (LZMA_DATA_ERROR, sample_coder, sample_dict, 1%nat) /\
  fst (fst (fst (sample_iter sample_coder sample_dict [xc5] 0 1)))
  = Return LZMA_DATA_ERROR.
Proof.
  unfold sample_decode, sample_iter.
  pose (thm := fun in_ =>
    @control_byte_verdict N stored_decoder clearing_dict_reset
      sample_lclppb_decode sample_coder sample_dict in_ 0 1 eq_refl).
  split.
  - destruct (thm [x03]) as (f & c' & d' & Hi & _ & _ & He & Hd).
    assert (Hf : f = Return LZMA_DATA_ERROR).
    { apply He. left. split; discriminate. }
    rewrite (Hd (Nat.lt_0_succ 0) _ Hf). f_equal. subst f.
    vm_compute in Hi. inversion Hi. reflexivity.
  - destruct (thm [xc5]) as (f & c' & d' & Hi & _ & _ & He & _).
    rewrite Hi. cbn [fst]. apply He. right; left.
    split; [reflexivity|]. right. split; discriminate.
Defined.

(** ** What an error-free session keeps *)

Section SessionInvariant.
Variable lz : Type.
Variable L : lzma_lz_decoder lz.
Variable dict_reset : lzma_dict -> lzma_dict.
Variable lzma_lzma_lclppb_decode :
  lzma_options_lzma -> N -> bool * lzma_options_lzma.

Abbreviation iter := (lzma2_iter L dict_reset lzma_lzma_lclppb_decode).
Abbreviation loop := (lzma2_decode_loop L dict_reset lzma_lzma_lclppb_decode).
Abbreviation decode := (lzma2_decode L dict_reset lzma_lzma_lclppb_decode).
Abbreviation in_pass := (props_decoded_in_pass lzma_lzma_lclppb_decode).
Abbreviation in_loop :=
  (props_decoded_in_loop L dict_reset lzma_lzma_lclppb_decode).

Implicit Types (c : lzma_coder lz) (d : lzma_dict).

Ltac chunk_inv_close :=
  unfold lzma_header_inv, uncompressed_size_ok, need_properties_inv,
    properties_pending in *;
  cbn [sequence next_sequence lzma uncompressed_size compressed_size
       need_properties need_dictionary_reset options header_state
       set_sequence set_next_sequence set_lzma set_uncompressed_size
       set_compressed_size set_need_properties set_need_dictionary_reset
       set_options] in *;
  repeat match goal with
    | H : _ /\ _ |- _ => destruct H
    end;
  repeat split; try assumption; try reflexivity; try lia;
  try (intuition (try congruence; try lia); fail).

Lemma control_chunk_inv g c d in_ pos size f c' d' pos' :
  sequence c = SEQ_CONTROL ->
  need_properties_inv g c ->
  (need_properties c = false -> need_dictionary_reset c = false) ->
  iter c d in_ pos size = (f, c', d', pos') ->
  f <> Return LZMA_DATA_ERROR ->
  (need_properties c' = false -> need_dictionary_reset c' = false) /\
  match sequence c' with
  | SEQ_CONTROL => True
  | SEQ_UNCOMPRESSED_1 =>
      need_dictionary_reset c' = false /\ lzma_header_inv g c' /\
      (uncompressed_size c' <= 2031616)%N
  | SEQ_COMPRESSED_0 =>
      need_dictionary_reset c' = false /\ next_sequence c' = SEQ_COPY
  | _ => False
  end.
Proof.
  intros Hs Hnp Himp Hi Hf. unfold lzma2_iter in Hi. rewrite Hs in Hi.
  unfold seq_control, control_lzma_case2, control_copy_case2 in Hi.
  destruct (control_high_bits (in_at in_ pos)) as [Hu Hh].
  rewrite Hu in Hi.
  pose proof (reset_level_bound (in_at in_ pos)) as Hlvl.
  assert (Hg : need_properties c = false -> g = true).
  { intro E. unfold need_properties_inv, properties_pending in Hnp.
    rewrite E, Hs in Hnp. destruct g; [reflexivity|].
    destruct (next_sequence c); discriminate Hnp. }
  repeat match type of Hi with
    | context [if ?x then _ else _] => destruct x eqn:?
    | context [match ?x with _ => _ end] => destruct x eqn:?
    end;
    try lia;
    inversion Hi; subst; try (now elim Hf);
    cbn [sequence next_sequence lzma uncompressed_size compressed_size
         need_properties need_dictionary_reset options
         set_sequence set_next_sequence set_lzma set_uncompressed_size
         set_compressed_size set_need_properties set_need_dictionary_reset]
      in *;
    try rewrite Hs;
    unfold lzma_header_inv;
    cbn [sequence next_sequence lzma uncompressed_size compressed_size
         need_properties need_dictionary_reset options
         set_sequence set_next_sequence set_lzma set_uncompressed_size
         set_compressed_size set_need_properties set_need_dictionary_reset];
    repeat split; try assumption; try reflexivity; try lia;
    try congruence; try (now left); try (right; split; [reflexivity|]);
    try (apply Hg; assumption); try (apply Himp; assumption);
    try (intros _; apply Himp; assumption);
    try (intro Hx; specialize (Himp Hx); congruence).
Qed.

Lemma iter_chunk_inv g c d in_ pos size f c' d' pos' :
  chunk_inv g c ->
  iter c d in_ pos size = (f, c', d', pos') ->
  f <> Return LZMA_DATA_ERROR ->
  chunk_inv (g || in_pass c in_ pos) c'.
Proof.
  intros (Hnp & Himp & Hph) Hi Hf.
  pose proof (@iter_need_properties_inv _ L dict_reset
                lzma_lzma_lclppb_decode g c d in_ pos size _ _ _ _ Hnp Hi)
    as Hnp'.
  unfold chunk_inv. split; [exact Hnp'|]. clear Hnp'.
  pose proof (in_at_bound in_ pos) as Hb.
  destruct (sequence c) eqn:Hs.
  - (* SEQ_CONTROL *)
    destruct (@control_chunk_inv g c d in_ pos size f c' d' pos'
                Hs Hnp Himp Hi Hf) as [H1 H2].
    split; [exact H1|].
    unfold props_decoded_in_pass. rewrite Hs, orb_false_r.
    destruct (sequence c'); try exact H2; try contradiction.
    destruct H2 as [H2 H3]. split; [exact H2 | now right].
  - (* SEQ_UNCOMPRESSED_1 *)
    destruct Hph as (Hd & Hh & Hu).
    rewrite iter_uncompressed_1 in Hi
      by (try exact Hs; change (2 ^ 32)%N with 4294967296%N; lia).
    inversion Hi; subst. unfold props_decoded_in_pass. rewrite Hs.
    rewrite orb_false_r. chunk_inv_close.
  - (* SEQ_UNCOMPRESSED_2 *)
    destruct Hph as (Hd & Hh & Hu).
    rewrite iter_uncompressed_2 in Hi
      by (try exact Hs; change (2 ^ 32)%N with 4294967296%N; lia).
    cbv zeta in Hi. inversion Hi; subst.
    unfold props_decoded_in_pass. rewrite Hs.
    rewrite orb_false_r. chunk_inv_close.
  - (* SEQ_COMPRESSED_0 *)
    destruct Hph as (Hd & Hh).
    rewrite iter_compressed_0 in Hi by exact Hs.
    inversion Hi; subst. unfold props_decoded_in_pass. rewrite Hs.
    rewrite orb_false_r.
    cbn [sequence header_state need_properties need_dictionary_reset
         compressed_size].
    split; [exact Himp|]. split; [exact Hd|]. split; [|lia].
    destruct Hh as [[Hh Hu] | Hh]; [left | now right].
    chunk_inv_close.
  - (* SEQ_COMPRESSED_1 *)
    destruct Hph as (Hd & Hh & Hc).
    rewrite iter_compressed_1 in Hi
      by (try exact Hs; change (2 ^ 32)%N with 4294967296%N; lia).
    inversion Hi; subst. unfold props_decoded_in_pass. rewrite Hs.
    rewrite orb_false_r.
    cbn [sequence header_state need_properties need_dictionary_reset].
    split; [exact Himp|].
    destruct Hh as [[[Hn [Hh | [Hh Hg]]] Hu] | Hh]; rewrite Hh;
      cbn [sequence header_state need_properties need_dictionary_reset
           uncompressed_size compressed_size];
      unfold uncompressed_size_ok in *;
      cbn [uncompressed_size header_state];
      repeat split; try assumption; lia.
  - (* SEQ_PROPERTIES *)
    destruct Hph as (Hd & Hn & Hu & Hc).
    unfold lzma2_iter in Hi. rewrite Hs in Hi.
    unfold props_decoded_in_pass. rewrite Hs.
    destruct (lzma_lzma_lclppb_decode (options c) (in_at in_ pos))
      as [[|] o]; inversion Hi; subst; [now elim Hf|].
    cbn [fst negb]. rewrite orb_true_r.
    cbn [sequence set_sequence set_lzma set_options need_properties
         need_dictionary_reset compressed_size].
    unfold uncompressed_size_ok in *.
    cbn [uncompressed_size set_sequence set_lzma set_options].
    repeat split; try assumption; try lia.
  - (* SEQ_LZMA *)
    destruct Hph as (Hd & Hn & Hg & Hu & Hc).
    unfold lzma2_iter in Hi. rewrite Hs in Hi. unfold seq_lzma in Hi.
    unfold props_decoded_in_pass. rewrite Hs, orb_false_r.
    destruct (lz_code L (lzma c) d in_ pos size) as [[[ret l] d1] p1].
    cbn [compressed_size set_lzma set_compressed_size] in Hi.
    destruct (N.ltb_spec (compressed_size c)
                (size_sub (N.of_nat p1) (N.of_nat pos))) as [G | G];
      [inversion Hi; subst; now elim Hf|].
    destruct (negb (lzma_ret_eqb ret LZMA_STREAM_END)).
    + inversion Hi; subst.
      cbn [sequence set_lzma set_compressed_size need_properties
           need_dictionary_reset compressed_size].
      rewrite Hs. unfold uncompressed_size_ok in *.
      cbn [uncompressed_size set_lzma set_compressed_size].
      repeat split; try assumption; try lia.
    + destruct (negb _); inversion Hi; subst; [now elim Hf|].
      cbn [sequence set_sequence set_lzma set_compressed_size
           need_properties need_dictionary_reset].
      split; [|exact I]. intros _. exact Hd.
  - (* SEQ_COPY *)
    destruct Hph as (Hd & Hc).
    unfold lzma2_iter in Hi. rewrite Hs, seq_copy_spec in Hi.
    unfold props_decoded_in_pass. rewrite Hs, orb_false_r.
    set (n := Nat.min _ _) in *. clearbody n.
    destruct (N.eqb_spec (compressed_size c - N.of_nat n) 0) as [E | E];
      inversion Hi; subst;
      cbn [sequence set_sequence set_compressed_size need_properties
           need_dictionary_reset compressed_size].
    + split; [|exact I]. exact Himp.
    + rewrite Hs. repeat split; try assumption; lia.
Qed.

Lemma loop_chunk_inv fuel g c d in_ pos size r c' d' pos' :
  chunk_inv g c ->
  loop fuel c d in_ pos size = Some (r, c', d', pos') ->
  r <> LZMA_DATA_ERROR ->
  chunk_inv (g || in_loop fuel c d in_ pos size) c'.
Proof.
  revert g c d pos.
  induction fuel as [|fuel IH]; intros g c d pos H Hl Hr; [discriminate|].
  cbn [lzma2_decode_loop props_decoded_in_loop] in *.
  destruct (loop_cond c pos size).
  - pose proof (@iter_chunk_inv g c d in_ pos size) as Hit.
    destruct (iter c d in_ pos size) as [[[[|r1] c1] d1] p1].
    + assert (Hb : Break <> Return LZMA_DATA_ERROR) by discriminate.
      specialize (Hit _ _ _ _ H eq_refl Hb).
      specialize (IH _ _ _ _ Hit Hl Hr).
      now rewrite <- orb_assoc in IH.
    + inversion Hl; subst. apply (Hit _ _ _ _ H eq_refl).
      intro E. apply Hr. now inversion E.
  - inversion Hl; subst. now rewrite orb_false_r.
Qed.

Lemma reachable_ok_chunk_inv g c :
  reachable_ok L dict_reset lzma_lzma_lclppb_decode g c -> chunk_inv g c.
Proof.
  induction 1 as [c0 | g c d in_ pos size r c' d' pos' Hr IH Hd Hne].
  - unfold chunk_inv. cbn. repeat split. discriminate.
  - eapply loop_chunk_inv; eassumption.
Qed.

(** X6.  The order of resets in a session without data error.  In every
    state reached from [lzma2_decoder_init] by calls of which none
    returned [LZMA_DATA_ERROR]: outside [SEQ_CONTROL] the dictionary has
    been reset; properties are only accepted after a dictionary reset;
    and in [SEQ_LZMA], where the LZMA decoder is run, both flags are
    cleared and a properties byte has been decoded successfully. *)
Theorem lzma_runs_after_resets g c :
  reachable_ok L dict_reset lzma_lzma_lclppb_decode g c ->
  (sequence c <> SEQ_CONTROL -> need_dictionary_reset c = false) /\
  (need_properties c = false -> need_dictionary_reset c = false) /\
  (sequence c = SEQ_LZMA ->
   g = true /\ need_properties c = false /\
   need_dictionary_reset c = false).
Proof.
  intro Hr. apply reachable_ok_chunk_inv in Hr.
  destruct Hr as (_ & Himp & Hph).
  split; [|split; [exact Himp|]].
  - intro Hs. destruct (sequence c); tauto.
  - intro Hs. rewrite Hs in Hph. tauto.
Qed.

(** X7.  The size counters stay within their fields.  In every state
    reached from [lzma2_decoder_init] by calls of which none returned
    [LZMA_DATA_ERROR]: while the properties byte or the body of a
    compressed chunk is due, [uncompressed_size] is between 1 and 2^21;
    from the second size byte on and in the body of a chunk,
    [compressed_size] is at most 2^16; and it is at least 1 when the
    properties byte is due and as long as an uncompressed chunk is being
    copied. *)
Theorem size_counters_in_range g c :
  reachable_ok L dict_reset lzma_lzma_lclppb_decode g c ->
  (sequence c = SEQ_PROPERTIES \/ sequence c = SEQ_LZMA ->
   (1 <= uncompressed_size c <= 2 ^ 21)%N) /\
  (sequence c = SEQ_COMPRESSED_1 \/ sequence c = SEQ_PROPERTIES \/
   sequence c = SEQ_LZMA \/ sequence c = SEQ_COPY ->
   (compressed_size c <= 2 ^ 16)%N) /\
  (sequence c = SEQ_PROPERTIES \/ sequence c = SEQ_COPY ->
   (1 <= compressed_size c)%N).
Proof.
  intro Hr. apply reachable_ok_chunk_inv in Hr.
  destruct Hr as (_ & _ & Hph). unfold uncompressed_size_ok in Hph.
  change (2 ^ 21)%N with 2097152%N. change (2 ^ 16)%N with 65536%N.
  split; [|split]; intro Hs;
    repeat match goal with H : _ \/ _ |- _ => destruct H as [H | H] end;
    rewrite Hs in Hph; lia.
Qed.

End SessionInvariant.

(** Witness for X6: the header of a first LZMA chunk with dictionary
    reset and properties, up to and including the properties byte. *)
Lemma lzma_runs_after_resets_witness :
  exists c,
    sample_decode sample_coder sample_dict
      [xe0; x00; x01; x00; x01; x5d] 0 6
    = Some (LZMA_OK, c, clearing_dict_reset sample_dict, 6%nat) /\
    sequence c = SEQ_LZMA /\
    need_properties c = false /\ need_dictionary_reset c = false.
Proof.
  unfold sample_decode, sample_coder.
  pose (c0 := mk_coder SEQ_COPY SEQ_COPY 0%N 0%N 0%N false false
                sample_options).
  pose (c1 := mk_coder SEQ_LZMA SEQ_PROPERTIES 2%N 2%N 2%N false false
                (mk_options 4096 None 0 3 0 2)).
  assert (H : lzma2_decode stored_decoder clearing_dict_reset
                sample_lclppb_decode (lzma2_decoder_init c0) sample_dict
                [xe0; x00; x01; x00; x01; x5d] 0 6
              = Some (LZMA_OK, c1, clearing_dict_reset sample_dict, 6%nat))
    by (vm_compute; reflexivity).
  assert (Hne : LZMA_OK <> LZMA_DATA_ERROR) by discriminate.
  pose proof (@reach_ok_call N stored_decoder clearing_dict_reset
                sample_lclppb_decode false _ sample_dict
                [xe0; x00; x01; x00; x01; x5d] 0 6 _ _ _ _
                (@reach_ok_init N stored_decoder clearing_dict_reset
                   sample_lclppb_decode c0) H Hne) as Hr.
  destruct (@lzma_runs_after_resets N stored_decoder clearing_dict_reset
              sample_lclppb_decode _ _ Hr) as (_ & _ & H3).
  exists c1. split; [exact H|]. split; [reflexivity|].
  exact (proj2 (H3 eq_refl)).
Defined.

(** Witness for X7: an uncompressed chunk of five bytes of which one has
    been copied. *)
Lemma size_counters_in_range_witness :
  exists c,
    sample_decode sample_coder sample_dict [x01; x00; x04; x41] 0 4
    = Some (LZMA_OK, c, mk_dict [x41] 4096, 4%nat) /\
    sequence c = SEQ_COPY /\ (1 <= compressed_size c <= 2 ^ 16)%N.
Proof.
  unfold sample_decode, sample_coder.
  pose (c0 := mk_coder SEQ_COPY SEQ_COPY 0%N 0%N 0%N false false
                sample_options).
  pose (c1 := mk_coder SEQ_COPY SEQ_COPY 0%N 0%N 4%N true false
                sample_options).
  assert (H : lzma2_decode stored_decoder clearing_dict_reset
                sample_lclppb_decode (lzma2_decoder_init c0) sample_dict
                [x01; x00; x04; x41] 0 4
              = Some (LZMA_OK, c1, mk_dict [x41] 4096, 4%nat))
    by (vm_compute; reflexivity).
  assert (Hne : LZMA_OK <> LZMA_DATA_ERROR) by discriminate.
  pose proof (@reach_ok_call N stored_decoder clearing_dict_reset
                sample_lclppb_decode false _ sample_dict
                [x01; x00; x04; x41] 0 4 _ _ _ _
                (@reach_ok_init N stored_decoder clearing_dict_reset
                   sample_lclppb_decode c0) H Hne) as Hr.
  destruct (@size_counters_in_range N stored_decoder clearing_dict_reset
              sample_lclppb_decode _ _ Hr) as (_ & H2 & H3).
  exists c1. split; [exact H|]. split; [reflexivity|].
  split; [apply H3 | apply H2]; auto.
Defined.

(** ** Streams of uncompressed chunks *)

Lemma byte_val_of_N (n : N) : (n < 256)%N -> byte_val (byte_of_N n) = n.
Proof.
  intro H. unfold byte_val, byte_of_N.
  destruct (Byte.of_N n) as [b|] eqn:E.
  - apply Byte.to_of_N. exact E.
  - apply Byte.of_N_None_iff in E. lia.
Qed.

Lemma raw_chunk_length reset body :
  length (raw_chunk reset body) = (3 + length body)%nat.
Proof. reflexivity. Qed.

Lemma raw_chunk_size_field (n : N) :
  (1 <= n <= 65536)%N ->
  chunk_compressed_size (byte_val (byte_of_N ((n - 1) / 256)))
    (byte_val (byte_of_N ((n - 1) mod 256))) = n.
Proof.
  intro H.
  assert (H1 : ((n - 1) / 256 < 256)%N)
    by (apply N.Div0.div_lt_upper_bound; lia).
  assert (H2 : ((n - 1) mod 256 < 256)%N)
    by (apply N.mod_upper_bound; discriminate).
  rewrite !byte_val_of_N by assumption.
  rewrite chunk_compressed_size_sum by exact H2.
  pose proof (N.div_mod (n - 1) 256). lia.
Qed.

Lemma in_at_middle (pre l post : list byte) (k : nat) :
  (k < length l)%nat ->
  in_at (pre ++ l ++ post) (length pre + k) = byte_val (nth k l x00).
Proof.
  intro H. rewrite in_at_app2. unfold in_at. now rewrite app_nth1.
Qed.

Section RawChunks.
Variable lz : Type.
Variable L : lzma_lz_decoder lz.
Variable dict_reset : lzma_dict -> lzma_dict.
Variable lzma_lzma_lclppb_decode :
  lzma_options_lzma -> N -> bool * lzma_options_lzma.

Abbreviation iter := (lzma2_iter L dict_reset lzma_lzma_lclppb_decode).
Abbreviation loop := (lzma2_decode_loop L dict_reset lzma_lzma_lclppb_decode).
Abbreviation decode := (lzma2_decode L dict_reset lzma_lzma_lclppb_decode).

Implicit Types (c : lzma_coder lz) (d : lzma_dict).

(** The control byte of an uncompressed chunk. *)
Lemma raw_control_pass (reset : bool) c d in_ pos size :
  sequence c = SEQ_CONTROL ->
  reset = true \/ need_dictionary_reset c = false ->
  in_at in_ pos = byte_val (if reset then x01 else x02) ->
  iter c d in_ pos size
  = (Break,
     mk_coder SEQ_COMPRESSED_0 SEQ_COPY (lzma c) (uncompressed_size c)
       (compressed_size c) (need_properties c) false (options c),
     (if reset then dict_reset d else d), S pos).
Proof.
  intros Hs Hr Hb. unfold lzma2_iter. rewrite Hs.
  unfold seq_control, control_copy_case2. rewrite Hb.
  destruct reset.
  - reflexivity.
  - destruct Hr as [Hr | Hr]; [discriminate|].
    change (byte_val x02) with 2%N. cbn -[u32].
    rewrite Hr. unfold set_next_sequence, set_sequence.
    destruct c; cbn in *. now subst.
Qed.

(** The four passes over one uncompressed chunk. *)
Lemma raw_chunk_loop (reset : bool) (body pre post : list byte)
    c d size fuel res :
  sequence c = SEQ_CONTROL ->
  reset = true \/ need_dictionary_reset c = false ->
  (1 <= N.of_nat (length body) <= 65536)%N ->
  let d0 := if reset then dict_reset d else d in
  (dict_pos d0 + length body <= dict_limit d0)%nat ->
  (length pre + 3 + length body <= size)%nat ->
  let in_ := pre ++ raw_chunk reset body ++ post in
  loop fuel (raw_done c) (mk_dict (dict_buf d0 ++ body) (dict_limit d0))
    in_ (length pre + 3 + length body) size = Some res ->
  loop (4 + fuel) c d in_ (length pre) size = Some res.
Proof.
  intros Hs Hr Hn d0 Hroom Hsize in_ Hrest.
  assert (B0 : in_at in_ (length pre)
               = byte_val (if reset then x01 else x02)).
  { unfold in_. rewrite <- (Nat.add_0_r (length pre)).
    rewrite in_at_middle by (rewrite raw_chunk_length; lia). reflexivity. }
  assert (B1 : in_at in_ (S (length pre))
               = byte_val (byte_of_N ((N.of_nat (length body) - 1) / 256))).
  { unfold in_. replace (S (length pre)) with (length pre + 1)%nat by lia.
    rewrite in_at_middle by (rewrite raw_chunk_length; lia). reflexivity. }
  assert (B2 : in_at in_ (S (S (length pre)))
               = byte_val
                   (byte_of_N ((N.of_nat (length body) - 1) mod 256))).
  { unfold in_. replace (S (S (length pre))) with (length pre + 2)%nat by lia.
    rewrite in_at_middle by (rewrite raw_chunk_length; lia). reflexivity. }
  assert (B3 : firstn (length body) (skipn (S (S (S (length pre)))) in_)
               = body).
  { unfold in_.
    replace (S (S (S (length pre)))) with (length pre + 3)%nat by lia.
    rewrite skipn_app_ge. unfold raw_chunk. cbn [skipn app].
    rewrite firstn_app, firstn_all, Nat.sub_diag. cbn [firstn].
    apply app_nil_r. }
  pose proof (@raw_control_pass reset c d in_ (length pre) size Hs Hr B0)
    as P0.
  set (c1 := mk_coder SEQ_COMPRESSED_0 SEQ_COPY (lzma c)
               (uncompressed_size c) (compressed_size c)
               (need_properties c) false (options c)) in *.
  destruct (@copy_header_passes lz L dict_reset lzma_lzma_lclppb_decode
              c1 d0 in_ (S (length pre)) size
              in_ (S (S (length pre))) size eq_refl eq_refl)
    as (P1 & P2 & _).
  rewrite B1 in P1.
  rewrite B1, B2, raw_chunk_size_field in P2 by exact Hn.
  set (c2 := header_state SEQ_COMPRESSED_1 _ _ _ c1) in *.
  set (c3 := header_state SEQ_COPY _ _ _ c1) in *.
  assert (P3 : iter c3 d0 in_ (S (S (S (length pre)))) size
               = (Break, raw_done c,
                  mk_dict (dict_buf d0 ++ body) (dict_limit d0),
                  (length pre + 3 + length body)%nat)).
  { unfold lzma2_iter. change (sequence c3) with SEQ_COPY. cbv iota.
    rewrite seq_copy_spec. cbv zeta.
    change (compressed_size c3) with (N.of_nat (length body)).
    rewrite Nnat.Nat2N.id.
    replace (Nat.min (size - S (S (S (length pre))))
               (Nat.min (length body) (dict_limit d0 - dict_pos d0)))
      with (length body) by lia.
    rewrite N.sub_diag, B3. cbn [N.eqb].
    f_equal; try reflexivity; lia. }
  assert (C : forall c' p, (p < size)%nat -> loop_cond c' p size = true).
  { intros c' p Hp. unfold loop_cond.
    apply Nat.ltb_lt in Hp. now rewrite Hp. }
  change (4 + fuel)%nat with (S (S (S (S fuel)))).
  cbn [lzma2_decode_loop].
  rewrite C, P0 by lia. fold d0. rewrite C, P1 by lia.
  rewrite C, P2 by lia. rewrite C, P3 by lia. exact Hrest.
Qed.

Lemma raw_done_idem c : raw_done (raw_done c) = raw_done c.
Proof. reflexivity. Qed.

Lemma raw_stream_loop chunks :
  forall c d d' pre post size,
    sequence c = SEQ_CONTROL ->
    raw_run dict_reset (need_dictionary_reset c) d chunks = Some d' ->
    (length pre + length (raw_stream chunks) <= size)%nat ->
    (4 * length chunks + 1 <= length (raw_stream chunks))%nat /\
    loop (4 * length chunks + 1) c d (pre ++ raw_stream chunks ++ post)
      (length pre) size
    = Some (LZMA_STREAM_END,
            match chunks with [] => c | _ :: _ => raw_done c end, d',
            (length pre + length (raw_stream chunks))%nat).
Proof.
  induction chunks as [|[reset body] rest IH];
    intros c d d' pre post size Hs Hrun Hsize.
  - cbn [raw_run] in Hrun. inversion Hrun; subst d'.
    cbn [raw_stream length] in *. split; [cbn; lia|].
    cbn [Nat.mul Nat.add lzma2_decode_loop].
    assert (Hc : loop_cond c (length pre) size = true).
    { unfold loop_cond. assert (H : (length pre <? size)%nat = true)
        by (apply Nat.ltb_lt; lia). now rewrite H. }
    rewrite Hc. unfold lzma2_iter. rewrite Hs. unfold seq_control.
    assert (B : in_at (pre ++ [x00] ++ post) (length pre) = 0%N).
    { rewrite <- (Nat.add_0_r (length pre)), in_at_app2. reflexivity. }
    rewrite B. cbn [N.land N.eqb negb]. do 3 f_equal. lia.
  - cbn [raw_run] in Hrun. cbn [raw_stream] in *.
    rewrite length_app, raw_chunk_length in *.
    set (d0 := if reset then dict_reset d else d) in *.
    destruct (reset || negb (need_dictionary_reset c)) eqn:Hr;
      [|discriminate Hrun].
    destruct (N.leb_spec 1 (N.of_nat (length body))) as [H1 | H1];
      [|discriminate Hrun].
    destruct (N.leb_spec (N.of_nat (length body)) 65536) as [H2 | H2];
      [|discriminate Hrun].
    destruct (Nat.leb_spec (dict_pos d0 + length body) (dict_limit d0))
      as [H3 | H3]; [|discriminate Hrun].
    cbn [andb] in Hrun.
    assert (Hr' : reset = true \/ need_dictionary_reset c = false).
    { destruct reset; [now left|right].
      now destruct (need_dictionary_reset c). }
    destruct (IH (raw_done c)
                (mk_dict (dict_buf d0 ++ body) (dict_limit d0)) d'
                (pre ++ raw_chunk reset body) post size eq_refl Hrun)
      as [Hlen Hloop].
    { rewrite length_app, raw_chunk_length. lia. }
    split; [cbn [length]; lia|].
    rewrite length_app, raw_chunk_length in Hloop.
    rewrite <- !app_assoc in Hloop.
    replace (4 * length ((reset, body) :: rest) + 1)%nat
      with (4 + (4 * length rest + 1))%nat by (cbn [length]; lia).
    rewrite <- app_assoc.
    apply raw_chunk_loop; try assumption; try lia.
    fold d0. rewrite Nat.add_assoc in Hloop.
    rewrite Hloop. do 2 f_equal; [|lia].
    destruct rest; reflexivity.
Qed.

(** X8.  A stream of uncompressed chunks is copied into the dictionary.
    For chunks laid out as the decoder reads them (control byte 0x01 or
    0x02, the length minus one in two bytes, the body) and followed by the
    end marker, at any place in the input: when every body has 1 to 65536
    bytes and fits into the window, and no chunk without reset comes
    before a dictionary reset, one call from [SEQ_CONTROL] returns
    [LZMA_STREAM_END] with the bodies appended to the dictionary in order,
    each dictionary reset applied before its body, and [*in_pos] just
    behind the end marker, whatever follows it. *)
Theorem raw_stream_decoded chunks c d d' pre post size :
  sequence c = SEQ_CONTROL ->
  raw_run dict_reset (need_dictionary_reset c) d chunks = Some d' ->
  (length pre + length (raw_stream chunks) <= size)%nat ->
  decode c d (pre ++ raw_stream chunks ++ post) (length pre) size
  = Some (LZMA_STREAM_END,
          match chunks with [] => c | _ :: _ => raw_done c end, d',
          (length pre + length (raw_stream chunks))%nat).
Proof.
  intros Hs Hrun Hsize.
  destruct (@raw_stream_loop chunks c d d' pre post size Hs Hrun Hsize)
    as [Hlen Hloop].
  unfold lzma2_decode.
  apply (loop_fuel_mono _ _ _ _ _ _ _ _ Hloop).
  unfold lzma2_fuel. lia.
Qed.

End RawChunks.

(** Witness for X8: two chunks, the first with dictionary reset, and a
    byte behind the end marker. *)
Lemma raw_stream_decoded_witness :
  sample_decode sample_coder sample_dict
    [x01; x00; x01; x41; x42; x02; x00; x00; x43; x00; xff] 0 11
  = Some (LZMA_STREAM_END, raw_done sample_coder,
          mk_dict [x41; x42; x43] 4096, 10%nat).
Proof.
  unfold sample_decode.
  assert (Hsize : (length (@nil byte)
                   + length (raw_stream [(true, [x41; x42]); (false, [x43])])
                   <= 11)%nat) by (vm_compute; lia).
  exact (@raw_stream_decoded N stored_decoder clearing_dict_reset
           sample_lclppb_decode [(true, [x41; x42]); (false, [x43])]
           sample_coder sample_dict (mk_dict [x41; x42; x43] 4096)
           [] [xff] 11 eq_refl eq_refl Hsize).
Defined.

(** ** More on the properties decoder *)

Lemma small_byte_no_reserved_bits (v : N) :
  (v <= 40)%N -> N.land v 0xC0 = 0%N.
Proof.
  intro H. rewrite <- (N2Nat.id v).
  assert (Hn : (N.to_nat v < 41)%nat) by lia.
  revert Hn. generalize (N.to_nat v). intros n Hn.
  do 41 (destruct n as [|n]; [reflexivity|]). lia.
Qed.

Lemma reserved_bits_large (v : N) :
  N.land v 0xC0 <> 0%N -> (40 < v)%N.
Proof.
  intro H. destruct (N.lt_ge_cases 40 v) as [G | G]; [exact G|].
  now apply small_byte_no_reserved_bits in G.
Qed.

Lemma props_decode_ok opt (b : byte) o :
  lzma_lzma2_props_decode (Some opt) [b] 1 = (LZMA_OK, Some o) ->
  (byte_val b <= 40)%N /\
  dictionary_size o = props_dict_size (byte_val b).
Proof.
  unfold lzma_lzma2_props_decode, in_at.
  change (nth 0 [b] x00) with b. change (negb (1 =? 1)%nat) with false.
  cbv iota.
  destruct (negb (N.land (byte_val b) 192 =? 0)%N); [discriminate|].
  destruct (N.ltb_spec 40 (byte_val b)) as [G | G]; [discriminate|].
  intro H. inversion H. split; [exact G | reflexivity].
Qed.

Lemma props_dict_size_step (n : nat) :
  (n < 40)%nat ->
  (props_dict_size (N.of_nat n) < props_dict_size (N.of_nat (S n)))%N.
Proof.
  intro H.
  do 40 (destruct n as [|n]; [vm_compute; reflexivity|]). lia.
Qed.

Lemma props_dict_size_mono (n m : nat) :
  (n < m <= 40)%nat ->
  (props_dict_size (N.of_nat n) < props_dict_size (N.of_nat m))%N.
Proof.
  induction m as [|m IH]; intro H; [lia|].
  destruct (Nat.eq_dec n m) as [-> | Hne].
  - apply props_dict_size_step. lia.
  - apply N.lt_trans with (props_dict_size (N.of_nat m)).
    + apply IH. lia.
    + apply props_dict_size_step. lia.
Qed.

(** X9.  The outcomes of [lzma_lzma2_props_decode].  The result is one of
    [LZMA_OK], [LZMA_OPTIONS_ERROR] and [LZMA_MEM_ERROR].  The payload is
    checked before memory is asked for: the result is [LZMA_OPTIONS_ERROR]
    exactly when the payload is not one byte or that byte is above 40 (the
    test of the reserved bits rejects nothing that the range test would
    accept), whether or not the allocation would succeed, and
    [LZMA_MEM_ERROR] exactly when the payload is accepted and the
    allocation fails.  [*options] is written exactly when the result is
    [LZMA_OK], and the block it then points to has its [lc], [lp] and [pb]
    as the allocator left them. *)
Theorem props_decode_outcomes alloc props props_size :
  let res := lzma_lzma2_props_decode alloc props props_size in
  let accepted := props_size = 1%nat /\ (in_at props 0 <= 40)%N in
  (fst res = LZMA_OK \/ fst res = LZMA_OPTIONS_ERROR \/
   fst res = LZMA_MEM_ERROR) /\
  (fst res = LZMA_OPTIONS_ERROR <-> ~ accepted) /\
  (fst res = LZMA_MEM_ERROR <-> accepted /\ alloc = None) /\
  (fst res = LZMA_OK <-> snd res <> None) /\
  (forall o, snd res = Some o ->
     exists opt, alloc = Some opt /\
       lc o = lc opt /\ lp o = lp opt /\ pb o = pb opt).
Proof.
  cbv zeta. unfold lzma_lzma2_props_decode.
  destruct (Nat.eqb_spec props_size 1) as [E | E]; cbn [negb];
    [destruct (N.eqb_spec (N.land (in_at props 0) 192) 0) as [R | R];
     cbn [negb];
     [destruct (N.ltb_spec 40 (in_at props 0)) as [G | G];
      [|destruct alloc as [opt|]]
     |apply reserved_bits_large in R]|];
    cbn [fst snd];
    (split; [|split; [|split; [|split]]]);
    try (intros o H; inversion H; subst; exists opt; repeat split);
    try (intros o H; discriminate H);
    intuition (try discriminate; try lia; try congruence).
Qed.

(** X10.  The dictionary size grows with the properties byte.  Of two
    accepted one-byte payloads the one with the larger byte gives the
    strictly larger [dictionary_size], and every accepted payload gives a
    size from 4096 (byte 0) to the largest [uint32_t] (byte 40): the shift
    never overflows 32 bits and no two bytes stand for the same size. *)
Theorem props_dictionary_size_monotone opt1 opt2 (b1 b2 : byte) o1 o2 :
  lzma_lzma2_props_decode (Some opt1) [b1] 1 = (LZMA_OK, Some o1) ->
  lzma_lzma2_props_decode (Some opt2) [b2] 1 = (LZMA_OK, Some o2) ->
  (byte_val b1 < byte_val b2)%N ->
  (4096 <= dictionary_size o1)%N /\
  (dictionary_size o1 < dictionary_size o2)%N /\
  (dictionary_size o2 <= 4294967295)%N.
Proof.
  intros H1 H2 Hlt.
  apply props_decode_ok in H1. destruct H1 as [L1 E1].
  apply props_decode_ok in H2. destruct H2 as [L2 E2].
  rewrite E1, E2. clear E1 E2.
  rewrite <- (N2Nat.id (byte_val b1)), <- (N2Nat.id (byte_val b2)).
  assert (Hn : (N.to_nat (byte_val b1) < N.to_nat (byte_val b2) <= 40)%nat)
    by lia.
  revert Hn. generalize (N.to_nat (byte_val b1)) (N.to_nat (byte_val b2)).
  intros n m Hn.
  pose proof (props_dict_size_mono Hn) as Hm.
  assert (H0 : (4096 <= props_dict_size (N.of_nat n))%N).
  { destruct n as [|n]; [vm_compute; discriminate|].
    apply N.lt_le_incl.
    apply (@props_dict_size_mono 0 (S n)). lia. }
  assert (H40 : (props_dict_size (N.of_nat m) <= 4294967295)%N).
  { destruct (Nat.eq_dec m 40) as [-> | Hne]; [vm_compute; discriminate|].
    apply N.lt_le_incl.
    apply (@props_dict_size_mono m 40). lia. }
  split; [exact H0|]. split; [exact Hm | exact H40].
Qed.

(** Witness for X9: an accepted payload without memory, and a rejected
    one. *)
Lemma props_decode_outcomes_witness :
  lzma_lzma2_props_decode None [x10] 1 = (LZMA_MEM_ERROR, None) /\
  fst (lzma_lzma2_props_decode None [x29] 1) = LZMA_OPTIONS_ERROR.
Proof.
  split.
  - destruct (@props_decode_outcomes None [x10] 1)
      as (_ & _ & H & Hw & _).
    cbv zeta in *.
    assert (Hr : fst (lzma_lzma2_props_decode None [x10] 1)
                 = LZMA_MEM_ERROR).
    { apply H. split; [split; [reflexivity | vm_compute; discriminate]
                      | reflexivity]. }
    destruct (lzma_lzma2_props_decode None [x10] 1) as [r [o|]].
    + cbn [fst snd] in *. subst r.
      assert (Hx : LZMA_MEM_ERROR = LZMA_OK)
        by (apply Hw; discriminate).
      discriminate Hx.
    + cbn [fst] in Hr. now rewrite Hr.
  - destruct (@props_decode_outcomes None [x29] 1) as (_ & H & _).
    apply H. intros [_ Hle]. vm_compute in Hle. now apply Hle.
Defined.

(** Witness for X10: the bytes 0x12 and 0x13. *)
Lemma props_dictionary_size_monotone_witness :
  exists o1 o2,
    lzma_lzma2_props_decode (Some sample_options) [x12] 1
    = (LZMA_OK, Some o1) /\
    lzma_lzma2_props_decode (Some sample_options) [x13] 1
    = (LZMA_OK, Some o2) /\
    (dictionary_size o1 < dictionary_size o2)%N.
Proof.
  eexists. eexists. split; [reflexivity|]. split; [reflexivity|].
  refine (proj1 (proj2 (@props_dictionary_size_monotone
            sample_options sample_options x12 x13 _ _ eq_refl eq_refl _))).
  vm_compute. reflexivity.
Defined.

(** ** What a session does not read *)

Section StaleFields.
Variable lz : Type.
Variable L : lzma_lz_decoder lz.
Variable dict_reset : lzma_dict -> lzma_dict.
Variable lzma_lzma_lclppb_decode :
  lzma_options_lzma -> N -> bool * lzma_options_lzma.

Abbreviation iter := (lzma2_iter L dict_reset lzma_lzma_lclppb_decode).
Abbreviation loop := (lzma2_decode_loop L dict_reset lzma_lzma_lclppb_decode).
Abbreviation decode := (lzma2_decode L dict_reset lzma_lzma_lclppb_decode).

Implicit Types (c : lzma_coder lz) (d : lzma_dict).

Ltac same_live_close :=
  eexists; (split; [reflexivity|]);
  (let Hne := fresh "Hne" in intro Hne; try (now elim Hne));
  unfold same_live_fields;
  cbn [sequence next_sequence lzma uncompressed_size compressed_size
       need_properties need_dictionary_reset options
       set_sequence set_next_sequence set_lzma set_uncompressed_size
       set_compressed_size set_need_properties set_need_dictionary_reset
       set_options];
  repeat split; try reflexivity; try assumption.

Lemma iter_same_live_fields c1 c2 d in_ pos size f c1' d' pos' :
  same_live_fields c1 c2 ->
  iter c1 d in_ pos size = (f, c1', d', pos') ->
  exists c2',
    iter c2 d in_ pos size = (f, c2', d', pos') /\
    (f <> Return LZMA_DATA_ERROR -> same_live_fields c1' c2').
Proof.
  destruct c1 as [s1 n1 l1 u1 k1 p1 r1 o1], c2 as [s2 n2 l2 u2 k2 p2 r2 o2].
  unfold same_live_fields.
  cbn [sequence next_sequence lzma uncompressed_size compressed_size
       need_properties need_dictionary_reset options].
  intros (Es & El & Ep & Er & Eo & Hlive) Hi. subst s2 l2 p2 r2 o2.
  unfold lzma2_iter in *.
  cbn [sequence next_sequence lzma uncompressed_size compressed_size
       need_properties need_dictionary_reset options] in *.
  destruct s1.
  - (* SEQ_CONTROL *)
    unfold seq_control, control_lzma_case2, control_copy_case2 in *.
    cbn [sequence next_sequence lzma uncompressed_size compressed_size
         need_properties need_dictionary_reset options
         set_sequence set_next_sequence set_lzma set_uncompressed_size
         set_compressed_size set_need_properties set_need_dictionary_reset
         set_options] in *.
    pose proof (reset_level_bound (in_at in_ pos)) as Hlvl.
    repeat match type of Hi with
      | context [if ?x then _ else _] => destruct x
      | context [match ?x with _ => _ end] => destruct x
      end;
      try lia; inversion Hi; subst; same_live_close.
  - destruct Hlive as (-> & Hb & ->). inversion Hi; subst. same_live_close.
  - destruct Hlive as (-> & Hb & ->). inversion Hi; subst. same_live_close.
  - destruct Hlive as (-> & Hb). inversion Hi; subst. same_live_close.
  - destruct Hlive as (-> & Hb & ->). inversion Hi; subst.
    eexists; (split; [reflexivity|]); intros _.
    unfold same_live_fields.
    cbn [sequence next_sequence lzma uncompressed_size compressed_size
         need_properties need_dictionary_reset options
         set_sequence set_compressed_size].
    repeat split. destruct n2; try discriminate Hb; reflexivity.
  - subst k2.
    destruct (lzma_lzma_lclppb_decode o1 (in_at in_ pos)) as [[|] o];
      inversion Hi; subst; same_live_close.
  - subst k2. unfold seq_lzma in *.
    cbn [sequence next_sequence lzma uncompressed_size compressed_size
         need_properties need_dictionary_reset options
         set_sequence set_lzma set_compressed_size] in *.
    destruct (lz_code L l1 d in_ pos size) as [[[ret l] dd] pp].
    cbn [sequence next_sequence lzma uncompressed_size compressed_size
         need_properties need_dictionary_reset options
         set_sequence set_lzma set_compressed_size] in *.
    repeat match type of Hi with
      | context [if ?x then _ else _] => destruct x
      end; inversion Hi; subst; same_live_close.
  - subst k2. unfold seq_copy in *.
    cbn [sequence next_sequence lzma uncompressed_size compressed_size
         need_properties need_dictionary_reset options
         set_sequence set_lzma set_compressed_size] in *.
    destruct (dict_write d in_ pos size k1) as [[dd pp] ll].
    cbn [sequence next_sequence lzma uncompressed_size compressed_size
         need_properties need_dictionary_reset options
         set_sequence set_lzma set_compressed_size] in *.
    destruct (negb _); inversion Hi; subst; same_live_close.
Qed.

Lemma same_live_loop_cond c1 c2 pos size :
  same_live_fields c1 c2 -> loop_cond c1 pos size = loop_cond c2 pos size.
Proof. intros (Es & _). unfold loop_cond. now rewrite Es. Qed.

Lemma loop_same_live_fields fuel c1 c2 d in_ pos size r c1' d' pos' :
  same_live_fields c1 c2 ->
  loop fuel c1 d in_ pos size = Some (r, c1', d', pos') ->
  exists c2',
    loop fuel c2 d in_ pos size = Some (r, c2', d', pos') /\
    (r <> LZMA_DATA_ERROR -> same_live_fields c1' c2').
Proof.
  revert c1 c2 d pos.
  induction fuel as [|fuel IH]; intros c1 c2 d pos H Hl; [discriminate|].
  cbn [lzma2_decode_loop] in *.
  rewrite <- (same_live_loop_cond pos size H).
  destruct (loop_cond c1 pos size).
  - destruct (iter c1 d in_ pos size) as [[[f cx] dx] px] eqn:Hi.
    destruct (@iter_same_live_fields c1 c2 d in_ pos size f cx dx px H Hi)
      as (cy & Hi2 & Hs).
    rewrite Hi2. destruct f as [|r1].
    + apply (IH cx cy dx px); [apply Hs; discriminate | exact Hl].
    + inversion Hl; subst. exists cy. split; [reflexivity|].
      intro Hne. apply Hs. intro E. apply Hne. now inversion E.
  - inversion Hl; subst. exists c2. split; [reflexivity|]. intros _. exact H.
Qed.

(** X11.  What an earlier session left behind is not read.
    [lzma2_decoder_init] leaves [next_sequence], [uncompressed_size] and
    [compressed_size] as they were, and [lzma2_decode] does not depend on
    them: two coders initialised over different old contents (with the
    same LZMA decoder state and options) agree on every member that can
    still be read, and from two coders that agree in this way a call
    returns the same value, dictionary and [*in_pos]; unless it returns
    [LZMA_DATA_ERROR], the two coders agree in this way afterwards as
    well. *)
Theorem stale_fields_not_read :
  (forall c0 c0',
      lzma c0 = lzma c0' -> options c0 = options c0' ->
      same_live_fields (lzma2_decoder_init c0) (lzma2_decoder_init c0')) /\
  (forall c1 c2 d in_ pos size r c1' d' pos',
      same_live_fields c1 c2 ->
      decode c1 d in_ pos size = Some (r, c1', d', pos') ->
      exists c2',
        decode c2 d in_ pos size = Some (r, c2', d', pos') /\
        (r <> LZMA_DATA_ERROR -> same_live_fields c1' c2')).
Proof.
  split.
  - intros c0 c0' Hl Ho. unfold same_live_fields, lzma2_decoder_init.
    cbn [sequence next_sequence lzma uncompressed_size compressed_size
         need_properties need_dictionary_reset options
         set_sequence set_need_properties set_need_dictionary_reset].
    repeat split; assumption.
  - intros c1 c2 d in_ pos size r c1' d' pos' H Hd.
    exact (@loop_same_live_fields _ c1 c2 d in_ pos size r c1' d' pos' H Hd).
Qed.

End StaleFields.

(** Witness for X11: the header of an uncompressed chunk and a byte of
    its body, read by two coders initialised over different contents. *)
Lemma stale_fields_not_read_witness :
  exists c2',
    sample_decode
      (lzma2_decoder_init
         (mk_coder SEQ_LZMA SEQ_PROPERTIES 0%N 7%N 9%N false false
            sample_options))
      sample_dict [x01; x00; x04; x41] 0 4
    = Some (LZMA_OK, c2', mk_dict [x41] 4096, 4%nat) /\
    compressed_size c2' = 4%N.
Proof.
  unfold sample_decode.
  pose (c0 := mk_coder SEQ_COPY SEQ_COPY 0%N 0%N 0%N false false
                sample_options).
  pose (c0' := mk_coder SEQ_LZMA SEQ_PROPERTIES 0%N 7%N 9%N false false
                 sample_options).
  pose (c1 := mk_coder SEQ_COPY SEQ_COPY 0%N 0%N 4%N true false
                sample_options).
  destruct (@stale_fields_not_read N stored_decoder clearing_dict_reset
              sample_lclppb_decode) as [Hinit Hcall].
  assert (H : lzma2_decode stored_decoder clearing_dict_reset
                sample_lclppb_decode (lzma2_decoder_init c0) sample_dict
                [x01; x00; x04; x41] 0 4
              = Some (LZMA_OK, c1, mk_dict [x41] 4096, 4%nat))
    by (vm_compute; reflexivity).
  destruct (Hcall _ _ _ _ _ _ _ _ _ _ (Hinit c0 c0' eq_refl eq_refl) H)
    as (c2' & H2 & Hs).
  exists c2'. split; [exact H2|].
  assert (Hne : LZMA_OK <> LZMA_DATA_ERROR) by discriminate.
  destruct (Hs Hne) as (_ & _ & _ & _ & _ & Hk).
  symmetry. exact Hk.
Defined.

(** ** The header of a compressed chunk as a whole *)

Section ChunkSetup.
Variable lz : Type.
Variable L : lzma_lz_decoder lz.
Variable dict_reset : lzma_dict -> lzma_dict.
Variable lzma_lzma_lclppb_decode :
  lzma_options_lzma -> N -> bool * lzma_options_lzma.

Abbreviation iter := (lzma2_iter L dict_reset lzma_lzma_lclppb_decode).
Abbreviation loop := (lzma2_decode_loop L dict_reset lzma_lzma_lclppb_decode).
Abbreviation decode := (lzma2_decode L dict_reset lzma_lzma_lclppb_decode).

Implicit Types (c : lzma_coder lz) (d : lzma_dict).

Lemma loop_cond_more c pos size :
  (pos < size)%nat -> loop_cond c pos size = true.
Proof.
  intro H. unfold loop_cond. apply Nat.ltb_lt in H. now rewrite H.
Qed.

(** The control byte of a compressed chunk that is accepted. *)
Lemma lzma_control_pass c d in_ pos size :
  sequence c = SEQ_CONTROL ->
  N.land (in_at in_ pos) 0x80 <> 0%N ->
  let level := N.land (N.shiftr (in_at in_ pos) 5) 3 in
  let u0 := (N.land (in_at in_ pos) 0x1F * 65536)%N in
  ((level = 3%N \/ (level = 2%N /\ need_dictionary_reset c = false)) ->
   iter c d in_ pos size
   = (Break,
      mk_coder SEQ_UNCOMPRESSED_1 SEQ_PROPERTIES (lzma c) u0
        (compressed_size c) false false (options c),
      (if (level =? 3)%N then dict_reset d else d), S pos)) /\
  ((level = 1%N \/ level = 0%N) -> need_properties c = false ->
   iter c d in_ pos size
   = (Break,
      mk_coder SEQ_UNCOMPRESSED_1 SEQ_LZMA
        (if (level =? 1)%N then lz_reset L (lzma c) (options c) else lzma c)
        u0 (compressed_size c) false (need_dictionary_reset c) (options c),
      d, S pos)).
Proof.
  intros Hs Hb level u0. unfold lzma2_iter. rewrite Hs.
  unfold seq_control, control_lzma_case2.
  destruct (control_high_bits (in_at in_ pos)) as [Hu _]. rewrite Hu.
  destruct (N.eqb_spec (N.land (in_at in_ pos) 128) 0) as [E | _];
    [contradiction|]. cbn [negb]. fold level. fold u0.
  split.
  - intros [Hl | [Hl Hr]]; rewrite Hl.
    + reflexivity.
    + cbn [N.eqb Pos.eqb]. unfold set_next_sequence, set_need_properties,
        set_sequence, set_uncompressed_size.
      cbn [sequence next_sequence lzma uncompressed_size compressed_size
           need_properties need_dictionary_reset options].
      rewrite Hr. reflexivity.
  - intros [Hl | Hl] Hn; rewrite Hl;
      cbn [N.eqb Pos.eqb];
      unfold set_next_sequence, set_need_properties, set_lzma,
        set_sequence, set_uncompressed_size;
      cbn [sequence next_sequence lzma uncompressed_size compressed_size
           need_properties need_dictionary_reset options];
      rewrite Hn; reflexivity.
Qed.

(** X12.  What the LZMA decoder is started with.  From [SEQ_CONTROL], let
    the control byte of a compressed chunk, its four size bytes and, for
    the reset levels 2 and 3, a properties byte be in the input.  For the
    levels 2 and 3 (level 2 after a dictionary reset only) and an accepted
    properties byte, the call goes on exactly as a call that starts behind
    these six bytes in [SEQ_LZMA] with the new options, the LZMA decoder
    first told the uncompressed size and then reset with the new options,
    both flags cleared, and for level 3 the dictionary reset.  For the
    levels 0 and 1 with [need_properties] cleared it goes on as a call
    behind the five bytes with the options unchanged, and for level 1 the
    LZMA decoder reset with them before it is told the size. *)
Theorem lzma_chunk_setup c d in_ pos size res :
  sequence c = SEQ_CONTROL ->
  N.land (in_at in_ pos) 0x80 <> 0%N ->
  let level := N.land (N.shiftr (in_at in_ pos) 5) 3 in
  let u := chunk_uncompressed_size (in_at in_ pos) (in_at in_ (pos + 1))
             (in_at in_ (pos + 2)) in
  let cs := chunk_compressed_size (in_at in_ (pos + 3))
              (in_at in_ (pos + 4)) in
  ((level = 3%N \/ (level = 2%N /\ need_dictionary_reset c = false)) ->
   (pos + 6 <= size)%nat ->
   forall o,
     lzma_lzma_lclppb_decode (options c) (in_at in_ (pos + 5)) = (false, o) ->
     decode
       (mk_coder SEQ_LZMA SEQ_PROPERTIES
          (lz_reset L (lz_set_uncompressed L (lzma c) u) o) u cs
          false false o)
       (if (level =? 3)%N then dict_reset d else d) in_ (pos + 6) size
     = Some res ->
     decode c d in_ pos size = Some res) /\
  ((level = 1%N \/ level = 0%N) -> need_properties c = false ->
   (pos + 5 <= size)%nat ->
   decode
     (mk_coder SEQ_LZMA SEQ_LZMA
        (lz_set_uncompressed L
           (if (level =? 1)%N then lz_reset L (lzma c) (options c)
            else lzma c) u)
        u cs false (need_dictionary_reset c) (options c))
     d in_ (pos + 5) size
   = Some res ->
   decode c d in_ pos size = Some res).
Proof.
  intros Hs Hb.
  replace (pos + 1)%nat with (S pos) by lia.
  replace (pos + 2)%nat with (S (S pos)) by lia.
  replace (pos + 3)%nat with (S (S (S pos))) by lia.
  replace (pos + 4)%nat with (S (S (S (S pos)))) by lia.
  replace (pos + 5)%nat with (S (S (S (S (S pos))))) by lia.
  replace (pos + 6)%nat with (S (S (S (S (S (S pos)))))) by lia.
  intros level u cs.
  destruct (@lzma_control_pass c d in_ pos size Hs Hb) as [P23 P01].
  fold level in P23, P01.
  split.
  - intros Hl Hsize o Ho Hrest. specialize (P23 Hl).
    set (d1 := if (level =? 3)%N then dict_reset d else d) in *.
    set (c1 := mk_coder SEQ_UNCOMPRESSED_1 SEQ_PROPERTIES _ _ _ _ _ _)
      in P23.
    destruct (@lzma_header_passes lz L dict_reset lzma_lzma_lclppb_decode
                c1 d1 (in_at in_ pos)
                in_ (S pos) size in_ (S (S pos)) size
                in_ (S (S (S pos))) size in_ (S (S (S (S pos)))) size
                eq_refl eq_refl)
      as (Q1 & Q2 & Q3 & Q4 & _).
    fold u cs in Q2, Q3, Q4.
    match type of Q4 with
    | _ = (_, ?c5, _, _) =>
        assert (Q5 : iter c5 d1 in_ (S (S (S (S (S pos))))) size
                     = (Break,
                        mk_coder SEQ_LZMA SEQ_PROPERTIES
                          (lz_reset L (lz_set_uncompressed L (lzma c) u) o)
                          u cs false false o,
                        d1, S (S (S (S (S (S pos)))))))
    end.
    { unfold lzma2_iter. cbn [sequence header_state next_sequence c1].
      cbn [options header_state c1]. rewrite Ho. reflexivity. }
    unfold lzma2_decode in *. unfold lzma2_fuel in *.
    replace (2 * (size - pos) + 2)%nat
      with (6 + (2 * (size - pos) - 4))%nat by lia.
    change (6 + (2 * (size - pos) - 4))%nat
      with (S (S (S (S (S (S (2 * (size - pos) - 4))))))).
    cbn [lzma2_decode_loop].
    rewrite loop_cond_more, P23 by lia.
    rewrite loop_cond_more, Q1 by lia.
    rewrite loop_cond_more, Q2 by lia.
    rewrite loop_cond_more, Q3 by lia.
    rewrite loop_cond_more, Q4 by lia.
    rewrite loop_cond_more, Q5 by lia.
    apply (loop_fuel_mono _ _ _ _ _ _ _ _ Hrest). lia.
  - intros Hl Hn Hsize Hrest. specialize (P01 Hl Hn).
    set (l0 := if (level =? 1)%N then lz_reset L (lzma c) (options c)
               else lzma c) in *.
    set (c1 := mk_coder SEQ_UNCOMPRESSED_1 SEQ_LZMA _ _ _ _ _ _) in P01.
    destruct (@lzma_header_passes lz L dict_reset lzma_lzma_lclppb_decode
                c1 d (in_at in_ pos)
                in_ (S pos) size in_ (S (S pos)) size
                in_ (S (S (S pos))) size in_ (S (S (S (S pos)))) size
                eq_refl eq_refl)
      as (Q1 & Q2 & Q3 & Q4 & _).
    fold u cs in Q2, Q3, Q4.
    unfold lzma2_decode in *. unfold lzma2_fuel in *.
    replace (2 * (size - pos) + 2)%nat
      with (5 + (2 * (size - pos) - 3))%nat by lia.
    change (5 + (2 * (size - pos) - 3))%nat
      with (S (S (S (S (S (2 * (size - pos) - 3)))))).
    cbn [lzma2_decode_loop].
    rewrite loop_cond_more, P01 by lia.
    rewrite loop_cond_more, Q1 by lia.
    rewrite loop_cond_more, Q2 by lia.
    rewrite loop_cond_more, Q3 by lia.
    rewrite loop_cond_more, Q4 by lia.
    apply (loop_fuel_mono _ _ _ _ _ _ _ _ Hrest). lia.
Qed.

End ChunkSetup.

(** Witness for X12: a first chunk with reset level 3, two bytes long. *)
Lemma lzma_chunk_setup_witness :
  sample_decode sample_coder sample_dict
    [xe0; x00; x01; x00; x01; x5d; x41; x42] 0 8
  = Some (LZMA_OK,
          mk_coder SEQ_CONTROL SEQ_PROPERTIES 0%N 2%N 0%N false false
            (mk_options 4096 None 0 3 0 2),
          mk_dict [x41; x42] 4096, 8%nat).
Proof.
  unfold sample_decode.
  pose (in_ := [xe0; x00; x01; x00; x01; x5d; x41; x42]).
  pose (o := mk_options 4096 None 0 3 0 2).
  pose (res := (LZMA_OK,
                mk_coder SEQ_CONTROL SEQ_PROPERTIES 0%N 2%N 0%N false false o,
                mk_dict [x41; x42] 4096, 8%nat)).
  assert (Hb : N.land (in_at in_ 0) 0x80 <> 0%N)
    by (vm_compute; discriminate).
  assert (Hl : N.land (N.shiftr (in_at in_ 0) 5) 3 = 3%N \/
               (N.land (N.shiftr (in_at in_ 0) 5) 3 = 2%N /\
                need_dictionary_reset sample_coder = false))
    by (left; vm_compute; reflexivity).
  assert (Hsize : (0 + 6 <= 8)%nat) by lia.
  assert (Ho : sample_lclppb_decode (options sample_coder)
                 (in_at in_ (0 + 5)) = (false, o))
    by (vm_compute; reflexivity).
  destruct (@lzma_chunk_setup N stored_decoder clearing_dict_reset
              sample_lclppb_decode sample_coder sample_dict in_ 0 8 res
              eq_refl Hb) as [H _].
  apply (H Hl Hsize o Ho). vm_compute. reflexivity.
Defined.
